(** * AthenaJS [Map]: tile grid, viewport scrolling, collisions, spawning

    A shallow embedding of [js/Map/Map.js] and the properties of its
    natural-language specification.

    Conventions of the embedding.
    - JavaScript numbers that hold pixel positions, tile indices and
      timestamps are integers here ([Z]); [e | 0] is written out as the
      wrap-around to a signed 32-bit integer ([toInt32]), and
      [a / b | 0] as the truncated quotient followed by that wrap.
      Where a quotient is multiplied before it is truncated the
      arithmetic is that of IEEE 754 doubles ([SpecFloat], with 53 bits
      of precision).
    - The two planes of the map are [Uint8Array]s: a read outside the
      array gives [undefined] ([None] here), a write outside is dropped, and
      a stored value is reduced modulo 256.
    - [this.triggers] and [this.windows] are objects used as sparse maps
      from an index to a record: [gmap Z _].
    - Drawables are shared mutable objects; the registry lists hold
      references to them ([ObjRef]).
    - Loops whose exit depends on the data carry a fuel argument and
      return [None] when it runs out. *)

From Stdlib Require Import ZArith Lia Bool List.
From Stdlib Require Import Floats.SpecFloat.
From stdpp Require Import base numbers option list list_numbers strings gmap.

Local Open Scope Z_scope.

(** ** JavaScript numbers *)

(** [ToInt32]: the result of [e | 0] for an integer [e]. *)
Definition toInt32 (z : Z) : Z := (z + 2 ^ 31) mod 2 ^ 32 - 2 ^ 31.

(** [a / b | 0]: the quotient truncated toward zero, then [ToInt32].
    ([a / 0] is an infinity or NaN, which [| 0] sends to 0, and
    [Z.quot a 0] is 0 as well.) *)
Definition idiv (a b : Z) : Z := toInt32 (Z.quot a b).

(** The double nearest to an integer (the integer itself below
    [2 ^ 53]), and the operators [/] and [*] on doubles. *)
Definition toDouble (z : Z) : spec_float := binary_normalize 53 1024 z 0 false.
Definition fdiv (a b : spec_float) : spec_float := SFdiv 53 1024 a b.
Definition fmul (a b : spec_float) : spec_float := SFmul 53 1024 a b.

(** The integer part of a double, truncated toward zero; 0 for [NaN] and
    the infinities, as in [ToInt32]. *)
Definition truncDouble (f : spec_float) : Z :=
  match f with
  | S754_finite s m e =>
      let v := if 0 <=? e then Z.pos m * 2 ^ e else Z.pos m / 2 ^ (- e) in
      if s then - v else v
  | _ => 0
  end.

(** [Math.ceil(a / b)] for a divisor other than 0. *)
Definition ceilQuot (a b : Z) : Z := - ((- a) / b).

(** The double that holds the integer [p] exactly, for [p < 2 ^ 53]: a
    mantissa of 53 bits. *)
Definition exactDouble (p : positive) : spec_float :=
  let d := Z.pos (digits2_pos p) in
  S754_finite false (Z.to_pos (Z.pos p * 2 ^ (53 - d))) (d - 53).

(** ** Typed arrays *)

(** [a[i]] on a [Uint8Array]: [undefined] outside [0, length). *)
Definition readU8 (a : list Z) (i : Z) : option Z :=
  if 0 <=? i then a !! Z.to_nat i else None.

(** [a[i] = v] on a [Uint8Array]: the byte [v mod 256] is stored, and a
    write outside the array has no effect. *)
Definition writeU8 (a : list Z) (i : Z) (v : Z) : list Z :=
  if 0 <=? i then <[Z.to_nat i := v mod 256]> a else a.

(** [a[i] === t] for a number [t]. *)
Definition strictEq (o : option Z) (t : Z) : bool :=
  match o with
  | Some v => v =? t
  | None => false
  end.

(** ** The tile grid *)

Record TileGrid := mkGrid {
  tileWidth : Z;
  tileHeight : Z;
  numCols : Z;
  numRows : Z;
  map : list Z;            (* this.map: visual plane *)
  tileBehaviors : list Z;  (* this.tileBehaviors: behavior plane *)
}.

(** [{x: i, y: j}] *)
Record TilePos := mkPos { px : Z; py : Z }.

Definition getTileIndexFromPixel (g : TileGrid) (x y : Z) : TilePos :=
  mkPos (idiv x (tileWidth g)) (idiv y (tileHeight g)).

Definition getTileBehaviorAtIndex (g : TileGrid) (col row : Z) : option Z :=
  readU8 (tileBehaviors g) (numCols g * row + col).

(** ** Drawables *)

(** The box returned by [getHitBox()], relative to the sprite position. *)
Record HitBox := mkBox { hx : Z; hy : Z; hx2 : Z; hy2 : Z }.

(** The fields of a drawable that the map reads or writes. *)
Record Drawable := mkDrawable {
  obj_x : Z;                  (* obj.x *)
  obj_y : Z;                  (* obj.y *)
  obj_vx : Z;                 (* obj.vx *)
  obj_vy : Z;                 (* obj.vy *)
  getHitBox : HitBox;         (* obj.getHitBox() *)
  collideGroup : option Z;    (* obj.collideGroup, [None] when not set *)
  master : bool;              (* obj.master === true *)
  layer : Z;                  (* obj.layer *)
}.

Definition set_obj_x (d : Drawable) (v : Z) : Drawable :=
  mkDrawable v (obj_y d) (obj_vx d) (obj_vy d) (getHitBox d) (collideGroup d) (master d) (layer d).

Definition set_obj_xy (d : Drawable) (vx vy : Z) : Drawable :=
  mkDrawable vx vy (obj_vx d) (obj_vy d) (getHitBox d) (collideGroup d) (master d) (layer d).

Definition set_layer (d : Drawable) (l : Z) : Drawable :=
  mkDrawable (obj_x d) (obj_y d) (obj_vx d) (obj_vy d) (getHitBox d) (collideGroup d) (master d) l.

(** ** The collision engine *)

Section Collision.

(** [Tile.TYPE.WALL]: the constant is declared in [Tile.js]; the
    collision engine is taken for any value of it. *)
Variable TYPE_WALL : Z.

Variable g : TileGrid.

Definition fallTest (x y : Z) : bool :=
  let pos := getTileIndexFromPixel g x y in
  strictEq (readU8 (tileBehaviors g) (px pos + py pos * numCols g)) TYPE_WALL.

(** The inner loop of [hitObjectTest]: [for (j = ...; j <= max2; j++)] in
    column [i], with [n] the number of rows left to visit. *)
Fixpoint hitRows (types i j : Z) (n : nat) : option TilePos :=
  match n with
  | O => None
  | S n' =>
      if strictEq (readU8 (tileBehaviors g) (j * numCols g + i)) types
      then Some (mkPos i j)
      else hitRows types i (j + 1) n'
  end.

(** The outer loop: [for (i = ...; i <= max1; i++)], [n] columns left. *)
Fixpoint hitCols (types i j0 : Z) (rows : nat) (n : nat) : option TilePos :=
  match n with
  | O => None
  | S n' =>
      match hitRows types i j0 rows with
      | Some p => Some p
      | None => hitCols types (i + 1) j0 rows n'
      end
  end.

(** Number of iterations of [for (k = lo; k <= hi; k++)]. *)
Definition span (lo hi : Z) : nat := Z.to_nat (hi - lo + 1).

(** [hitObjectTest]: [Some {x: i, y: j}] for the object returned on a
    hit (its [tile] field is [i * tileWidth], [j * tileHeight]), [None] for
    [false]. *)
Definition hitObjectTest (x y x2 y2 types : Z) : option TilePos :=
  let pos1 := getTileIndexFromPixel g x y in
  let pos2 := getTileIndexFromPixel g x2 y in
  let pos3 := getTileIndexFromPixel g x y2 in
  let max1 := px pos2 in
  let max2 := py pos3 in
  hitCols types (px pos1) (py pos1) (span (py pos1) max2) (span (px pos1) max1).

(** The inner [for] of [setNextX]: walks down column [tx] from row [ty]
    while [i < spriteYMax]; returns whether [tileTypes] was met. *)
Fixpoint scanColumn (fuel : nat) (tileTypes spriteYMax tx i ty : Z) : option bool :=
  match fuel with
  | O => None
  | S fuel' =>
      if i <? spriteYMax then
        if strictEq (readU8 (tileBehaviors g) (ty * numCols g + tx)) tileTypes
        then Some true
        else scanColumn fuel' tileTypes spriteYMax tx (i + tileHeight g) (ty + 1)
      else Some false
  end.

(** The variables of [setNextX] that its [while] loop updates. *)
Record SweepState := mkSweep {
  w_startX : Z;        (* startX *)
  w_tilePos : TilePos; (* tilePos *)
  w_found : bool;      (* found *)
  w_minX : Z;          (* minX *)
}.

Definition sweepGuard (left : bool) (vx : Z) (st : SweepState) : bool :=
  negb (w_found st) &&
  ((left && (w_minX st >=? vx)) || (negb left && (w_minX st <=? vx))).

(** One pass through the body of the [while] loop. *)
Definition sweepBody (fuel : nat) (left : bool) (tileTypes spriteYMax startY : Z)
    (st : SweepState) : option SweepState :=
  let tx := px (w_tilePos st) in
  match scanColumn fuel tileTypes spriteYMax tx (py (w_tilePos st) * tileHeight g) (py (w_tilePos st)) with
  | None => None
  | Some fnd =>
      (* if (!found) minX = left ? tx * tw - startX : (++tx * tw) - startX *)
      let tx' := if fnd then tx else if left then tx else tx + 1 in
      let minX' := if fnd then w_minX st else tx' * tileWidth g - w_startX st in
      let startX' := if left then tx' * tileWidth g - 1 else tx' * tileWidth g in
      Some (mkSweep startX' (getTileIndexFromPixel g startX' startY) fnd minX')
  end.

Fixpoint sweepLoop (fuel : nat) (left : bool) (tileTypes vx spriteYMax startY : Z)
    (st : SweepState) : option SweepState :=
  match fuel with
  | O => None
  | S fuel' =>
      if sweepGuard left vx st then
        match sweepBody fuel' left tileTypes spriteYMax startY st with
        | None => None
        | Some st' => sweepLoop fuel' left tileTypes vx spriteYMax startY st'
        end
      else Some st
  end.

(** [setNextX(sprite, tileTypes)]: the returned boolean and the sprite
    with its new [x]; [None] when the loops do not finish within [fuel]. *)
Definition setNextX (fuel : nat) (sprite : Drawable) (tileTypes : Z) : option (bool * Drawable) :=
  let left := negb (obj_vx sprite >? 0) in
  let hitBox := getHitBox sprite in
  let spriteYMax := obj_y sprite + hy2 hitBox in
  let startX0 := if left then obj_x sprite + hx hitBox - 1 else obj_x sprite + hx2 hitBox + 1 in
  let startY := obj_y sprite + hy hitBox in
  let st0 := mkSweep startX0 (getTileIndexFromPixel g startX0 startY) false
                     (if left then startX0 else 0) in
  match sweepLoop fuel left tileTypes (obj_vx sprite) spriteYMax startY st0 with
  | None => None
  | Some st =>
      if (left && (obj_vx sprite >=? w_minX st)) || (negb left && (obj_vx sprite <? w_minX st))
      then Some (false, set_obj_x sprite (obj_x sprite + obj_vx sprite))
      else Some (true, set_obj_x sprite (obj_x sprite + w_minX st))
  end.

End Collision.

(** ** The map *)

(** [v || d] for a number option: [undefined] and [0] both give [d]. *)
Definition orElse (o : option Z) (d : Z) : Z :=
  match o with
  | Some v => if v =? 0 then d else v
  | None => d
  end.

(** [a % b] used as a condition: true when the remainder is a non-zero
    number ([a % 0] is NaN, which is falsy). *)
Definition remTruthy (a b : Z) : bool :=
  negb (b =? 0) && negb (Z.rem a b =? 0).

(** A reference to a drawable. *)
Definition ObjRef := nat.

Record Trigger := mkTrigger {
  triggered : bool;
  trigData : string;   (* what the trigger carries for the event handler *)
}.

Record Item := mkItem {
  itemType : string;                      (* item.type *)
  spriteOptions : list (string * Z);      (* item.spriteOptions *)
  itemId : option string;                 (* item.itemId *)
}.

Record Window := mkWindow {
  displayed : bool;
  items : list Item;
}.

(** The viewport rectangle, its scrolling limits and the dead zone used by
    [checkMasterPosition]. *)
Record Viewport := mkView {
  viewportX : Z;
  viewportY : Z;
  viewportW : Z;
  viewportH : Z;
  xMax : Z;
  yMax : Z;
  viewportLimitX : Z;
  viewportCenterX : Z;
  viewportLimitY : Z;
  viewportCenterY : Z;
}.

(** The state of the scroll animation. *)
Record Scroll := mkScroll {
  moving : bool;
  viewportTargetX : Z;
  viewportTargetY : Z;
  viewportSpeedX : Z;
  viewportSpeedY : Z;
  viewportStartX : Z;
  viewportStartY : Z;
  startMoveTime : Z;     (* null, read as 0, until the first scroll *)
  duration : Z;
}.

(** The constructor's [options]. *)
Record Options := mkOptions {
  o_tileWidth : option Z;
  o_tileHeight : option Z;
  o_width : option Z;
  o_height : option Z;
  o_viewportX : option Z;
  o_viewportY : option Z;
  o_viewportW : option Z;
  o_viewportH : option Z;
  o_triggers : gmap Z Trigger;
  o_windows : gmap Z Window;
  o_buffer : list Z;
  o_startX : option Z;
  o_startY : option Z;
}.

(** The calls received by [this.mapEvent]; the handler's answer to an
    event may depend on all of them. *)
Inductive MapEventCall :=
  | HandleEvent (t : Trigger)
  | ResetEvents
  | AddItem (id : string) (obj : ObjRef).

(** A request to [RM.newResourceFromPool(type, options)]. *)
Definition Request : Type := string * list (string * Z).

(** The map, together with the state of the collaborators it drives: the
    drawables it holds references to, its [MapEvent] and the resource
    manager (both represented by the calls they have received).  The
    fields used only for drawing are left out. *)
Record Map := mkMap {
  options : Options;
  width : Z;
  height : Z;
  grid : TileGrid;
  view : Viewport;
  scroll : Scroll;
  maxWinX : Z;
  triggers : gmap Z Trigger;
  windows : gmap Z Window;
  objects : list ObjRef;
  friendBullets : list ObjRef;
  enemies : list ObjRef;
  platforms : list ObjRef;
  masterObject : option ObjRef;
  startX : Z;
  startY : Z;
  isDirty : bool;
  drawables : gmap ObjRef Drawable;
  mapEvent : list MapEventCall;
  rmCalls : list Request;
  numViewportCols : Z;   (* set by [_calcNumTiles()], in the constructor *)
  numViewportRows : Z;
}.

Definition set_grid (m : Map) (g : TileGrid) (dirty : bool) : Map :=
  mkMap (options m) (width m) (height m) g (view m) (scroll m) (maxWinX m) (triggers m)
    (windows m) (objects m) (friendBullets m) (enemies m) (platforms m) (masterObject m)
    (startX m) (startY m) dirty (drawables m) (mapEvent m) (rmCalls m)
    (numViewportCols m) (numViewportRows m).

Definition set_view (m : Map) (v : Viewport) : Map :=
  mkMap (options m) (width m) (height m) (grid m) v (scroll m) (maxWinX m) (triggers m)
    (windows m) (objects m) (friendBullets m) (enemies m) (platforms m) (masterObject m)
    (startX m) (startY m) (isDirty m) (drawables m) (mapEvent m) (rmCalls m)
    (numViewportCols m) (numViewportRows m).

Definition set_scroll (m : Map) (s : Scroll) : Map :=
  mkMap (options m) (width m) (height m) (grid m) (view m) s (maxWinX m) (triggers m)
    (windows m) (objects m) (friendBullets m) (enemies m) (platforms m) (masterObject m)
    (startX m) (startY m) (isDirty m) (drawables m) (mapEvent m) (rmCalls m)
    (numViewportCols m) (numViewportRows m).

Definition set_isDirty (m : Map) (b : bool) : Map :=
  mkMap (options m) (width m) (height m) (grid m) (view m) (scroll m) (maxWinX m) (triggers m)
    (windows m) (objects m) (friendBullets m) (enemies m) (platforms m) (masterObject m)
    (startX m) (startY m) b (drawables m) (mapEvent m) (rmCalls m)
    (numViewportCols m) (numViewportRows m).

Definition set_triggers (m : Map) (t : gmap Z Trigger) (ev : list MapEventCall) : Map :=
  mkMap (options m) (width m) (height m) (grid m) (view m) (scroll m) (maxWinX m) t
    (windows m) (objects m) (friendBullets m) (enemies m) (platforms m) (masterObject m)
    (startX m) (startY m) (isDirty m) (drawables m) ev (rmCalls m)
    (numViewportCols m) (numViewportRows m).

Definition set_windows (m : Map) (w : gmap Z Window) : Map :=
  mkMap (options m) (width m) (height m) (grid m) (view m) (scroll m) (maxWinX m) (triggers m)
    w (objects m) (friendBullets m) (enemies m) (platforms m) (masterObject m)
    (startX m) (startY m) (isDirty m) (drawables m) (mapEvent m) (rmCalls m)
    (numViewportCols m) (numViewportRows m).

(** The object lists, the master and the drawables, as [addObject] and
    [removeObject] update them. *)
Definition set_registry (m : Map) (objs fb en pl : list ObjRef) (mo : option ObjRef)
    (ds : gmap ObjRef Drawable) : Map :=
  mkMap (options m) (width m) (height m) (grid m) (view m) (scroll m) (maxWinX m) (triggers m)
    (windows m) objs fb en pl mo
    (startX m) (startY m) (isDirty m) ds (mapEvent m) (rmCalls m)
    (numViewportCols m) (numViewportRows m).

Definition set_collaborators (m : Map) (ds : gmap ObjRef Drawable)
    (ev : list MapEventCall) (rm : list Request) : Map :=
  mkMap (options m) (width m) (height m) (grid m) (view m) (scroll m) (maxWinX m) (triggers m)
    (windows m) (objects m) (friendBullets m) (enemies m) (platforms m) (masterObject m)
    (startX m) (startY m) (isDirty m) ds ev rm
    (numViewportCols m) (numViewportRows m).

(** *** Construction *)

(** [_calcNumTiles] and [setBuffer]: the first [numCols * numRows] bytes of
    the buffer are the visual plane, the rest of the buffer is the behavior
    plane.  [None] when the typed-array constructors throw a [RangeError]
    (the buffer is shorter than one plane). *)
Definition setBuffer (w h tw th : Z) (buffer : list Z) : option TileGrid :=
  let numCols := idiv w tw in
  let numRows := idiv h th in
  let size := numCols * numRows in
  if (0 <=? size) && (size <=? Z.of_nat (length buffer)) then
    Some (mkGrid tw th numCols numRows
            (take (Z.to_nat size) buffer) (drop (Z.to_nat size) buffer))
  else None.

Definition construct (o : Options) : option Map :=
  let tw := orElse (o_tileWidth o) 64 in
  let th := orElse (o_tileHeight o) 32 in
  let w := orElse (o_width o) 1024 in
  let h := orElse (o_height o) 1024 in
  let vw := orElse (o_viewportW o) w in
  let vh := orElse (o_viewportH o) h in
  match setBuffer w h tw th (o_buffer o) with
  | None => None
  | Some g =>
      Some (mkMap o w h g
              (mkView (orElse (o_viewportX o) 0) (orElse (o_viewportY o) 0) vw vh
                      (w - vw) (h - vh) 230 307 154 230)
              (mkScroll false 0 0 0 0 0 0 0 800)
              (idiv w vw)
              (o_triggers o) (o_windows o)
              [] [] [] [] None
              (orElse (o_startX o) 0) (orElse (o_startY o) 0)
              true ∅ [] []
              (* _calcNumTiles(): the tile sizes are not 0 *)
              (ceilQuot vw tw) (ceilQuot vh th))
  end.

(** *** Tiles *)

Definition updateTile (m : Map) (col row tileNum behavior : Z) : Map :=
  let g := grid m in
  let pos := row * numCols g + col in
  let map' := if tileNum >? -1 then writeU8 (map g) pos tileNum else map g in
  let beh' := if behavior >? -1 then writeU8 (tileBehaviors g) pos behavior
              else tileBehaviors g in
  set_grid m (mkGrid (tileWidth g) (tileHeight g) (numCols g) (numRows g) map' beh')
           ((tileNum >? -1) || (behavior >? -1) || isDirty m).

(** *** The entity registry *)

(** [l.indexOf(r)] followed by [l.splice(foundIndex, 1)] when found. *)
Fixpoint removeFirst (r : ObjRef) (l : list ObjRef) : list ObjRef :=
  match l with
  | [] => []
  | x :: l' => if decide (x = r) then l' else x :: removeFirst r l'
  end.

(** [l.indexOf(r) > -1] *)
Definition contains (r : ObjRef) (l : list ObjRef) : bool := bool_decide (r ∈ l).

(** [addObject(obj, layerIndex)].  [setImage], [setMap] and [setScene]
    touch no field kept here. *)
Definition addObject (m : Map) (obj : ObjRef) (layerIndex : Z) : Map :=
  let ds1 := alter (fun d => set_layer d layerIndex) obj (drawables m) in
  let objs := objects m ++ [obj] in
  let isMaster := default false (master <$> ds1 !! obj) in
  (* setMasterObject(obj) *)
  let mo := if isMaster then Some obj else masterObject m in
  let ds2 := if isMaster then alter (fun d => set_obj_xy d (startX m) (startY m)) obj ds1
             else ds1 in
  let grp := ds2 !! obj ≫= collideGroup in
  if decide (grp = Some 1) then
    set_registry m objs (friendBullets m) (enemies m ++ [obj]) (platforms m) mo ds2
  else if decide (grp = Some 2) then
    set_registry m objs (friendBullets m ++ [obj]) (enemies m) (platforms m) mo ds2
  else if decide (grp = Some 3) then
    set_registry m objs (friendBullets m) (enemies m) (platforms m ++ [obj]) mo ds2
  else
    set_registry m objs (friendBullets m) (enemies m) (platforms m) mo ds2.

Definition removeObject (m : Map) (drawable : ObjRef) : Map :=
  let objs := removeFirst drawable (objects m) in
  if contains drawable (enemies m) then
    set_registry m objs (friendBullets m) (removeFirst drawable (enemies m)) (platforms m)
                 (masterObject m) (drawables m)
  else if contains drawable (friendBullets m) then
    set_registry m objs (removeFirst drawable (friendBullets m)) (enemies m) (platforms m)
                 (masterObject m) (drawables m)
  else
    set_registry m objs (friendBullets m) (enemies m) (platforms m)
                 (masterObject m) (drawables m).

(** *** The viewport and the scroll controller *)

Definition setViewPort (m : Map) (x y w h : Z) : Map :=
  let v := view m in
  set_view m (mkView x y w h (xMax v) (yMax v)
                (viewportLimitX v) (viewportCenterX v) (viewportLimitY v) (viewportCenterY v)).

(** [moveTo(x, y)]; [now] is the value of [new Date().getTime()].
    [masterObject.savePosition()] touches no field kept here. *)
Definition moveTo (now : Z) (m : Map) (x y : Z) : Map :=
  let v := view m in
  let s := scroll m in
  let targetX := if x <? - xMax v then - xMax v else x in
  let targetY := if y <? - yMax v then - yMax v else y in
  if negb (moving s) && (negb (viewportX v =? targetX) || negb (viewportY v =? targetY)) then
    set_scroll m
      {| moving := true;
         viewportTargetX := if targetX >? 0 then 0 else targetX;
         viewportTargetY := if targetY >? 0 then 0 else targetY;
         viewportSpeedX := toInt32 (targetX - viewportX v);
         viewportSpeedY := toInt32 (targetY - viewportY v);
         viewportStartX := viewportX v;
         viewportStartY := viewportY v;
         startMoveTime := now;
         duration := duration s |}
  else m.

(** The destination chosen by [checkMasterPosition] on one axis ([null] is
    [None]): [pos] is the master's coordinate, [vp] the viewport's. *)
Definition masterDest (pos vp vsize limit center : Z) : option Z :=
  if negb (vp =? 0) && (pos + vp <=? limit) then Some (vp + center)
  else if (- vp + vsize) - pos <=? limit then Some (vp - center)
  else None.

(** [checkMasterPosition()]: the test on [destX] and [destY] and the call
    to [moveTo] are written twice in the source. *)
Definition checkMasterPosition (now : Z) (m : Map) : Map :=
  match masterObject m ≫= (fun r => drawables m !! r) with
  | Some mo =>
      if negb (moving (scroll m)) then
        let v := view m in
        let destX := masterDest (obj_x mo) (viewportX v) (viewportW v)
                                (viewportLimitX v) (viewportCenterX v) in
        let destY := masterDest (obj_y mo) (viewportY v) (viewportH v)
                                (viewportLimitY v) (viewportCenterY v) in
        if bool_decide (destX <> None) || bool_decide (destY <> None) then
          let m1 := moveTo now m (default (viewportX v) destX) (default (viewportY v) destY) in
          moveTo now m1 (default (viewportX (view m1)) destX) (default (viewportY (view m1)) destY)
        else m
      else m
  | None => m
  end.

(** *** Triggers *)

(** [getTriggersForBox]: the indices, in collection order, of the
    triggers pushed on the result array. *)
Definition getTriggersForBox (m : Map) (x y x2 y2 : Z) : list Z :=
  let g := grid m in
  let pos1 := getTileIndexFromPixel g x y in
  let pos2 := getTileIndexFromPixel g x2 y in
  let pos3 := getTileIndexFromPixel g x y2 in
  let max1 := px pos2 in
  let max2 := py pos3 in
  i ← seqZ (px pos1) (max1 - px pos1 + 1);
  j ← seqZ (py pos1) (max2 - py pos1 + 1);
  match triggers m !! (j * numCols g + i) with
  | Some trigger => if negb (triggered trigger) then [j * numCols g + i] else []
  | None => []
  end.

Section Collaborators.

(** [this.mapEvent.handleEvent(trigger)], as a boolean: the answer may
    depend on every call the handler has received so far. *)
Variable handleEvent : list MapEventCall -> Trigger -> bool.

(** [RM.newResourceFromPool(type, options)]: the object handed out (its
    reference and its fields) may depend on the earlier requests. *)
Variable newResourceFromPool : list Request -> Request -> ObjRef * Drawable.

(** The position [start + easing(t, ellapsedTime, 0, 1, duration) * speed | 0]
    of an in-flight scroll, as a function of [ellapsedTime], [duration],
    [start] and [speed]: the easing function and its floating-point
    arithmetic stay abstract. *)
Variable easedPosition : Z -> Z -> Z -> Z -> Z.

(** [trigger.triggered = !this.mapEvent.handleEvent(trigger)] for the
    trigger stored at index [k]. *)
Definition fireTrigger (m : Map) (k : Z) : Map :=
  match triggers m !! k with
  | Some trigger =>
      let r := handleEvent (mapEvent m) trigger in
      set_triggers m (<[k := mkTrigger (negb r) (trigData trigger)]> (triggers m))
                   (mapEvent m ++ [HandleEvent trigger])
  | None => m
  end.

(** [triggers.forEach(...)] *)
Definition dispatchTriggers (m : Map) (keys : list Z) : Map :=
  foldl fireTrigger m keys.

Definition masterBoxTriggers (m : Map) (mo : Drawable) : list Z :=
  let box := getHitBox mo in
  getTriggersForBox m (obj_x mo + hx box) (obj_y mo + hy box)
                      (obj_x mo + hx2 box) (obj_y mo + hy2 box).

Definition checkForTriggers (m : Map) : Map :=
  match masterObject m ≫= (fun r => drawables m !! r) with
  | Some mo => dispatchTriggers m (masterBoxTriggers m mo)
  | None => m
  end.

(** *** Windows *)

(** The body of [window.items.forEach]. *)
Definition spawnItem (m : Map) (item : Item) : Map :=
  let req := (itemType item, spriteOptions item) in
  let '(obj, d) := newResourceFromPool (rmCalls m) req in
  let m1 := set_collaborators m (<[obj := d]> (drawables m)) (mapEvent m) (rmCalls m ++ [req]) in
  let m2 := addObject m1 obj 0 in
  match itemId item with
  | Some id =>
      if bool_decide (id <> "")
      then set_collaborators m2 (drawables m2) (mapEvent m2 ++ [AddItem id obj]) (rmCalls m2)
      else m2
  | None => m2
  end.

Definition addNewObjectsFromWindow (m : Map) (windowNum : Z) : Map :=
  match windows m !! windowNum with
  | Some window =>
      if negb (displayed window) then
        foldl spawnItem
              (set_windows m (<[windowNum := mkWindow true (items window)]> (windows m)))
              (items window)
      else m
  | None => m
  end.

(** The loop of [checkVisibleWindows]:
    [for (let i = startIndex; i <= max; i += this.maxWinX)]. *)
Fixpoint windowsLoop (fuel : nat) (max : Z) (mod_ : bool) (i : Z) (m : Map) : option Map :=
  match fuel with
  | O => None
  | S fuel' =>
      if i <=? max then
        let m1 := addNewObjectsFromWindow m i in
        let m2 := if mod_ then addNewObjectsFromWindow m1 (i + 1) else m1 in
        windowsLoop fuel' max mod_ (i + maxWinX m2) m2
      else Some m
  end.

(** [((Math.abs(viewportY) / viewportH) * maxWinX) | 0], in the
    arithmetic of doubles: the quotient is rounded before it is multiplied,
    the product is rounded, and [| 0] takes the integer part. *)
Definition startIndex (m : Map) : Z :=
  toInt32 (truncDouble
             (fmul (fdiv (toDouble (Z.abs (viewportY (view m))))
                         (toDouble (viewportH (view m))))
                   (toDouble (maxWinX m)))).

Definition checkVisibleWindows (fuel : nat) (m : Map) : option Map :=
  let v := view m in
  let max := if remTruthy (viewportY v) (viewportH v) then startIndex m + maxWinX m
             else startIndex m in
  let mod_ := remTruthy (viewportX v) (viewportW v) in
  windowsLoop fuel max mod_ (startIndex m) m.

(** *** [reset] *)

Definition reset (m : Map) : Map :=
  let v := view m in
  let o := options m in
  mkMap o (width m) (height m) (grid m)
    (mkView (orElse (o_viewportX o) 0) (orElse (o_viewportY o) 0)
            (orElse (o_viewportW o) 0) (orElse (o_viewportH o) 0)
            (xMax v) (yMax v)
            (viewportLimitX v) (viewportCenterX v) (viewportLimitY v) (viewportCenterY v))
    (scroll m) (maxWinX m)
    ((fun t => mkTrigger false (trigData t)) <$> triggers m)
    ((fun w => mkWindow false (items w)) <$> windows m)
    [] [] [] [] None
    (orElse (o_startX o) 0) (orElse (o_startY o) 0)
    true (drawables m) (mapEvent m ++ [ResetEvents]) (rmCalls m)
    (numViewportCols m) (numViewportRows m).

(** *** [update] *)

(** [update(timestamp)]; [now] is the clock read by [moveTo].  The calls
    to [movePlatforms] and [moveObjects] run the drawables' own [update]
    methods, which are not part of the map and are left out. *)
Definition update (now timestamp : Z) (m : Map) : Map :=
  let s := scroll m in
  let v := view m in
  if moving s then
    let ellapsedTime := timestamp - startMoveTime s in
    let withView x y :=
      mkView x y (viewportW v) (viewportH v) (xMax v) (yMax v)
             (viewportLimitX v) (viewportCenterX v) (viewportLimitY v) (viewportCenterY v) in
    if ellapsedTime >=? duration s then
      set_isDirty
        (set_view
           (set_scroll m (mkScroll false (viewportTargetX s) (viewportTargetY s)
                            (viewportSpeedX s) (viewportSpeedY s)
                            (viewportStartX s) (viewportStartY s)
                            (startMoveTime s) (duration s)))
           (withView (viewportTargetX s) (viewportTargetY s)))
        true
    else
      set_isDirty
        (set_view m
           (withView
              (easedPosition ellapsedTime (duration s) (viewportStartX s) (viewportSpeedX s))
              (easedPosition ellapsedTime (duration s) (viewportStartY s) (viewportSpeedY s))))
        true
  else
    match masterObject m with
    | Some _ => checkForTriggers (checkMasterPosition now m)
    | None => m
    end.

End Collaborators.

(** *** Scenario data *)

(** A 4x4 grid of 10x10 tiles whose behavior plane is [beh]. *)
Definition grid4 (beh : list Z) : TileGrid :=
  mkGrid 10 10 4 4 (replicate 16 0) beh.

(** Behavior plane with code [w] at cell (col 2, row 1) and [a] elsewhere. *)
Definition wallAt21 (a w : Z) : list Z :=
  [a; a; a; a;  a; a; w; a;  a; a; a; a;  a; a; a; a].

(** An entity at (0, 10) moving right by 25 pixels, with a hit box of
    height 10 spanning [hx .. hx2] horizontally. *)
Definition scenarioSprite (hx hx2 : Z) : Drawable :=
  mkDrawable 0 10 25 0 (mkBox hx 0 hx2 10) None false 0.

(** Where [setNextX] leaves that entity, by the right edge of its box. *)
Definition scenarioX (hx2 : Z) : Z :=
  if hx2 <=? 8 then 10 else if hx2 <=? 18 then 19 - hx2 else 0.

(** The cell test of the loops of [hitObjectTest]: the byte read at the
    index computed for column [i] of row [j] is [t]. *)
Definition carries (g : TileGrid) (t i j : Z) : Prop :=
  readU8 (tileBehaviors g) (j * numCols g + i) = Some t.

(** ** The specification's reading of [hitObjectTest] *)

(** The pixel square of cell [p] meets the rectangle (x,y)-(x2,y2), and
    [p] is a cell of the grid. *)
Definition cellMeets (g : TileGrid) (x y x2 y2 : Z) (p : TilePos) : Prop :=
  (0 <= px p < numCols g /\ 0 <= py p < numRows g) /\
  (px p * tileWidth g <= x2 /\ x < (px p + 1) * tileWidth g) /\
  (py p * tileHeight g <= y2 /\ y < (py p + 1) * tileHeight g).

Definition cellMeetsb (g : TileGrid) (x y x2 y2 : Z) (p : TilePos) : bool :=
  ((0 <=? px p) && (px p <? numCols g) && (0 <=? py p) && (py p <? numRows g)) &&
  ((px p * tileWidth g <=? x2) && (x <? (px p + 1) * tileWidth g)) &&
  ((py p * tileHeight g <=? y2) && (y <? (py p + 1) * tileHeight g)).

(** The cells of the grid, top row first and left to right in a row. *)
Definition cellsRowMajor (g : TileGrid) : list TilePos :=
  r ← seqZ 0 (numRows g); c ← seqZ 0 (numCols g); [mkPos c r].

(** The first cell, rows before columns, that meets the rectangle and
    carries [types]: what the specification says [hitObjectTest] returns. *)
Definition hitObjectTest_rowMajor (g : TileGrid) (x y x2 y2 types : Z) : option TilePos :=
  List.find (fun p => cellMeetsb g x y x2 y2 p &&
                      strictEq (getTileBehaviorAtIndex g (px p) (py p)) types)
            (cellsRowMajor g).

(** ** Scenario maps *)

Definition noOptions : Options :=
  mkOptions None None None None None None None None ∅ ∅ [] None None.

(** An idle map over grid [g] with viewport [v], triggers [ts] and windows
    [ws], holding no object yet, with the numbers of tiles per viewport
    that the constructor computes (for tiles of a size other than 0). *)
Definition plainMap (g : TileGrid) (v : Viewport) (ts : gmap Z Trigger)
    (ws : gmap Z Window) : Map :=
  let w := numCols g * tileWidth g in
  let h := numRows g * tileHeight g in
  mkMap noOptions w h g v (mkScroll false 0 0 0 0 0 0 0 800) (idiv w (viewportW v))
        ts ws [] [] [] [] None 0 0 true ∅ [] []
        (ceilQuot (viewportW v) (tileWidth g)) (ceilQuot (viewportH v) (tileHeight g)).

(** A viewport of [w] by [h] pixels at (x, y) over a world of [ww] by [wh]
    pixels, with the dead zone set by the constructor. *)
Definition viewportAt (x y w h ww wh : Z) : Viewport :=
  mkView x y w h (ww - w) (wh - h) 230 307 154 230.

(** The in-flight position for the linear easing function
    ([easing(t) = t]), computed exactly:
    [start + (ellapsedTime / duration) * speed | 0]. *)
Definition linearPosition (ellapsedTime duration start speed : Z) : Z :=
  toInt32 (Z.quot (start * duration + ellapsedTime * speed) duration).

(** ** The clamped region of the viewport *)

(** [v] clamped into [lo, hi]: raised to [lo], then lowered to [hi]. *)
Definition clampTo (lo hi v : Z) : Z := Z.min hi (Z.max lo v).

Definition inRegion (v : Viewport) (x y : Z) : Prop :=
  (- xMax v <= x <= 0) /\ (- yMax v <= y <= 0).

Definition viewportClamped (m : Map) : Prop :=
  inRegion (view m) (viewportX (view m)) (viewportY (view m)).

(** While a scroll is in flight, its target is in the region. *)
Definition targetClamped (m : Map) : Prop :=
  moving (scroll m) = true ->
  inRegion (view m) (viewportTargetX (scroll m)) (viewportTargetY (scroll m)).




(** A world of 40 by 40 pixels (4x4 tiles of 10x10) seen through a
    viewport of 20 by 20 pixels at the origin: [xMax = yMax = 20]. *)
Definition scrollDemo : Map :=
  plainMap (grid4 (replicate 16 0)) (viewportAt 0 0 20 20 40 40) ∅ ∅.

(** An event handler that always answers [b]. *)
Definition constHandler (b : bool) : list MapEventCall -> Trigger -> bool :=
  fun _ _ => b.

(** Options that leave every size to its default (a world of 1024 by 1024
    pixels, tiles of 64 by 32, the viewport as large as the world) and ask
    for the viewport at [viewportX = 5]. *)
Definition offsetOptions : Options :=
  mkOptions None None None None (Some 5) None None None ∅ ∅ (replicate 1024 0) None None.

(** The 4x4 map with a trigger on tile 5 (col 1, row 1) and a master
    object at (10, 10) whose hit box covers that tile only. *)
Definition triggerDemo : Map :=
  set_registry
    (plainMap (grid4 (replicate 16 0)) (viewportAt 0 0 40 40 40 40)
              {[ 5 := mkTrigger false "door" ]} ∅)
    [0%nat] [] [] [] (Some 0%nat)
    {[ 0%nat := mkDrawable 10 10 0 0 (mkBox 0 0 5 5) None true 0 ]}.

(** The demo map knowing one drawable, reference 7, of collision group
    [grp], not yet added to the map. *)
Definition registryDemo (grp : Z) : Map :=
  set_collaborators scrollDemo
    {[ 7%nat := mkDrawable 0 0 0 0 (mkBox 0 0 9 9) (Some grp) false 0 ]} [] [].

(** ** Windows: what a call goes through and asks for *)

(** The window indices [checkVisibleWindows] passes to
    [addNewObjectsFromWindow], in order, when [maxWinX] is positive: one or
    two passes of the loop, each with one or two windows. *)
Definition windowsGoneThrough (m : Map) : list Z :=
  let v := view m in
  let mod_ := remTruthy (viewportX v) (viewportW v) in
  let pass i := i :: (if mod_ then [i + 1] else []) in
  pass (startIndex m)
  ++ (if remTruthy (viewportY v) (viewportH v) then pass (startIndex m + maxWinX m) else []).

(** Window [k] exists and its [displayed] flag is [false]. *)
Definition notYetDisplayed (m : Map) (k : Z) : Prop :=
  exists w, windows m !! k = Some w /\ displayed w = false.

(** One request to the resource manager per item of window [k]. *)
Definition windowRequests (m : Map) (k : Z) : list Request :=
  match windows m !! k with
  | Some w => (fun it => (itemType it, spriteOptions it)) <$> items w
  | None => []
  end.

(** [n] calls to [checkVisibleWindows] in a row. *)
Fixpoint checkVisibleWindowsTimes
    (newResourceFromPool : list Request -> Request -> ObjRef * Drawable)
    (fuel n : nat) (m : Map) : option Map :=
  match n with
  | O => Some m
  | S n' =>
      match checkVisibleWindows newResourceFromPool fuel m with
      | Some m' => checkVisibleWindowsTimes newResourceFromPool fuel n' m'
      | None => None
      end
  end.

(** A resource manager handing out a new reference for each request: the
    number of requests served so far. *)
Definition countingPool : list Request -> Request -> ObjRef * Drawable :=
  fun served _ => (length served, mkDrawable 0 0 0 0 (mkBox 0 0 9 9) (Some 1) false 0).

(** A world of 300 by 100 pixels (30x10 tiles of 10x10) seen through a
    viewport of 100 by 100 pixels at [viewportX = x]: three windows side by
    side, the first two holding one and two items. *)
Definition windowDemo (x : Z) : Map :=
  plainMap (mkGrid 10 10 30 10 (replicate 300 0) (replicate 300 0))
           (viewportAt x 0 100 100 300 100) ∅
           {[ 0 := mkWindow false [mkItem "player" [] (Some "hero")];
              1 := mkWindow false [mkItem "enemy" [] None; mkItem "bonus" [] None] ]}.

(** A world of 300 by 200 pixels seen through a viewport of 100 by 100
    pixels at (x, y): two rows of three windows, each holding one item. *)
Definition windowRowsDemo (x y : Z) : Map :=
  plainMap (mkGrid 10 10 30 20 (replicate 600 0) (replicate 600 0))
           (viewportAt x y 100 100 300 200) ∅
           {[ 0 := mkWindow false [mkItem "player" [] (Some "hero")];
              1 := mkWindow false [mkItem "enemy" [] None];
              2 := mkWindow false [mkItem "bonus" [] None];
              3 := mkWindow false [mkItem "door" [] (Some "exit")];
              4 := mkWindow false [mkItem "enemy" [] None];
              5 := mkWindow false [mkItem "chest" [] None] ]}.

(** A world of 5000 by 600 pixels seen through a viewport of 200 by 200
    pixels, 232 pixels down: [maxWinX = 25], and the viewport lies across
    the window rows 1 and 2. *)
Definition windowBandDemo : Map :=
  plainMap (mkGrid 200 200 25 3 [] []) (viewportAt 0 (-232) 200 200 5000 600) ∅ ∅.

(** The window that holds the world pixel (x, y): the windows are cells
    of the size of the viewport, [maxWinX] to a row, and
    [windowIndex = row * maxWinX + col]. *)
Definition windowAt (m : Map) (x y : Z) : Z :=
  (y / viewportH (view m)) * maxWinX m + x / viewportW (view m).

(** [m'] has the windows, the viewport, [maxWinX] and the options of [m]:
    what spawning an object leaves alone. *)
Definition sameWindowing (m m' : Map) : Prop :=
  windows m' = windows m /\ view m' = view m /\ maxWinX m' = maxWinX m /\
  options m' = options m.

(** * More of the map *)

(** ** Tiles and pixels *)

(** [getTilePixelPos(col, row)]: the object
    [{y: row * tileHeight, x: col * tileWidth}]. *)
Definition getTilePixelPos (g : TileGrid) (col row : Z) : TilePos :=
  mkPos (col * tileWidth g) (row * tileHeight g).

(** [getTileAt(x, y)]: [this.tiles[tileNum]], [undefined] ([None]) when the
    pixel falls outside the visual plane or the tile number outside the
    tile set.  The tile objects are those of [Tile.js]: any type [T]. *)
Definition getTileAt {T : Type} (tiles : list T) (g : TileGrid) (x y : Z) : option T :=
  let i := idiv x (tileWidth g) in
  let j := idiv y (tileHeight g) in
  readU8 (map g) (numCols g * j + i) ≫= fun tileNum => tiles !! Z.to_nat tileNum.

(** ** Filling and copying the planes *)

(** The body of the loops of [clear], for column [i] and row [j]. *)
Definition clearCell (tileNum behavior : Z) (i : Z) (g : TileGrid) (j : Z) : TileGrid :=
  mkGrid (tileWidth g) (tileHeight g) (numCols g) (numRows g)
         (writeU8 (map g) (j * numCols g + i) tileNum)
         (writeU8 (tileBehaviors g) (j * numCols g + i) behavior).

(** [clear(tileNum, behavior)]: columns in the outer loop, rows in the
    inner one; [isDirty] is not touched. *)
Definition clear (m : Map) (tileNum behavior : Z) : Map :=
  set_grid m
    (foldl (fun g i => foldl (clearCell tileNum behavior i) g (seqZ 0 (numRows g)))
           (grid m) (seqZ 0 (numCols (grid m))))
    (isDirty m).

(** [new Uint8Array(source)] for an array of numbers: each is stored
    modulo 256. *)
Definition toBytes (src : list Z) : list Z := (fun v => v mod 256) <$> src.

(** [target.set(src, offset)] on typed arrays, for an offset that is not
    negative: [None] when the source does not fit (a [RangeError]). *)
Definition arraySet (target : list Z) (offset : nat) (src : list Z) : option (list Z) :=
  if (offset + length src <=? length target)%nat
  then Some (take offset target ++ src ++ drop (offset + length src) target)
  else None.

(** [setData(map, behaviors)]: a new buffer of [2 * numCols * numRows]
    zero bytes receives [map] at 0 and [behaviors] at [numCols * numRows];
    the two planes are its two halves.  [None] when a typed-array
    operation throws a [RangeError]. *)
Definition setData (m : Map) (mapSrc behSrc : list Z) : option Map :=
  let g := grid m in
  let size := numCols g * numRows g in
  if size <? 0 then None
  else
    let n := Z.to_nat size in
    a1 ← arraySet (replicate (2 * n) 0) 0 (toBytes mapSrc);
    a2 ← arraySet a1 n (toBytes behSrc);
    Some (set_grid m
            (mkGrid (tileWidth g) (tileHeight g) (numCols g) (numRows g)
                    (take n a2) (take n (drop n a2)))
            (isDirty m)).

(** [shift(startLine, height, tile)].  The two planes are views of one
    buffer, [this.map] at its start: the buffer is [map ++ tileBehaviors].
    [tiles] is the view of its first [startLine * numCols] bytes and
    [behaviors] the view of as many bytes from [numCols * numRows];
    both are copied [height * numCols] bytes further into their plane.
    The argument [tile] is not used by the source.  [None] when a
    typed-array operation throws a [RangeError] (the planes the exception
    leaves behind are not kept). *)
Definition shift (m : Map) (startLine height tile : Z) : option Map :=
  let g := grid m in
  let buffer := map g ++ tileBehaviors g in
  let len := Z.of_nat (length buffer) in
  let n := startLine * numCols g in
  let off2 := numCols g * numRows g in
  let offset := height * numCols g in
  if (n <? 0) || (len <? n) then None
  else if (off2 <? 0) || (len <? off2 + n) then None
  else if offset <? 0 then None
  else
    map' ← arraySet (map g) (Z.to_nat offset) (take (Z.to_nat n) buffer);
    beh' ← arraySet (tileBehaviors g) (Z.to_nat offset)
                    (take (Z.to_nat n) (drop (Z.to_nat off2) (map' ++ tileBehaviors g)));
    Some (set_grid m
            (mkGrid (tileWidth g) (tileHeight g) (numCols g) (numRows g) map' beh')
            true).

(** ** The master's start position *)

Definition set_start (m : Map) (sx sy : Z) : Map :=
  mkMap (options m) (width m) (height m) (grid m) (view m) (scroll m) (maxWinX m) (triggers m)
    (windows m) (objects m) (friendBullets m) (enemies m) (platforms m) (masterObject m)
    sx sy (isDirty m) (drawables m) (mapEvent m) (rmCalls m)
    (numViewportCols m) (numViewportRows m).

(** [setStartXYFromMaster()]: [None] when there is no master object (a
    [TypeError]). *)
Definition setStartXYFromMaster (m : Map) : option Map :=
  match masterObject m ≫= (fun r => drawables m !! r) with
  | Some mo => Some (set_start m (obj_x mo) (obj_y mo))
  | None => None
  end.

(** [respawn()]; [resetSprite] is the master's own [reset()].  [None] when
    there is no master object (a [TypeError]). *)
Definition respawn (resetSprite : Drawable -> Drawable) (m : Map) : option Map :=
  match masterObject m with
  | Some r =>
      match drawables m !! r with
      | Some mo =>
          Some (set_isDirty
                  (set_collaborators m
                     (<[r := set_obj_xy (resetSprite mo) (startX m) (startY m)]> (drawables m))
                     (mapEvent m) (rmCalls m))
                  true)
      | None => None
      end
  | None => None
  end.

(** ** The tiles to draw *)

(** [Math.floor(a / b)]: [None] when the quotient is not a finite number
    ([b = 0]). *)
Definition floorDiv (a b : Z) : option Z := if b =? 0 then None else Some (a / b).

(** [firstCol], [firstRow], [lastCol], [lastRow] *)
Record ViewBounds := mkBounds {
  firstCol : Z;
  firstRow : Z;
  lastCol : Z;
  lastRow : Z;
}.

(** [_getBoundariesTiles(showHidden)].  [numViewportCols] and
    [numViewportRows] are the numbers stored by [_calcNumTiles()] when the
    map was constructed: [setViewPort] and [reset] change the size of the
    viewport without computing them again. *)
Definition _getBoundariesTiles (showHidden : bool) (m : Map) : option ViewBounds :=
  let g := grid m in
  let v := view m in
  if showHidden then
    Some (mkBounds 0 0 (idiv (width m) (tileWidth g)) (idiv (height m) (tileHeight g)))
  else
    fc ← floorDiv (- viewportX v) (tileWidth g);
    fr ← floorDiv (- viewportY v) (tileHeight g);
    Some (mkBounds fc fr
            (fc + numViewportCols m + (if remTruthy (viewportX v) (tileWidth g) then 1 else 0))
            (fr + numViewportRows m + (if remTruthy (viewportY v) (tileHeight g) then 1 else 0))).

(** One axis of [_getTileOffset]: [tileOffsetX] for the scroll position
    [vp] and the tile size [tw]; [None] when it is NaN. *)
Definition tileOffset (vp tw : Z) : option Z :=
  if Z.abs vp <? tw then Some (Z.abs vp)
  else if tw =? 0 then None
  else Some (Z.rem (Z.abs vp) tw).

(** [_getTileOffset()]: [tileOffsetX], [tileOffsetY], [scrollTileWidth],
    [scrollTileHeight]. *)
Definition _getTileOffset (m : Map) : option (Z * Z * Z * Z) :=
  ox ← tileOffset (viewportX (view m)) (tileWidth (grid m));
  oy ← tileOffset (viewportY (view m)) (tileHeight (grid m));
  Some (ox, oy, tileWidth (grid m) - ox, tileHeight (grid m) - oy).


(** A map whose master object, added on layer 2, has walked to (30, 12). *)
Definition masterDemo : Map :=
  let m := addObject
             (set_collaborators scrollDemo
                {[ 1%nat := mkDrawable 0 0 0 0 (mkBox 0 0 9 9) None true 0 ]} [] [])
             1%nat 2 in
  set_collaborators m (alter (fun d => set_obj_xy d 30 12) 1%nat (drawables m))
    (mapEvent m) (rmCalls m).

(** ** The distance to the next tile of a behavior *)

(** The rows [startY .. endY] that [getMaxDistanceToTile] scans in a
    column, [endY] being [startY + Math.floor((box.y2 - box.y) /
    tileHeight)].  With [tileHeight = 0] the quotient is not a number of
    rows: the scan visits no row when it is [NaN] or [-Infinity], and does
    not end when it is [Infinity]. *)
Inductive RowSpan :=
  | Rows (startY endY : Z)
  | NoRow
  | EndlessRows.

Definition boxRows (g : TileGrid) (box : HitBox) (startY : Z) : RowSpan :=
  let dy := hy2 box - hy box in
  if tileHeight g =? 0 then (if 0 <? dy then EndlessRows else NoRow)
  else Rows startY (startY + dy / tileHeight g).

(** [for (j = startY; j <= endY; ++j) hit = hit || (...)], entered with
    [hit] false. *)
Definition scanRows (g : TileGrid) (tx startY endY behavior : Z) : bool :=
  existsb (fun j => strictEq (getTileBehaviorAtIndex g tx j) behavior)
          (seqZ startY (endY - startY + 1)).

(** The [while] loop of [getMaxDistanceToTile] and the [return] that
    follows it; [tx] is [tilePos.x]. *)
Fixpoint distanceLoop (fuel : nat) (g : TileGrid) (box : HitBox) (distance behavior : Z)
    (isLeft : bool) (step : Z) (rows : RowSpan) (max tx : Z) : option Z :=
  match fuel with
  | O => None
  | S fuel' =>
      if Z.abs max <? Z.abs distance then
        match rows with
        | EndlessRows => None
        | NoRow | Rows _ _ =>
            let hit := match rows with
                       | Rows startY endY => scanRows g tx startY endY behavior
                       | _ => false
                       end in
            if hit then Some (if Z.abs max >? 1 then max - step else 0)
            else
              let max' := max + step in
              let tilePos :=
                getTileIndexFromPixel g (if isLeft then hx box + max' else hx2 box + max')
                                      (hy box) in
              distanceLoop fuel' g box distance behavior isLeft step rows max' (px tilePos)
        end
      else Some distance
  end.

(** [getMaxDistanceToTile(sprite, distance, behavior)], [box] being the
    box [sprite.getHitBox2()] returns; [None] when the loops do not finish
    within [fuel]. *)
Definition getMaxDistanceToTile (fuel : nat) (g : TileGrid) (box : HitBox)
    (distance behavior : Z) : option Z :=
  let isLeft := distance <? 0 in
  let step := if isLeft then - tileWidth g else tileWidth g in
  let max := if isLeft then -1 else 1 in
  let tilePos :=
    getTileIndexFromPixel g (if isLeft then hx box + max else hx2 box + max) (hy box) in
  distanceLoop fuel g box distance behavior isLeft step (boxRows g box (py tilePos))
               max (px tilePos).

(** ** Items registered with the map's events *)

(** [item.itemId] when it is truthy: set, and not the empty string. *)
Definition truthyId (item : Item) : option string :=
  match itemId item with
  | Some id => if bool_decide (id <> "") then Some id else None
  | None => None
  end.

(** The calls [mapEvent.addItem(item.itemId, obj)] for items given with
    the objects made for them. *)
Definition itemEvents (spawned : list (Item * ObjRef)) : list MapEventCall :=
  omap (fun '(item, obj) => (fun id => AddItem id obj) <$> truthyId item) spawned.

(** Options asking for a viewport of 2000 pixels on the default map of
    1024 by 1024. *)
Definition wideOptions : Options :=
  mkOptions None None None None None None (Some 2000) None ∅ ∅ (replicate 1024 0) None None.

(** * Properties *)

(** ** Facts about the number model *)

Lemma toInt32_small z : - 2 ^ 31 <= z < 2 ^ 31 -> toInt32 z = z.
Proof.
  intros Hz. unfold toInt32.
  rewrite Z.mod_small by lia. lia.
Qed.

Lemma toInt32_range z : - 2 ^ 31 <= toInt32 z < 2 ^ 31.
Proof.
  unfold toInt32.
  pose proof (Z.mod_pos_bound (z + 2 ^ 31) (2 ^ 32) ltac:(lia)). lia.
Qed.

(** On non-negative pixels the truncated quotient is the floor. *)
Lemma idiv_nonneg a b : 0 <= a < 2 ^ 31 -> 0 < b -> idiv a b = a / b.
Proof.
  intros Ha Hb. unfold idiv.
  rewrite Z.quot_div_nonneg by lia.
  apply toInt32_small.
  pose proof (Z.div_pos a b ltac:(lia) Hb).
  pose proof (Z.div_le_upper_bound a b (2 ^ 31 - 1) Hb ltac:(nia)). lia.
Qed.

(** Tile [i] covers the pixels [i * b .. (i + 1) * b - 1]. *)
Lemma tile_le_pixel a b i : 0 < b -> (i <= a / b <-> i * b <= a).
Proof.
  intros Hb. split; intros H.
  - pose proof (Z.mul_div_le a b Hb). nia.
  - apply Z.div_le_lower_bound; lia.
Qed.

Lemma pixel_lt_tile a b i : 0 < b -> (a / b <= i <-> a < (i + 1) * b).
Proof.
  intros Hb. split; intros H.
  - pose proof (Z.mul_succ_div_gt a b Hb). nia.
  - assert (a / b < i + 1); [|lia].
    apply Z.div_lt_upper_bound; lia.
Qed.

(** ** Doubles that hold integers *)

Lemma digits2_pos_size p : digits2_pos p = Pos.size p.
Proof. induction p as [p IH|p IH|]; simpl; by rewrite ?IH. Qed.

Lemma digits_log2 p : Z.pos (digits2_pos p) = Z.log2 (Z.pos p) + 1.
Proof.
  rewrite digits2_pos_size. destruct p as [p|p|]; simpl; lia.
Qed.

Lemma digits_shift p k M :
  0 <= k -> Z.pos M = Z.pos p * 2 ^ k ->
  Z.pos (digits2_pos M) = Z.pos (digits2_pos p) + k.
Proof.
  intros Hk HM. rewrite !digits_log2, HM, Z.log2_mul_pow2 by lia. lia.
Qed.

Lemma digits_bound p : Z.pos p < 2 ^ 53 -> Z.pos (digits2_pos p) <= 53.
Proof.
  intros Hp. rewrite digits_log2.
  assert (Z.log2 (Z.pos p) < 53) by (apply Z.log2_lt_pow2; lia). lia.
Qed.

Lemma digits_mul p q :
  Z.pos (digits2_pos p) + Z.pos (digits2_pos q) - 1 <= Z.pos (digits2_pos (p * q))
  <= Z.pos (digits2_pos p) + Z.pos (digits2_pos q).
Proof.
  rewrite !digits_log2, Pos2Z.inj_mul.
  pose proof (Z.log2_mul_below (Z.pos p) (Z.pos q) ltac:(lia) ltac:(lia)).
  pose proof (Z.log2_mul_above (Z.pos p) (Z.pos q) ltac:(lia) ltac:(lia)).
  lia.
Qed.

Lemma shr_1_double m :
  0 <= m -> shr_1 (Build_shr_record (2 * m) false false) = Build_shr_record m false false.
Proof. intros Hm. by destruct m. Qed.

Lemma iter_shr_exact n m :
  0 <= m ->
  SpecFloat.iter_pos shr_1 n (Build_shr_record (m * 2 ^ Z.pos n) false false)
  = Build_shr_record m false false.
Proof.
  revert m. induction n as [n IH|n IH|]; intros m Hm; cbn [SpecFloat.iter_pos].
  - replace (m * 2 ^ Z.pos n~1) with (2 * ((m * 2 ^ Z.pos n) * 2 ^ Z.pos n)).
    + rewrite shr_1_double, IH, IH; [done|lia|lia|lia].
    + replace (Z.pos n~1) with (Z.pos n + Z.pos n + 1) by lia.
      rewrite !Z.pow_add_r, Z.pow_1_r by lia. lia.
  - replace (m * 2 ^ Z.pos n~0) with ((m * 2 ^ Z.pos n) * 2 ^ Z.pos n).
    + rewrite IH, IH; [done|lia|lia].
    + replace (Z.pos n~0) with (Z.pos n + Z.pos n) by lia.
      rewrite Z.pow_add_r by lia. lia.
  - replace (m * 2 ^ 1) with (2 * m) by lia. by apply shr_1_double.
Qed.

(** Shifting a mantissa that holds [p] exactly down to 53 bits loses
    nothing. *)
Lemma shr_fexp_exact p M E :
  let d := Z.pos (digits2_pos p) in
  d <= 53 -> 53 - d <= - E ->
  Z.pos M = Z.pos p * 2 ^ (- E) ->
  shr_fexp 53 1024 (Z.pos M) E loc_Exact
  = (Build_shr_record (Z.pos (Z.to_pos (Z.pos p * 2 ^ (53 - d)))) false false, d - 53).
Proof.
  intros d Hd HE HM.
  assert (HdM : Z.pos (digits2_pos M) = d - E).
  { rewrite (digits_shift p (- E) M) by lia. fold d. lia. }
  assert (Hpos : 0 < Z.pos p * 2 ^ (53 - d)) by (apply Z.mul_pos_pos; [lia|apply Z.pow_pos_nonneg; lia]).
  unfold shr_fexp, shr, fexp, emin. cbn [Zdigits2 shr_record_of_loc]. rewrite HdM.
  replace (Z.max (d - E + E - 53) (3 - 1024 - 53) - E) with (d - 53 - E) by lia.
  rewrite Z2Pos.id by lia.
  destruct (d - 53 - E) as [|n|n] eqn:Hn.
  - f_equal; [|lia]. f_equal. rewrite HM. f_equal. f_equal. lia.
  - f_equal; [|lia].
    replace (Z.pos M) with ((Z.pos p * 2 ^ (53 - d)) * 2 ^ Z.pos n).
    + apply iter_shr_exact. lia.
    + rewrite HM, <- Z.mul_assoc, <- Z.pow_add_r by lia. do 2 f_equal. lia.
  - lia.
Qed.

Lemma round_exact p M E :
  let d := Z.pos (digits2_pos p) in
  d <= 53 -> 53 - d <= - E ->
  Z.pos M = Z.pos p * 2 ^ (- E) ->
  binary_round_aux 53 1024 false (Z.pos M) E loc_Exact = exactDouble p.
Proof.
  intros d Hd HE HM. unfold binary_round_aux.
  rewrite (shr_fexp_exact p M E) by done. fold d.
  cbn [shr_m loc_of_shr_record round_nearest_even].
  assert (Hpos : 0 < Z.pos p * 2 ^ (53 - d)) by (apply Z.mul_pos_pos; [lia|apply Z.pow_pos_nonneg; lia]).
  rewrite (shr_fexp_exact p (Z.to_pos (Z.pos p * 2 ^ (53 - d))) (d - 53)).
  - fold d. cbn [shr_m].
    destruct (Z.leb_spec (d - 53) (1024 - 53)); [done|lia].
  - done.
  - fold d. lia.
  - fold d. rewrite Z2Pos.id by lia. do 2 f_equal. lia.
Qed.

Lemma pos_iter_xO p k : Z.pos (Pos.iter xO p k) = Z.pos p * 2 ^ Z.pos k.
Proof.
  induction k as [|k IH] using Pos.peano_ind.
  - simpl. lia.
  - rewrite Pos.iter_succ, Pos2Z.inj_xO, IH, Pos2Z.inj_succ, Z.pow_succ_r by lia. lia.
Qed.

(** An integer below [2 ^ 53] is a double. *)
Lemma toDouble_exact p : Z.pos p < 2 ^ 53 -> toDouble (Z.pos p) = exactDouble p.
Proof.
  intros Hp. pose proof (digits_bound p Hp) as Hd.
  unfold toDouble, binary_normalize, binary_round, shl_align, fexp, emin.
  set (d := Z.pos (digits2_pos p)) in *.
  replace (Z.max (d + 0 - 53) (3 - 1024 - 53) - 0) with (d - 53) by lia.
  replace (Z.max (d + 0 - 53) (3 - 1024 - 53)) with (d - 53) by lia.
  destruct (d - 53) as [|n|n] eqn:Hn.
  - apply round_exact; fold d; [lia|lia|]. simpl. lia.
  - lia.
  - apply round_exact; fold d; [lia|lia|].
    by rewrite pos_iter_xO.
Qed.

Lemma exactDouble_mantissa p :
  Z.pos p < 2 ^ 53 ->
  let d := Z.pos (digits2_pos p) in
  exists M, exactDouble p = S754_finite false M (d - 53) /\
            Z.pos M = Z.pos p * 2 ^ (53 - d) /\ Z.pos (digits2_pos M) = 53.
Proof.
  intros Hp d. pose proof (digits_bound p Hp) as Hd. fold d in Hd.
  assert (Hpos : 0 < Z.pos p * 2 ^ (53 - d)) by (apply Z.mul_pos_pos; [lia|apply Z.pow_pos_nonneg; lia]).
  exists (Z.to_pos (Z.pos p * 2 ^ (53 - d))). split; [done|].
  rewrite Z2Pos.id by lia. split; [done|].
  rewrite (digits_shift p (53 - d)); [fold d; lia|lia|]. by rewrite Z2Pos.id by lia.
Qed.

(** A quotient that is an integer is computed exactly. *)
Lemma SFdiv_exact r v :
  Z.pos (r * v) < 2 ^ 53 ->
  SFdiv 53 1024 (exactDouble (r * v)) (exactDouble v) = exactDouble r.
Proof.
  intros Ha.
  assert (Hv : Z.pos v < 2 ^ 53) by nia.
  assert (Hr : Z.pos r < 2 ^ 53) by nia.
  destruct (exactDouble_mantissa (r * v) Ha) as (Ma & -> & HMa & HdMa).
  destruct (exactDouble_mantissa v Hv) as (Mv & -> & HMv & HdMv).
  pose proof (digits_bound _ Ha) as Hda. pose proof (digits_bound _ Hv) as Hdv.
  pose proof (digits_bound _ Hr) as Hdr. pose proof (digits_mul r v) as Hmul.
  set (da := Z.pos (digits2_pos (r * v))) in *.
  set (dv := Z.pos (digits2_pos v)) in *.
  set (dr := Z.pos (digits2_pos r)) in *.
  unfold SFdiv, SFdiv_core_binary, fexp, emin. cbn [Zdigits2 xorb]. rewrite HdMa, HdMv.
  replace (Z.min (Z.max (53 + (da - 53) - (53 + (dv - 53)) - 53) (3 - 1024 - 53))
                 (da - 53 - (dv - 53))) with (da - dv - 53) by lia.
  replace (da - 53 - (dv - 53) - (da - dv - 53)) with 53 by lia.
  rewrite Z.shiftl_mul_pow2 by lia.
  assert (Hq : Z.pos Ma * 2 ^ 53 = (Z.pos r * 2 ^ (53 + dv - da)) * Z.pos Mv).
  { rewrite HMa, HMv, Pos2Z.inj_mul.
    replace (Z.pos r * Z.pos v * 2 ^ (53 - da) * 2 ^ 53)
      with (Z.pos r * Z.pos v * (2 ^ (53 - da) * 2 ^ 53)) by lia.
    rewrite <- Z.pow_add_r by lia.
    replace (Z.pos r * 2 ^ (53 + dv - da) * (Z.pos v * 2 ^ (53 - dv)))
      with (Z.pos r * Z.pos v * (2 ^ (53 + dv - da) * 2 ^ (53 - dv))) by lia.
    rewrite <- Z.pow_add_r by lia. do 2 f_equal. lia. }
  assert (Hpos : 0 < Z.pos r * 2 ^ (53 + dv - da))
    by (apply Z.mul_pos_pos; [lia|apply Z.pow_pos_nonneg; lia]).
  pose proof (Z_div_mod (Z.pos Ma * 2 ^ 53) (Z.pos Mv) ltac:(lia)) as Hdm.
  destruct (Z.div_eucl (Z.pos Ma * 2 ^ 53) (Z.pos Mv)) as [q rem].
  destruct Hdm as [Heq Hrem].
  assert (Hq' : q = Z.pos r * 2 ^ (53 + dv - da) /\ rem = 0).
  { rewrite Hq in Heq.
    assert (Hqq : q = Z.pos r * 2 ^ (53 + dv - da)).
    { rewrite (Z.div_unique_pos _ _ q rem Hrem Heq).
      apply Z.div_mul. lia. }
    split; [done|]. rewrite Hqq in Heq. lia. }
  destruct Hq' as [-> ->].
  assert (Hloc : new_location (Z.pos Mv) 0 = loc_Exact).
  { unfold new_location. by destruct (Z.even (Z.pos Mv)). }
  rewrite Hloc.
  destruct (Z.pos r * 2 ^ (53 + dv - da)) as [|Q|Q] eqn:HQ; try lia.
  apply round_exact; fold dr; [lia|lia|].
  rewrite <- HQ. do 2 f_equal. lia.
Qed.

(** A product that is below [2 ^ 53] is computed exactly. *)
Lemma SFmul_exact r w :
  Z.pos (r * w) < 2 ^ 53 ->
  SFmul 53 1024 (exactDouble r) (exactDouble w) = exactDouble (r * w).
Proof.
  intros Hrw.
  assert (Hw : Z.pos w < 2 ^ 53) by nia.
  assert (Hr : Z.pos r < 2 ^ 53) by nia.
  destruct (exactDouble_mantissa r Hr) as (Mr & -> & HMr & HdMr).
  destruct (exactDouble_mantissa w Hw) as (Mw & -> & HMw & HdMw).
  pose proof (digits_bound _ Hrw) as Hdrw. pose proof (digits_bound _ Hw) as Hdw.
  pose proof (digits_bound _ Hr) as Hdr. pose proof (digits_mul r w) as Hmul.
  set (drw := Z.pos (digits2_pos (r * w))) in *.
  set (dw := Z.pos (digits2_pos w)) in *.
  set (dr := Z.pos (digits2_pos r)) in *.
  unfold SFmul. cbn [xorb].
  apply round_exact; fold drw; [lia|lia|].
  rewrite Pos2Z.inj_mul, HMr, HMw, Pos2Z.inj_mul.
  replace (- (dr - 53 + (dw - 53))) with ((53 - dr) + (53 - dw)) by lia.
  rewrite Z.pow_add_r by lia. lia.
Qed.

Lemma truncDouble_exact p : Z.pos p < 2 ^ 53 -> truncDouble (exactDouble p) = Z.pos p.
Proof.
  intros Hp. pose proof (digits_bound p Hp) as Hd.
  unfold exactDouble, truncDouble.
  set (d := Z.pos (digits2_pos p)) in *.
  assert (Hpos : 0 < Z.pos p * 2 ^ (53 - d)) by (apply Z.mul_pos_pos; [lia|apply Z.pow_pos_nonneg; lia]).
  rewrite Z2Pos.id by lia.
  destruct (Z.leb_spec 0 (d - 53)).
  - replace (d - 53) with 0 by lia. replace (53 - d) with 0 by lia. lia.
  - replace (- (d - 53)) with (53 - d) by lia.
    apply Z.div_mul. apply Z.pow_nonzero; lia.
Qed.

(** ** Typed-array facts *)

Lemma readU8_Some a i v : readU8 a i = Some v -> 0 <= i < Z.of_nat (length a).
Proof.
  unfold readU8. destruct (Z.leb_spec 0 i) as [Hi|Hi]; [|done].
  intros Hl%lookup_lt_Some. lia.
Qed.

Lemma readU8_outside a i : ~ (0 <= i < Z.of_nat (length a)) -> readU8 a i = None.
Proof.
  intros H. destruct (readU8 a i) eqn:E; [|done].
  apply readU8_Some in E. contradiction.
Qed.

Lemma strictEq_true o t : strictEq o t = true <-> o = Some t.
Proof.
  destruct o as [v|]; simpl.
  - rewrite Z.eqb_eq. split; congruence.
  - split; discriminate.
Qed.

Lemma strictEq_false o t : strictEq o t = false <-> o <> Some t.
Proof.
  rewrite <- strictEq_true. destruct (strictEq o t); split; congruence.
Qed.

(** ** [setNextX] *)

(** *** More fuel does not change a result *)

Section SweepFuel.

Variable g : TileGrid.

Lemma scanColumn_fuel_mono n n' t ymax tx i ty r :
  (n <= n')%nat ->
  scanColumn g n t ymax tx i ty = Some r ->
  scanColumn g n' t ymax tx i ty = Some r.
Proof.
  revert n' i ty. induction n as [|n IH]; intros n' i ty Hle; [discriminate|].
  destruct n' as [|n']; [lia|]. simpl.
  destruct (i <? ymax); [|done].
  destruct (strictEq _ _); [done|].
  apply IH. lia.
Qed.

Lemma sweepBody_fuel_mono n n' left t ymax y0 st st' :
  (n <= n')%nat ->
  sweepBody g n left t ymax y0 st = Some st' ->
  sweepBody g n' left t ymax y0 st = Some st'.
Proof.
  intros Hle. unfold sweepBody.
  destruct (scanColumn g n _ _ _ _ _) as [r|] eqn:E; [|discriminate].
  by rewrite (scanColumn_fuel_mono _ _ _ _ _ _ _ _ Hle E).
Qed.

Lemma sweepLoop_fuel_mono n n' left t vx ymax y0 st r :
  (n <= n')%nat ->
  sweepLoop g n left t vx ymax y0 st = Some r ->
  sweepLoop g n' left t vx ymax y0 st = Some r.
Proof.
  revert n' st. induction n as [|n IH]; intros n' st Hle; [discriminate|].
  destruct n' as [|n']; [lia|]. simpl.
  destruct (sweepGuard left vx st); [|done].
  destruct (sweepBody g n _ _ _ _ _) as [st'|] eqn:E; [|discriminate].
  rewrite (sweepBody_fuel_mono n n' _ _ _ _ _ _ ltac:(lia) E).
  apply IH. lia.
Qed.

Lemma setNextX_fuel_mono n n' sprite t r :
  (n <= n')%nat ->
  setNextX g n sprite t = Some r ->
  setNextX g n' sprite t = Some r.
Proof.
  intros Hle. unfold setNextX.
  destruct (sweepLoop g n _ _ _ _ _ _) as [st|] eqn:E; [|discriminate].
  by rewrite (sweepLoop_fuel_mono _ _ _ _ _ _ _ _ _ Hle E).
Qed.

End SweepFuel.

(** *** The behavior plane is read only through [=== tileTypes] *)

Section SweepCongruence.

Variables g g' : TileGrid.
Variables t t' : Z.
Hypothesis same_tileWidth : tileWidth g = tileWidth g'.
Hypothesis same_tileHeight : tileHeight g = tileHeight g'.
Hypothesis same_numCols : numCols g = numCols g'.
Hypothesis same_test :
  forall i, strictEq (readU8 (tileBehaviors g) i) t = strictEq (readU8 (tileBehaviors g') i) t'.

Lemma scanColumn_congr n ymax tx i ty :
  scanColumn g n t ymax tx i ty = scanColumn g' n t' ymax tx i ty.
Proof.
  revert i ty. induction n as [|n IH]; intros i ty; [done|]. simpl.
  rewrite same_test, same_numCols, same_tileHeight.
  destruct (i <? ymax); [|done].
  destruct (strictEq _ _); [done|]. apply IH.
Qed.

Lemma sweepBody_congr n left ymax y0 st :
  sweepBody g n left t ymax y0 st = sweepBody g' n left t' ymax y0 st.
Proof.
  unfold sweepBody, getTileIndexFromPixel.
  by rewrite scanColumn_congr, same_tileWidth, same_tileHeight.
Qed.

Lemma sweepLoop_congr n left vx ymax y0 st :
  sweepLoop g n left t vx ymax y0 st = sweepLoop g' n left t' vx ymax y0 st.
Proof.
  revert st. induction n as [|n IH]; intros st; [done|]. simpl.
  rewrite sweepBody_congr.
  destruct (sweepGuard left vx st); [|done].
  destruct (sweepBody g' n _ _ _ _ _); [|done]. apply IH.
Qed.

Lemma setNextX_congr n sprite :
  setNextX g n sprite t = setNextX g' n sprite t'.
Proof.
  unfold setNextX, getTileIndexFromPixel.
  by rewrite sweepLoop_congr, same_tileWidth, same_tileHeight.
Qed.

End SweepCongruence.

Lemma wallAt21_test a w i :
  a <> w ->
  strictEq (readU8 (wallAt21 a w) i) w = strictEq (readU8 (wallAt21 0 1) i) 1.
Proof.
  intros Ha. apply Z.eqb_neq in Ha. unfold readU8.
  destruct (0 <=? i); [|done].
  generalize (Z.to_nat i). intros n.
  do 16 (destruct n as [|n]; [simpl; rewrite ?Ha, ?Z.eqb_refl; reflexivity|]).
  reflexivity.
Qed.

(** What [setNextX] does in the scenario, by the right edge [hx2] of the
    hit box: the distance kept in [minX] is the one from the last tile edge
    probed. *)
Lemma setNextX_scenario_value (a w hx hx2 : Z) (fuel : nat) :
  a <> w -> -1 <= hx2 <= 28 -> (4 <= fuel)%nat ->
  setNextX (grid4 (wallAt21 a w)) fuel (scenarioSprite hx hx2) w
  = Some (true, set_obj_x (scenarioSprite hx hx2) (scenarioX hx2)).
Proof.
  intros Ha Hr Hf.
  apply (setNextX_fuel_mono _ 4 fuel); [lia|].
  rewrite (setNextX_congr _ (grid4 (wallAt21 0 1)) w 1);
    [|done|done|done|intros i; by apply wallAt21_test].
  assert (Hn : exists n : nat, (n < 30)%nat /\ hx2 = Z.of_nat n - 1).
  { exists (Z.to_nat (hx2 + 1)). lia. }
  destruct Hn as (n & Hn & ->).
  do 30 (destruct n as [|n]; [vm_compute; reflexivity|]).
  lia.
Qed.

(** C1 (amended).  On the 4x4 grid of 10x10 tiles with the wall code at
    cell (col 2, row 1), an entity at (0,10) with [vx = 25] and a hit box of
    height 10 whose right edge [hx2] is between -1 and 18 is reported as
    colliding and is left with its box to the left of the wall: the pixel
    after the box, [x + hx2 + 1], is at most 20, the first pixel of the
    wall, and it is 20 (the box is flush against the wall) when the right
    edge of the box starts in the tile next to the wall. *)
Theorem setNextX_scenario_stops_at_wall (a w hx hx2 : Z) (fuel : nat) :
  a <> w -> -1 <= hx2 <= 18 -> (4 <= fuel)%nat ->
  exists x',
    setNextX (grid4 (wallAt21 a w)) fuel (scenarioSprite hx hx2) w
    = Some (true, set_obj_x (scenarioSprite hx hx2) x') /\
    x' + hx2 + 1 <= 20 /\
    (9 <= hx2 -> x' + hx2 + 1 = 20).
Proof.
  intros Ha Hr Hf. exists (scenarioX hx2).
  split; [apply setNextX_scenario_value; lia|].
  unfold scenarioX.
  destruct (Z.leb_spec hx2 8); [lia|]. destruct (Z.leb_spec hx2 18); lia.
Qed.

Lemma setNextX_scenario_stops_at_wall_witness :
  exists x',
    setNextX (grid4 (wallAt21 1 2)) 4 (scenarioSprite 0 10) 2
    = Some (true, set_obj_x (scenarioSprite 0 10) x') /\
    x' + 10 + 1 <= 20 /\
    (9 <= 10 -> x' + 10 + 1 = 20).
Proof.
  apply (setNextX_scenario_stops_at_wall 1 2 0 10 4); lia.
Defined.

(** C1 (counterexample).  In the scenario the resolved [x] is not 20: it
    is 9 for a hit box 10 wide ([hx2 = 10]), and 10 for [hx2 = 9], for a
    box reduced to its left edge ([hx2 = 0]) and for [hx2 = -1]. *)
Lemma setNextX_scenario_not_20 :
  let g := grid4 (wallAt21 1 2) in
  setNextX g 4 (scenarioSprite 0 10) 2 = Some (true, set_obj_x (scenarioSprite 0 10) 9) /\
  setNextX g 4 (scenarioSprite 0 9) 2 = Some (true, set_obj_x (scenarioSprite 0 9) 10) /\
  setNextX g 4 (scenarioSprite 0 0) 2 = Some (true, set_obj_x (scenarioSprite 0 0) 10) /\
  setNextX g 4 (scenarioSprite 0 (-1)) 2
  = Some (true, set_obj_x (scenarioSprite 0 (-1)) 10).
Proof. by vm_compute. Qed.

(** ** [hitObjectTest] and [fallTest] *)

Section HitScan.

Variable g : TileGrid.

Local Abbreviation carries := (carries g).

Lemma hitRows_Some t i j n p :
  hitRows g t i j n = Some p ->
  px p = i /\ j <= py p < j + Z.of_nat n /\ carries t i (py p) /\
  forall j', j <= j' < py p -> ~ carries t i j'.
Proof.
  revert j. induction n as [|n IH]; intros j; simpl; [discriminate|].
  destruct (strictEq _ _) eqn:E.
  - intros [= <-]. simpl. apply strictEq_true in E.
    split; [done|]. split; [lia|]. split; [exact E|]. intros j' Hj'. lia.
  - intros H. apply IH in H as (Hx & Hy & Hc & Hfirst).
    apply strictEq_false in E.
    split; [done|]. split; [lia|]. split; [exact Hc|].
    intros j' Hj'. destruct (decide (j' = j)) as [->|Hne]; [exact E|].
    apply Hfirst. lia.
Qed.

Lemma hitRows_None t i j n :
  hitRows g t i j n = None ->
  forall j', j <= j' < j + Z.of_nat n -> ~ carries t i j'.
Proof.
  revert j. induction n as [|n IH]; intros j; simpl; [lia|].
  destruct (strictEq _ _) eqn:E; [discriminate|].
  intros H j' Hj'. apply strictEq_false in E.
  destruct (decide (j' = j)) as [->|Hne]; [exact E|].
  apply (IH _ H). lia.
Qed.

Lemma hitCols_Some t i j0 rows n p :
  hitCols g t i j0 rows n = Some p ->
  i <= px p < i + Z.of_nat n /\ j0 <= py p < j0 + Z.of_nat rows /\
  carries t (px p) (py p) /\
  (forall i' j', i <= i' < px p -> j0 <= j' < j0 + Z.of_nat rows -> ~ carries t i' j') /\
  (forall j', j0 <= j' < py p -> ~ carries t (px p) j').
Proof.
  revert i. induction n as [|n IH]; intros i; simpl; [discriminate|].
  destruct (hitRows g t i j0 rows) as [q|] eqn:E.
  - intros [= <-]. apply hitRows_Some in E as (Hx & Hy & Hc & Hfirst).
    rewrite Hx. split; [lia|]. split; [lia|]. split; [exact Hc|].
    split; [|exact Hfirst]. intros i' j' Hi'. lia.
  - intros H. apply IH in H as (Hx & Hy & Hc & Hcols & Hrows).
    split; [lia|]. split; [lia|]. split; [exact Hc|]. split; [|exact Hrows].
    intros i' j' Hi' Hj'. destruct (decide (i' = i)) as [->|Hne].
    + by apply (hitRows_None _ _ _ _ E).
    + apply Hcols; lia.
Qed.

Lemma hitCols_None t i j0 rows n :
  hitCols g t i j0 rows n = None ->
  forall i' j', i <= i' < i + Z.of_nat n -> j0 <= j' < j0 + Z.of_nat rows ->
                ~ carries t i' j'.
Proof.
  revert i. induction n as [|n IH]; intros i; simpl; [lia|].
  destruct (hitRows g t i j0 rows) as [q|] eqn:E; [discriminate|].
  intros H i' j' Hi' Hj'. destruct (decide (i' = i)) as [->|Hne].
  - by apply (hitRows_None _ _ _ _ E).
  - apply (IH _ H); lia.
Qed.

Lemma span_range lo hi k : lo <= k < lo + Z.of_nat (span lo hi) <-> lo <= k <= hi.
Proof. unfold span. lia. Qed.

Lemma getTileBehaviorAtIndex_carries t i j :
  getTileBehaviorAtIndex g i j = Some t <-> carries t i j.
Proof.
  unfold getTileBehaviorAtIndex, carries.
  by replace (numCols g * j + i) with (j * numCols g + i) by lia.
Qed.

(** C2 (amended).  For a rectangle of non-negative pixels inside the map,
    [hitObjectTest] returns a cell of the grid that meets the rectangle and
    carries the code, and it is the first such cell with columns taken left
    to right and, inside a column, rows top to bottom: every other cell
    that meets the rectangle and carries the code lies in a column further
    right, or lower in the same column.  It returns no match exactly when
    no cell meeting the rectangle carries the code. *)
Theorem hitObjectTest_first_by_column (x y x2 y2 t : Z) :
  0 < tileWidth g -> 0 < tileHeight g ->
  0 <= x <= x2 -> 0 <= y <= y2 ->
  x2 < numCols g * tileWidth g -> y2 < numRows g * tileHeight g ->
  x2 < 2 ^ 31 -> y2 < 2 ^ 31 ->
  match hitObjectTest g x y x2 y2 t with
  | Some p =>
      cellMeets g x y x2 y2 p /\
      getTileBehaviorAtIndex g (px p) (py p) = Some t /\
      forall q, cellMeets g x y x2 y2 q ->
                getTileBehaviorAtIndex g (px q) (py q) = Some t ->
                px p < px q \/ (px p = px q /\ py p <= py q)
  | None =>
      forall q, cellMeets g x y x2 y2 q ->
                getTileBehaviorAtIndex g (px q) (py q) <> Some t
  end.
Proof.
  intros Htw Hth Hx Hy Hx2 Hy2 Bx By.
  unfold hitObjectTest, getTileIndexFromPixel. simpl.
  rewrite !idiv_nonneg by lia.
  assert (Hcol : forall i, x / tileWidth g <= i <= x2 / tileWidth g <->
                           i * tileWidth g <= x2 /\ x < (i + 1) * tileWidth g).
  { intros i. rewrite tile_le_pixel, pixel_lt_tile by lia. tauto. }
  assert (Hrow : forall j, y / tileHeight g <= j <= y2 / tileHeight g <->
                           j * tileHeight g <= y2 /\ y < (j + 1) * tileHeight g).
  { intros j. rewrite tile_le_pixel, pixel_lt_tile by lia. tauto. }
  destruct (hitCols g t _ _ _ _) as [p|] eqn:E.
  - apply hitCols_Some in E as (Hpx & Hpy & Hc & Hcols & Hrows).
    rewrite span_range in Hpx, Hpy.
    pose proof (proj1 (Hcol _) Hpx) as Hmx. pose proof (proj1 (Hrow _) Hpy) as Hmy.
    assert (0 <= x / tileWidth g) by (apply Z.div_pos; lia).
    assert (0 <= y / tileHeight g) by (apply Z.div_pos; lia).
    split; [|split].
    + unfold cellMeets. split; [|tauto]. split; nia.
    + by apply getTileBehaviorAtIndex_carries.
    + intros q (_ & Hqx & Hqy) Hq%getTileBehaviorAtIndex_carries.
      apply Hcol in Hqx. apply Hrow in Hqy.
      destruct (Z.lt_trichotomy (px p) (px q)) as [Hlt|[Heq|Hgt]]; [by left| |].
      * right. split; [done|].
        destruct (Z.le_gt_cases (py p) (py q)) as [Hle|Hlt]; [done|].
        exfalso. apply (Hrows (py q)); [lia|]. by rewrite Heq.
      * exfalso. apply (Hcols (px q) (py q)); [lia| |done].
        apply span_range. lia.
  - intros q (_ & Hqx & Hqy) Hq%getTileBehaviorAtIndex_carries.
    apply Hcol in Hqx. apply Hrow in Hqy.
    apply (hitCols_None _ _ _ _ _ E (px q) (py q)); [| |done]; apply span_range; lia.
Qed.

(** C10 (amended).  A lookup that falls outside the behavior plane never
    gives a hit: [fallTest] answers [false] when the index computed from
    the pixel is outside the plane, and [hitObjectTest] answers no match
    when every index it scans is. *)
Theorem lookups_outside_plane_never_hit (TYPE_WALL x y x2 y2 t : Z) :
  let pos1 := getTileIndexFromPixel g x y in
  let pos2 := getTileIndexFromPixel g x2 y in
  let pos3 := getTileIndexFromPixel g x y2 in
  ~ (0 <= px pos1 + py pos1 * numCols g < Z.of_nat (length (tileBehaviors g))) ->
  (forall i j, px pos1 <= i <= px pos2 -> py pos1 <= j <= py pos3 ->
               ~ (0 <= j * numCols g + i < Z.of_nat (length (tileBehaviors g)))) ->
  fallTest TYPE_WALL g x y = false /\ hitObjectTest g x y x2 y2 t = None.
Proof.
  intros pos1 pos2 pos3 Hpix Hall. split.
  - unfold fallTest. fold pos1. by rewrite readU8_outside.
  - unfold hitObjectTest. fold pos1 pos2 pos3.
    destruct (hitCols g t _ _ _ _) as [p|] eqn:E; [exfalso|done].
    apply hitCols_Some in E as (Hpx & Hpy & Hc & _).
    rewrite span_range in Hpx, Hpy.
    apply readU8_Some in Hc. by apply (Hall (px p) (py p)).
Qed.

End HitScan.

Lemma hitObjectTest_first_by_column_witness :
  let g := grid4 [0;1;0;0; 1;0;0;0; 0;0;0;0; 0;0;0;0] in
  match hitObjectTest g 0 0 19 19 1 with
  | Some p =>
      cellMeets g 0 0 19 19 p /\
      getTileBehaviorAtIndex g (px p) (py p) = Some 1 /\
      forall q, cellMeets g 0 0 19 19 q ->
                getTileBehaviorAtIndex g (px q) (py q) = Some 1 ->
                px p < px q \/ (px p = px q /\ py p <= py q)
  | None =>
      forall q, cellMeets g 0 0 19 19 q ->
                getTileBehaviorAtIndex g (px q) (py q) <> Some 1
  end.
Proof.
  apply (hitObjectTest_first_by_column
           (grid4 [0;1;0;0; 1;0;0;0; 0;0;0;0; 0;0;0;0]) 0 0 19 19 1); simpl; lia.
Defined.

(** C2 (counterexample).  With the code at cells (col 0, row 1) and (col 1,
    row 0), the rectangle (0,0)-(19,19) gives the cell of column 0, where
    the order "rows before columns" gives the cell of row 0.  And for the
    rectangle (40,0)-(49,9), right of the 4x4 map, the index computed for
    column 4 of row 0 is that of cell (col 0, row 1): a hit is returned
    although no cell of the grid meets the rectangle. *)
Lemma hitObjectTest_not_row_major :
  let g := grid4 [0;1;0;0; 1;0;0;0; 0;0;0;0; 0;0;0;0] in
  (hitObjectTest g 0 0 19 19 1 = Some (mkPos 0 1) /\
   hitObjectTest_rowMajor g 0 0 19 19 1 = Some (mkPos 1 0)) /\
  (hitObjectTest g 40 0 49 9 1 = Some (mkPos 4 0) /\
   hitObjectTest_rowMajor g 40 0 49 9 1 = None).
Proof. vm_compute. repeat split. Qed.

Lemma lookups_outside_plane_never_hit_witness :
  fallTest 2 (grid4 (wallAt21 1 2)) 0 40 = false /\
  hitObjectTest (grid4 (wallAt21 1 2)) 0 40 9 49 2 = None.
Proof.
  apply (lookups_outside_plane_never_hit (grid4 (wallAt21 1 2)) 2 0 40 9 49 2).
  - change (~ (0 <= 0 + 4 * 4 < 16)). lia.
  - intros i j. change (0 <= i <= 0 -> 4 <= j <= 4 -> ~ (0 <= j * 4 + i < 16)). lia.
Defined.

(** C10 (counterexample).  On the 4x4 map of 10x10 tiles with the wall
    code at cell (col 0, row 1): the pixel (40, 0) is right of the map, but
    the index computed for it is that of cell (col 0, row 1), so [fallTest]
    answers [true] and [hitObjectTest] returns a hit; and the pixel
    (-5, 10), left of the map, is truncated to column 0. *)
Lemma out_of_map_pixel_hits_aliased_cell :
  let g := grid4 [1;1;1;1; 2;1;1;1; 1;1;1;1; 1;1;1;1] in
  ~ (0 <= 40 < numCols g * tileWidth g) /\
  fallTest 2 g 40 0 = true /\
  hitObjectTest g 40 0 49 9 2 = Some (mkPos 4 0) /\
  fallTest 2 g (-5) 10 = true.
Proof.
  split; [|by vm_compute].
  change (~ (0 <= 40 < 4 * 10)). lia.
Qed.

(** ** The scroll controller *)

Section ScrollController.

Variable handleEvent : list MapEventCall -> Trigger -> bool.
Variable easedPosition : Z -> Z -> Z -> Z -> Z.

(** *** What each operation leaves alone *)

Lemma moveTo_view now m x y : view (moveTo now m x y) = view m.
Proof. unfold moveTo. by destruct (_ && _). Qed.

Lemma moveTo_while_moving now m x y :
  moving (scroll m) = true -> moveTo now m x y = m.
Proof. intros H. unfold moveTo. by rewrite H. Qed.




(** *** The target stored by [moveTo] *)

(** A scroll that [moveTo] starts has its target in the region: the lower
    bound is applied first, the upper bound when the target is stored. *)
Lemma moveTo_target now m x y :
  moving (scroll m) = false ->
  moving (scroll (moveTo now m x y)) = true ->
  viewportTargetX (scroll (moveTo now m x y))
    = Z.min 0 (Z.max (- xMax (view m)) x) /\
  viewportTargetY (scroll (moveTo now m x y))
    = Z.min 0 (Z.max (- yMax (view m)) y) /\
  startMoveTime (scroll (moveTo now m x y)) = now /\
  duration (scroll (moveTo now m x y)) = duration (scroll m).
Proof.
  intros Hidle. unfold moveTo. rewrite Hidle.
  destruct (_ && _); simpl; [intros _|congruence].
  repeat split.
  - destruct (Z.ltb_spec x (- xMax (view m)));
      destruct (Z.gtb_spec (- xMax (view m)) 0); try lia;
      destruct (Z.gtb_spec x 0); lia.
  - destruct (Z.ltb_spec y (- yMax (view m)));
      destruct (Z.gtb_spec (- yMax (view m)) 0); try lia;
      destruct (Z.gtb_spec y 0); lia.
Qed.

(** For a non-empty interval the clamped value lies in it, and clamping
    from above first gives the same value. *)
Lemma clampTo_range lo hi v :
  lo <= hi -> lo <= clampTo lo hi v <= hi /\ clampTo lo hi v = Z.max lo (Z.min hi v).
Proof. unfold clampTo. lia. Qed.

Lemma moveTo_keeps_clamped now m x y :
  0 <= xMax (view m) -> 0 <= yMax (view m) ->
  viewportClamped m -> targetClamped m ->
  viewportClamped (moveTo now m x y) /\ targetClamped (moveTo now m x y).
Proof.
  intros Hx Hy Hv Ht. unfold viewportClamped, targetClamped.
  rewrite moveTo_view. split; [exact Hv|].
  destruct (moving (scroll m)) eqn:Hm.
  - by rewrite (moveTo_while_moving _ _ _ _ Hm).
  - intros Hacc.
    destruct (moveTo_target now m x y Hm Hacc) as (-> & -> & _).
    unfold inRegion. lia.
Qed.

Lemma checkMasterPosition_keeps_clamped now m :
  0 <= xMax (view m) -> 0 <= yMax (view m) ->
  viewportClamped m -> targetClamped m ->
  viewportClamped (checkMasterPosition now m) /\ targetClamped (checkMasterPosition now m).
Proof.
  intros Hx Hy Hv Ht. unfold checkMasterPosition.
  destruct (_ ≫= _) as [mo|]; [|done].
  destruct (negb _); [|done].
  destruct (_ || _); [|done].
  destruct (moveTo_keeps_clamped now m
              (default (viewportX (view m)) (masterDest (obj_x mo) (viewportX (view m))
                 (viewportW (view m)) (viewportLimitX (view m)) (viewportCenterX (view m))))
              (default (viewportY (view m)) (masterDest (obj_y mo) (viewportY (view m))
                 (viewportH (view m)) (viewportLimitY (view m)) (viewportCenterY (view m))))
              Hx Hy Hv Ht) as [Hv1 Ht1].
  apply moveTo_keeps_clamped; rewrite ?moveTo_view; done.
Qed.





(** *** Convergence *)

(** An eased step keeps the plan of the scroll. *)
Lemma update_in_flight now ts m :
  moving (scroll m) = true ->
  ts - startMoveTime (scroll m) < duration (scroll m) ->
  scroll (update handleEvent easedPosition now ts m) = scroll m /\
  xMax (view (update handleEvent easedPosition now ts m)) = xMax (view m) /\
  yMax (view (update handleEvent easedPosition now ts m)) = yMax (view m).
Proof.
  intros Hm Hlt. unfold update. rewrite Hm.
  destruct (Z.geb_spec (ts - startMoveTime (scroll m)) (duration (scroll m))); [lia|].
  done.
Qed.

Lemma updates_in_flight (frames : list (Z * Z)) m :
  moving (scroll m) = true ->
  Forall (fun f => f.2 - startMoveTime (scroll m) < duration (scroll m)) frames ->
  let m' := foldl (fun m f => update handleEvent easedPosition f.1 f.2 m) m frames in
  scroll m' = scroll m /\ xMax (view m') = xMax (view m) /\ yMax (view m') = yMax (view m).
Proof.
  revert m. induction frames as [|f frames IH]; intros m Hm Hall; simpl; [done|].
  inversion Hall as [|? ? Hf Hrest]; subst.
  destruct (update_in_flight f.1 f.2 m Hm Hf) as (Hs & Hxm & Hym).
  destruct (IH (update handleEvent easedPosition f.1 f.2 m)) as (Hs' & Hxm' & Hym').
  - by rewrite Hs.
  - by rewrite Hs.
  - simpl in *. rewrite Hs', Hxm', Hym'. done.
Qed.

(** C5.  Take an idle map and a call [moveTo(x, y)] at clock time [now]
    that starts a scroll.  After any number of updates whose elapsed time
    is below the duration, the first update whose elapsed time reaches the
    duration leaves the controller idle with the viewport exactly on the
    target clamped into [-xMax, 0] x [-yMax, 0], whatever the eased
    positions were; and for [x < -xMax] (with [xMax] not negative) the
    viewport ends at [-xMax]. *)
Theorem scroll_converges_to_clamped_target
    (now x y : Z) (frames : list (Z * Z)) (nowEnd tsEnd : Z) (m : Map) :
  moving (scroll m) = false ->
  moving (scroll (moveTo now m x y)) = true ->
  Forall (fun f => f.2 - now < duration (scroll m)) frames ->
  duration (scroll m) <= tsEnd - now ->
  let m1 := foldl (fun m f => update handleEvent easedPosition f.1 f.2 m)
                  (moveTo now m x y) frames in
  let m2 := update handleEvent easedPosition nowEnd tsEnd m1 in
  moving (scroll m2) = false /\
  viewportX (view m2) = clampTo (- xMax (view m)) 0 x /\
  viewportY (view m2) = clampTo (- yMax (view m)) 0 y /\
  (0 <= xMax (view m) -> x < - xMax (view m) -> viewportX (view m2) = - xMax (view m)).
Proof.
  intros Hidle Hacc Hframes Hend m1 m2.
  destruct (moveTo_target now m x y Hidle Hacc) as (Htx & Hty & Hst & Hdur).
  destruct (updates_in_flight frames (moveTo now m x y) Hacc) as (Hs & _ & _).
  { rewrite Hst, Hdur. exact Hframes. }
  fold m1 in Hs.
  assert (Hm2 : moving (scroll m2) = false /\
                viewportX (view m2) = viewportTargetX (scroll (moveTo now m x y)) /\
                viewportY (view m2) = viewportTargetY (scroll (moveTo now m x y))).
  { unfold m2, update. rewrite Hs, Hacc, Hst, Hdur.
    destruct (Z.geb_spec (tsEnd - now) (duration (scroll m))); [|lia]. done. }
  destruct Hm2 as (Hmv & Hvx & Hvy).
  rewrite Hvx, Hvy, Htx, Hty. unfold clampTo.
  repeat split; try done. lia.
Qed.

(** C3 (what the code does).  On an idle map whose viewport sits at
    [viewportX = 0], a request [moveTo(x, y)] with [x > 0] starts a scroll:
    the comparison is made with the target clamped from below only, the
    stored target is 0 and the stored speed is [x], a displacement to the
    right. *)
Theorem moveTo_positive_request_starts_scroll (now x y : Z) (m : Map) :
  0 <= xMax (view m) ->
  moving (scroll m) = false ->
  viewportX (view m) = 0 ->
  0 < x < 2 ^ 31 ->
  moving (scroll (moveTo now m x y)) = true /\
  viewportTargetX (scroll (moveTo now m x y)) = 0 /\
  viewportSpeedX (scroll (moveTo now m x y)) = x.
Proof.
  intros Hxm Hidle Hvx Hx. unfold moveTo. rewrite Hidle, Hvx.
  destruct (Z.ltb_spec x (- xMax (view m))); [lia|].
  destruct (Z.eqb_spec 0 x); [lia|]. simpl.
  destruct (Z.gtb_spec x 0); [|lia].
  repeat split. rewrite Z.sub_0_r. apply toInt32_small. lia.
Qed.

End ScrollController.



(** On the map of the witness whose master stands at (30, 12), no scroll
    is in flight and [checkMasterPosition] starts one, to the left edge of
    the region, without moving the viewport. *)
Example checkMasterPosition_starts_scroll :
  moving (scroll masterDemo) = false /\
  moving (scroll (checkMasterPosition 0 masterDemo)) = true /\
  viewportTargetX (scroll (checkMasterPosition 0 masterDemo)) = -20 /\
  viewportX (view (checkMasterPosition 0 masterDemo)) = 0.
Proof. by vm_compute. Qed.

(** Half-way through the scroll started by [moveTo(-10, -4)] on the demo
    map, the linear easing has the viewport at (-5, -2). *)
Example eased_step_in_region :
  let m := update (constHandler true) linearPosition 0 400 (moveTo 0 scrollDemo (-10) (-4)) in
  viewportX (view m) = -5 /\ viewportY (view m) = -2 /\ moving (scroll m) = true.
Proof. by vm_compute. Qed.


Lemma scroll_converges_to_clamped_target_witness :
  let m1 := foldl (fun m f => update (constHandler true) linearPosition f.1 f.2 m)
                  (moveTo 0 scrollDemo (-50) 0) [(0, 100); (0, 400)] in
  let m2 := update (constHandler true) linearPosition 0 800 m1 in
  moving (scroll m2) = false /\
  viewportX (view m2) = clampTo (- xMax (view scrollDemo)) 0 (-50) /\
  viewportY (view m2) = clampTo (- yMax (view scrollDemo)) 0 0 /\
  (0 <= xMax (view scrollDemo) -> -50 < - xMax (view scrollDemo) ->
   viewportX (view m2) = - xMax (view scrollDemo)).
Proof.
  apply (scroll_converges_to_clamped_target (constHandler true) linearPosition
           0 (-50) 0 [(0, 100); (0, 400)] 0 800 scrollDemo).
  - reflexivity.
  - reflexivity.
  - repeat constructor; simpl; lia.
  - simpl. lia.
Defined.

(** On the demo map ([xMax = 20]) the request [moveTo(-50, 0)] passes
    through the eased positions -2 and -10 and ends exactly at -20. *)
Example scroll_to_left_edge :
  let step ts := update (constHandler true) linearPosition 0 ts in
  let m0 := moveTo 0 scrollDemo (-50) 0 in
  viewportX (view (step 100 m0)) = -2 /\
  viewportX (view (step 400 (step 100 m0))) = -10 /\
  viewportX (view (step 800 (step 400 (step 100 m0)))) = -20 /\
  moving (scroll (step 800 (step 400 (step 100 m0)))) = false.
Proof. by vm_compute. Qed.

Lemma moveTo_positive_request_starts_scroll_witness :
  moving (scroll (moveTo 0 scrollDemo 10 0)) = true /\
  viewportTargetX (scroll (moveTo 0 scrollDemo 10 0)) = 0 /\
  viewportSpeedX (scroll (moveTo 0 scrollDemo 10 0)) = 10.
Proof.
  apply (moveTo_positive_request_starts_scroll 0 10 0 scrollDemo).
  - simpl. lia.
  - reflexivity.
  - reflexivity.
  - lia.
Defined.

(** With the linear easing function, half-way through the scroll started
    by [moveTo(10, 0)] from [viewportX = 0] the viewport is at
    [viewportX = 5], right of the region; the scroll then ends at 0. *)
Example positive_request_moves_viewport_right :
  let m1 := moveTo 0 scrollDemo 10 0 in
  viewportX (view (update (constHandler true) linearPosition 0 400 m1)) = 5 /\
  viewportX (view (update (constHandler true) linearPosition 0 800 m1)) = 0.
Proof. by vm_compute. Qed.

(** ** [updateTile] *)

Lemma readU8_writeU8_eq a i v :
  0 <= i < Z.of_nat (length a) -> readU8 (writeU8 a i v) i = Some (v mod 256).
Proof.
  intros Hi. unfold readU8, writeU8.
  destruct (Z.leb_spec 0 i); [|lia].
  apply list_lookup_insert_eq. lia.
Qed.

Lemma readU8_writeU8_ne a i j v : i <> j -> readU8 (writeU8 a i v) j = readU8 a j.
Proof.
  intros Hne. unfold readU8, writeU8.
  destruct (Z.leb_spec 0 j); [|done].
  destruct (Z.leb_spec 0 i); [|done].
  apply list_lookup_insert_ne. lia.
Qed.

Lemma length_writeU8 a i v : length (writeU8 a i v) = length a.
Proof. unfold writeU8. destruct (0 <=? i); [apply length_insert|done]. Qed.

(** Two cells of the grid with the same index are the same cell. *)
Lemma cell_index_inj n c r c' r' :
  0 <= c < n -> 0 <= c' < n -> r * n + c = r' * n + c' -> c = c' /\ r = r'.
Proof.
  intros Hc Hc' Heq.
  assert (r = r') as ->; [|lia].
  destruct (Z.lt_trichotomy r r') as [Hlt|[Heq'|Hgt]]; [|done|].
  - assert ((r + 1) * n <= r' * n) by (apply Z.mul_le_mono_nonneg_r; lia). lia.
  - assert ((r' + 1) * n <= r * n) by (apply Z.mul_le_mono_nonneg_r; lia). lia.
Qed.

(** C6 (amended).  On a grid whose behavior plane has [numCols * numRows]
    cells, for a cell (col, row) of the grid and a behavior [B] that is a
    byte ([-1 < B < 256]), after [updateTile(col, row, tileNum, B)] the
    behavior read back at (col, row) is [B]; at every other cell both the
    behavior and the visual tile are what they were, and neither plane
    changes length. *)
Theorem updateTile_sets_one_cell (m : Map) (col row tileNum B : Z) :
  let g := grid m in
  let g' := grid (updateTile m col row tileNum B) in
  Z.of_nat (length (tileBehaviors g)) = numCols g * numRows g ->
  0 <= col < numCols g -> 0 <= row < numRows g ->
  -1 < B < 256 ->
  getTileBehaviorAtIndex g' col row = Some B /\
  (forall c r, 0 <= c < numCols g -> 0 <= r < numRows g -> (c, r) <> (col, row) ->
     getTileBehaviorAtIndex g' c r = getTileBehaviorAtIndex g c r /\
     readU8 (map g') (numCols g * r + c) = readU8 (map g) (numCols g * r + c)) /\
  length (tileBehaviors g') = length (tileBehaviors g) /\
  length (map g') = length (map g).
Proof.
  intros g g' Hlen Hcol Hrow HB.
  unfold g', updateTile, getTileBehaviorAtIndex. fold g. simpl.
  destruct (Z.gtb_spec B (-1)); [|lia].
  split; [|split; [|split]].
  - replace (numCols g * row + col) with (row * numCols g + col) by lia.
    rewrite readU8_writeU8_eq by nia.
    by rewrite Z.mod_small by lia.
  - intros c r Hc Hr Hne.
    assert (row * numCols g + col <> numCols g * r + c).
    { intros Heq. apply Hne.
      destruct (cell_index_inj (numCols g) c r col row Hc Hcol ltac:(lia)) as [-> ->].
      done. }
    split; [by apply readU8_writeU8_ne|].
    destruct (tileNum >? -1); [by apply readU8_writeU8_ne|done].
  - apply length_writeU8.
  - destruct (tileNum >? -1); [apply length_writeU8|done].
Qed.

Lemma updateTile_sets_one_cell_witness :
  let g := grid scrollDemo in
  let g' := grid (updateTile scrollDemo 2 1 (-1) 2) in
  getTileBehaviorAtIndex g' 2 1 = Some 2 /\
  (forall c r, 0 <= c < numCols g -> 0 <= r < numRows g -> (c, r) <> (2, 1) ->
     getTileBehaviorAtIndex g' c r = getTileBehaviorAtIndex g c r /\
     readU8 (map g') (numCols g * r + c) = readU8 (map g) (numCols g * r + c)) /\
  length (tileBehaviors g') = length (tileBehaviors g) /\
  length (map g') = length (map g).
Proof.
  apply (updateTile_sets_one_cell scrollDemo 2 1 (-1) 2).
  - reflexivity.
  - simpl. lia.
  - simpl. lia.
  - lia.
Defined.

(** C6 (counterexample).  The planes hold bytes: [updateTile(2, 1, -1, 256)]
    passes the test [behavior > -1] and stores [256 mod 256 = 0], so the
    behavior read back is 0 and not 256. *)
Lemma updateTile_stores_a_byte :
  let m := plainMap (grid4 (wallAt21 1 2)) (viewportAt 0 0 20 20 40 40) ∅ ∅ in
  (256 >? -1) = true /\
  getTileBehaviorAtIndex (grid m) 2 1 = Some 2 /\
  getTileBehaviorAtIndex (grid (updateTile m 2 1 (-1) 256)) 2 1 = Some 0.
Proof. by vm_compute. Qed.

(** ** Triggers *)

Section Triggers.

Variable handleEvent : list MapEventCall -> Trigger -> bool.

Lemma fireTrigger_flag m k trigger :
  triggers m !! k = Some trigger ->
  triggers (fireTrigger handleEvent m k) !! k
  = Some (mkTrigger (negb (handleEvent (mapEvent m) trigger)) (trigData trigger)).
Proof.
  intros H. unfold fireTrigger. rewrite H. simpl. apply lookup_insert_eq.
Qed.

Lemma fireTrigger_other m k k' :
  k' <> k ->
  triggers (fireTrigger handleEvent m k) !! k' = triggers m !! k'.
Proof.
  intros Hne. unfold fireTrigger.
  destruct (triggers m !! k); [|done]. simpl. by apply lookup_insert_ne.
Qed.

Lemma fireTrigger_keeps_trigger m k k' :
  is_Some (triggers m !! k') ->
  is_Some (triggers (fireTrigger handleEvent m k) !! k').
Proof.
  intros Hsome. destruct (decide (k' = k)) as [->|Hne].
  - destruct Hsome as [trigger H]. rewrite (fireTrigger_flag _ _ _ H). by eexists.
  - by rewrite fireTrigger_other.
Qed.

Lemma dispatchTriggers_other keys m k :
  k ∉ keys ->
  triggers (dispatchTriggers handleEvent m keys) !! k = triggers m !! k.
Proof.
  unfold dispatchTriggers. revert m.
  induction keys as [|k0 keys IH]; intros m Hnot; simpl; [done|].
  apply not_elem_of_cons in Hnot as [Hne Hnot].
  rewrite IH by done. by apply fireTrigger_other.
Qed.

Lemma dispatchTriggers_keeps_trigger keys m k :
  is_Some (triggers m !! k) ->
  is_Some (triggers (dispatchTriggers handleEvent m keys) !! k).
Proof.
  unfold dispatchTriggers. revert m.
  induction keys as [|k0 keys IH]; intros m Hsome; simpl; [done|].
  apply IH. by apply fireTrigger_keeps_trigger.
Qed.

(** The triggers collected for a box exist and have not fired. *)
Lemma getTriggersForBox_collected m x y x2 y2 k :
  k ∈ getTriggersForBox m x y x2 y2 ->
  exists trigger, triggers m !! k = Some trigger /\ triggered trigger = false.
Proof.
  unfold getTriggersForBox.
  intros (i & (j & Hk & _)%list_elem_of_bind & _)%list_elem_of_bind.
  destruct (triggers m !! (j * numCols (grid m) + i)) as [trigger|] eqn:E;
    [|by apply elem_of_nil in Hk].
  destruct (triggered trigger) eqn:Ht; simpl in Hk; [by apply elem_of_nil in Hk|].
  apply list_elem_of_singleton in Hk as ->. eauto.
Qed.

(** C7.  For every trigger that [checkForTriggers] dispatches, the flag it
    holds afterwards is the negation of the handler's answer: with
    [before] the dispatches that precede its last one, the handler is
    called with the trigger as it stands then, and [triggered] becomes
    [true] when the answer is falsy and [false] when it is truthy, which
    keeps the trigger among those [getTriggersForBox] collects. *)
Theorem checkForTriggers_negates_handler_answer
    (m : Map) (ref : ObjRef) (mo : Drawable) (k : Z) :
  masterObject m = Some ref ->
  drawables m !! ref = Some mo ->
  k ∈ masterBoxTriggers m mo ->
  exists before after trigger,
    masterBoxTriggers m mo = before ++ k :: after /\ (k ∉ after) /\
    triggers (dispatchTriggers handleEvent m before) !! k = Some trigger /\
    triggered <$> (triggers (checkForTriggers handleEvent m) !! k)
    = Some (negb (handleEvent (mapEvent (dispatchTriggers handleEvent m before)) trigger)).
Proof.
  intros Hmaster Hmo Hin.
  destruct (getTriggersForBox_collected _ _ _ _ _ _ Hin) as (t0 & Ht0 & _).
  destruct (list_elem_of_split_r _ _ Hin) as (before & after & Heq & Hlast).
  destruct (dispatchTriggers_keeps_trigger before m k ltac:(by eexists)) as [trigger Htr].
  exists before, after, trigger.
  split; [done|]. split; [done|]. split; [done|].
  unfold checkForTriggers. rewrite Hmaster. simpl. rewrite Hmo, Heq.
  unfold dispatchTriggers in *. rewrite foldl_app. simpl.
  change (foldl (fireTrigger handleEvent) ?a after)
    with (dispatchTriggers handleEvent a after).
  rewrite dispatchTriggers_other by done.
  by rewrite (fireTrigger_flag _ _ _ Htr).
Qed.

End Triggers.

Lemma checkForTriggers_negates_handler_answer_witness :
  exists before after trigger,
    masterBoxTriggers triggerDemo (mkDrawable 10 10 0 0 (mkBox 0 0 5 5) None true 0)
    = before ++ 5 :: after /\ (5 ∉ after) /\
    triggers (dispatchTriggers (constHandler false) triggerDemo before) !! 5 = Some trigger /\
    triggered <$> (triggers (checkForTriggers (constHandler false) triggerDemo) !! 5)
    = Some (negb (constHandler false
                    (mapEvent (dispatchTriggers (constHandler false) triggerDemo before))
                    trigger)).
Proof.
  apply (checkForTriggers_negates_handler_answer (constHandler false) triggerDemo 0%nat).
  - reflexivity.
  - by vm_compute.
  - assert (masterBoxTriggers triggerDemo
              (mkDrawable 10 10 0 0 (mkBox 0 0 5 5) None true 0) = [5]) as ->
      by (by vm_compute).
    apply list_elem_of_singleton. reflexivity.
Defined.

(** On the demo map: a falsy answer marks the trigger fired, a truthy
    answer leaves it as it was. *)
Example trigger_flag_polarity :
  triggers (checkForTriggers (constHandler false) triggerDemo) !! 5
  = Some (mkTrigger true "door") /\
  triggers (checkForTriggers (constHandler true) triggerDemo) !! 5
  = Some (mkTrigger false "door").
Proof. by vm_compute. Qed.

(** ** The entity registry *)

Lemma removeFirst_app_last r l : r ∉ l -> removeFirst r (l ++ [r]) = l.
Proof.
  induction l as [|x l IH]; intros Hnot; simpl.
  - by destruct (decide (r = r)).
  - apply not_elem_of_cons in Hnot as [Hne Hnot].
    destruct (decide (x = r)); [congruence|]. by rewrite IH.
Qed.

Lemma removeObject_platforms m r : platforms (removeObject m r) = platforms m.
Proof.
  unfold removeObject.
  destruct (contains r (enemies m)); [done|].
  by destruct (contains r (friendBullets m)).
Qed.

(** The collision group [addObject] reads is the one the drawable has. *)
Lemma addObject_group m obj d layerIndex :
  drawables m !! obj = Some d ->
  let ds1 := alter (fun d => set_layer d layerIndex) obj (drawables m) in
  let ds2 := if default false (master <$> ds1 !! obj)
             then alter (fun d => set_obj_xy d (startX m) (startY m)) obj ds1
             else ds1 in
  ds2 !! obj ≫= collideGroup = collideGroup d.
Proof.
  intros Hd ds1 ds2.
  assert (H1 : ds1 !! obj = Some (set_layer d layerIndex)).
  { unfold ds1. by rewrite lookup_alter_eq, Hd. }
  unfold ds2. rewrite H1. simpl.
  destruct (master d); [|by rewrite H1].
  by rewrite lookup_alter_eq, H1.
Qed.

Lemma addObject_lists m obj d layerIndex :
  drawables m !! obj = Some d ->
  let m' := addObject m obj layerIndex in
  objects m' = objects m ++ [obj] /\
  enemies m' = (if decide (collideGroup d = Some 1) then enemies m ++ [obj] else enemies m) /\
  friendBullets m' = (if decide (collideGroup d = Some 2) then friendBullets m ++ [obj]
                      else friendBullets m) /\
  platforms m' = (if decide (collideGroup d = Some 3) then platforms m ++ [obj]
                  else platforms m).
Proof.
  intros Hd. pose proof (addObject_group m obj d layerIndex Hd) as Hg.
  simpl in Hg. unfold addObject. rewrite Hg.
  destruct (collideGroup d) as [grp|]; [|done].
  destruct (decide (Some grp = Some 1)) as [[= ->]|]; [done|].
  destruct (decide (Some grp = Some 2)) as [[= ->]|]; [done|].
  by destruct (decide (Some grp = Some 3)) as [[= ->]|].
Qed.

(** An enemy or a friendly projectile that was added is taken out of its
    group list again. *)
Lemma removeObject_clears_enemy_or_bullet m obj d layerIndex :
  drawables m !! obj = Some d ->
  obj ∉ enemies m -> obj ∉ friendBullets m ->
  collideGroup d = Some 1 \/ collideGroup d = Some 2 ->
  let m' := removeObject (addObject m obj layerIndex) obj in
  enemies m' = enemies m /\ friendBullets m' = friendBullets m.
Proof.
  intros Hd Hen Hfb Hgrp.
  destruct (addObject_lists m obj d layerIndex Hd) as (_ & He & Hf & _).
  simpl. unfold removeObject, contains. rewrite He, Hf.
  destruct Hgrp as [Hg|Hg]; rewrite Hg; simpl.
  - rewrite bool_decide_eq_true_2 by (apply elem_of_app; right; apply list_elem_of_here).
    simpl. by rewrite removeFirst_app_last.
  - rewrite bool_decide_eq_false_2 by done.
    rewrite bool_decide_eq_true_2 by (apply elem_of_app; right; apply list_elem_of_here).
    simpl. by rewrite removeFirst_app_last.
Qed.

(** C9 (what the code does for platforms).  An object of collision group
    3 that [addObject] put on the platform list is still on it after
    [removeObject]: [removeObject] searches the enemy and the
    friendly-projectile lists only. *)
Theorem removeObject_leaves_platform (m : Map) (obj : ObjRef) (d : Drawable) (layerIndex : Z) :
  drawables m !! obj = Some d ->
  collideGroup d = Some 3 ->
  let m' := removeObject (addObject m obj layerIndex) obj in
  platforms m' = platforms m ++ [obj] /\ obj ∈ platforms m'.
Proof.
  intros Hd Hg.
  destruct (addObject_lists m obj d layerIndex Hd) as (_ & _ & _ & Hp).
  rewrite Hg in Hp. simpl in Hp. simpl.
  rewrite removeObject_platforms, Hp.
  split; [done|]. apply elem_of_app. right. apply list_elem_of_here.
Qed.

Lemma removeObject_leaves_platform_witness :
  let m' := removeObject (addObject (registryDemo 3) 7%nat 0) 7%nat in
  platforms m' = platforms (registryDemo 3) ++ [7%nat] /\ 7%nat ∈ platforms m'.
Proof.
  apply (removeObject_leaves_platform (registryDemo 3) 7%nat
           (mkDrawable 0 0 0 0 (mkBox 0 0 9 9) (Some 3) false 0) 0).
  - by vm_compute.
  - reflexivity.
Defined.

(** ** Windows *)

Section Windows.

Variable newResourceFromPool : list Request -> Request -> ObjRef * Drawable.

Local Abbreviation addNew := (addNewObjectsFromWindow newResourceFromPool).
Local Abbreviation spawn := (spawnItem newResourceFromPool).

Lemma addObject_frame m obj layerIndex :
  sameWindowing m (addObject m obj layerIndex) /\
  rmCalls (addObject m obj layerIndex) = rmCalls m /\
  mapEvent (addObject m obj layerIndex) = mapEvent m /\
  objects (addObject m obj layerIndex) = objects m ++ [obj].
Proof.
  unfold addObject, sameWindowing.
  destruct (decide (_ = Some 1)); [done|].
  destruct (decide (_ = Some 2)); [done|].
  by destruct (decide (_ = Some 3)).
Qed.

Lemma spawnItem_frame m item :
  sameWindowing m (spawn m item) /\
  rmCalls (spawn m item) = rmCalls m ++ [(itemType item, spriteOptions item)] /\
  length (objects (spawn m item)) = S (length (objects m)).
Proof.
  unfold spawnItem.
  destruct (newResourceFromPool _ _) as [obj d].
  match goal with |- context [addObject ?m0 obj 0] =>
    destruct (addObject_frame m0 obj 0) as ((Hw & Hv & Hx & Ho) & Hrm & _ & Hobj)
  end.
  assert (Hlen : forall l : list ObjRef, length (l ++ [obj]) = S (length l)).
  { intros l. rewrite length_app. simpl. lia. }
  destruct (itemId item) as [id|]; [destruct (bool_decide (id <> ""))|];
    unfold sameWindowing; simpl; rewrite ?Hw, ?Hv, ?Hx, ?Ho, ?Hrm, ?Hobj, ?Hlen; done.
Qed.

Lemma spawnItems_frame its m :
  sameWindowing m (foldl spawn m its) /\
  rmCalls (foldl spawn m its)
  = rmCalls m ++ ((fun it => (itemType it, spriteOptions it)) <$> its) /\
  length (objects (foldl spawn m its)) = (length (objects m) + length its)%nat.
Proof.
  revert m. induction its as [|it its IH]; intros m; simpl.
  - unfold sameWindowing. rewrite app_nil_r. repeat split; lia.
  - destruct (spawnItem_frame m it) as ((Hw & Hv & Hx & Ho) & Hrm & Hobj).
    destruct (IH (spawn m it)) as ((Hw' & Hv' & Hx' & Ho') & Hrm' & Hobj').
    unfold sameWindowing.
    rewrite Hw', Hv', Hx', Ho', Hrm', Hobj', Hw, Hv, Hx, Ho, Hrm, Hobj.
    rewrite <- app_assoc. simpl. repeat split. lia.
Qed.

(** *** One window *)

Lemma addNew_not_fresh m k : ~ notYetDisplayed m k -> addNew m k = m.
Proof.
  intros Hnot. unfold addNewObjectsFromWindow.
  destruct (windows m !! k) as [w|] eqn:E; [|done].
  destruct (displayed w) eqn:Hd; [done|].
  exfalso. apply Hnot. by exists w.
Qed.

Lemma addNew_fresh m k :
  notYetDisplayed m k ->
  windows (addNew m k) = <[k := mkWindow true (default [] (items <$> windows m !! k))]> (windows m) /\
  view (addNew m k) = view m /\ maxWinX (addNew m k) = maxWinX m /\
  options (addNew m k) = options m /\
  rmCalls (addNew m k) = rmCalls m ++ windowRequests m k /\
  length (objects (addNew m k))
  = (length (objects m) + length (windowRequests m k))%nat.
Proof.
  intros (w & Hw & Hd). unfold addNewObjectsFromWindow, windowRequests.
  rewrite Hw, Hd. simpl.
  match goal with |- context [foldl _ ?m0 (items w)] =>
    destruct (spawnItems_frame (items w) m0) as ((Hw' & Hv' & Hx' & Ho') & Hrm' & Hobj')
  end.
  rewrite Hw', Hv', Hx', Ho', Hrm', Hobj', length_fmap. done.
Qed.

Lemma fresh_or_not m k : notYetDisplayed m k \/ ~ notYetDisplayed m k.
Proof.
  unfold notYetDisplayed.
  destruct (windows m !! k) as [w|] eqn:E.
  - destruct (displayed w) eqn:Hd.
    + right. intros (w' & [= <-] & Hd'). congruence.
    + left. by exists w.
  - right. by intros (w' & [=] & _).
Qed.

Lemma addNew_frame m k :
  view (addNew m k) = view m /\ maxWinX (addNew m k) = maxWinX m /\
  options (addNew m k) = options m.
Proof.
  destruct (fresh_or_not m k) as [Hf|Hf].
  - by destruct (addNew_fresh m k Hf) as (_ & -> & -> & -> & _).
  - by rewrite addNew_not_fresh.
Qed.

(** After the call, window [k] is displayed, with the same items, and the
    other windows are as before. *)
Lemma addNew_windows m k k' :
  windows (addNew m k) !! k'
  = if decide (k' = k) then (fun w => mkWindow true (items w)) <$> windows m !! k'
    else windows m !! k'.
Proof.
  destruct (fresh_or_not m k) as [Hf|Hf].
  - destruct (addNew_fresh m k Hf) as (-> & _).
    destruct Hf as (w & Hw & Hd).
    destruct (decide (k' = k)) as [->|Hne].
    + rewrite lookup_insert_eq, Hw. done.
    + by rewrite lookup_insert_ne.
  - rewrite addNew_not_fresh by done.
    destruct (decide (k' = k)) as [->|Hne]; [|done].
    destruct (windows m !! k) as [w|] eqn:E; [|done]. simpl.
    destruct w as [[] its]; [done|].
    exfalso. apply Hf. by eexists.
Qed.

Lemma addNew_fresh_after m k k' :
  notYetDisplayed (addNew m k) k' <-> k' <> k /\ notYetDisplayed m k'.
Proof.
  unfold notYetDisplayed. rewrite addNew_windows.
  destruct (decide (k' = k)) as [->|Hne].
  - split; [|tauto].
    intros (w & Hw & Hd). destruct (windows m !! k) as [w0|]; [|done].
    simpl in Hw. injection Hw as <-. discriminate Hd.
  - tauto.
Qed.

Lemma addNew_requests_after m k k' :
  windowRequests (addNew m k) k' = windowRequests m k'.
Proof.
  unfold windowRequests. rewrite addNew_windows.
  destruct (decide (k' = k)) as [->|Hne]; [|done].
  by destruct (windows m !! k).
Qed.

(** *** A sequence of windows *)

Lemma windowsRun_frame ws m :
  view (foldl addNew m ws) = view m /\ maxWinX (foldl addNew m ws) = maxWinX m /\
  options (foldl addNew m ws) = options m.
Proof.
  revert m. induction ws as [|k ws IH]; intros m; simpl; [done|].
  destruct (IH (addNew m k)) as (-> & -> & ->). apply addNew_frame.
Qed.

Lemma windowsRun_nothing_fresh ws m :
  (forall k, k ∈ ws -> ~ notYetDisplayed m k) -> foldl addNew m ws = m.
Proof.
  revert m. induction ws as [|k ws IH]; intros m Hall; simpl; [done|].
  rewrite addNew_not_fresh by (apply Hall; apply list_elem_of_here).
  apply IH. intros k' Hk'. apply Hall. by apply list_elem_of_further.
Qed.

Lemma windowsRun_windows_other ws m k :
  k ∉ ws -> windows (foldl addNew m ws) !! k = windows m !! k.
Proof.
  revert m. induction ws as [|k0 ws IH]; intros m Hnot; simpl; [done|].
  apply not_elem_of_cons in Hnot as [Hne Hnot].
  rewrite IH, addNew_windows by done.
  by destruct (decide (k = k0)).
Qed.

(** Going through the windows [ws] asks the resource manager for the
    items of each window of [ws] that was not displayed yet, once. *)
Lemma windowsRun_requests ws m :
  exists shown,
    NoDup shown /\
    (forall k, k ∈ shown <-> k ∈ ws /\ notYetDisplayed m k) /\
    rmCalls (foldl addNew m ws) = rmCalls m ++ (shown ≫= windowRequests m) /\
    length (objects (foldl addNew m ws))
    = (length (objects m) + length (shown ≫= windowRequests m))%nat /\
    (forall k, k ∈ ws -> ~ notYetDisplayed (foldl addNew m ws) k) /\
    (forall k, is_Some (windows (foldl addNew m ws) !! k) <-> is_Some (windows m !! k)).
Proof.
  revert m. induction ws as [|k ws IH]; intros m; simpl.
  - exists []. split; [constructor|]. split.
    { intros k. split; [by intros ?%elem_of_nil|by intros [?%elem_of_nil _]]. }
    simpl. rewrite app_nil_r. repeat split; try done; try lia.
    by intros k ?%elem_of_nil.
  - destruct (IH (addNew m k)) as (shown & Hnd & Hin & Hrm & Hobj & Hdone & Hdom).
    assert (Hreq : shown ≫= windowRequests (addNew m k) = shown ≫= windowRequests m).
    { clear. induction shown as [|x shown IHs]; [done|]. csimpl.
      by rewrite IHs, addNew_requests_after. }
    assert (Hk : k ∉ shown).
    { intros Hk%Hin. destruct Hk as [_ Hk%addNew_fresh_after]. tauto. }
    assert (Hdom' : forall k', is_Some (windows (foldl addNew (addNew m k) ws) !! k')
                               <-> is_Some (windows m !! k')).
    { intros k'. rewrite Hdom, addNew_windows.
      destruct (decide (k' = k)) as [->|]; [|done].
      by rewrite fmap_is_Some. }
    assert (Hdone' : forall k', k' ∈ k :: ws ->
                                ~ notYetDisplayed (foldl addNew (addNew m k) ws) k').
    { intros k' [->|Hk']%elem_of_cons; [|by apply Hdone].
      destruct (decide (k ∈ ws)) as [Hkin|Hkout]; [by apply Hdone|].
      unfold notYetDisplayed. rewrite windowsRun_windows_other by done.
      intros Hfr%addNew_fresh_after. tauto. }
    destruct (fresh_or_not m k) as [Hf|Hf].
    + exists (k :: shown).
      destruct (addNew_fresh m k Hf) as (_ & _ & _ & _ & Hrm1 & Hobj1).
      split; [by constructor|]. split; [|split; [|split; [|split]]]; try done.
      * intros k'. rewrite !elem_of_cons, Hin, addNew_fresh_after.
        destruct (decide (k' = k)) as [->|]; tauto.
      * csimpl. rewrite Hrm, Hreq, Hrm1. by rewrite <- app_assoc.
      * csimpl. rewrite Hobj, Hreq, Hobj1, length_app. lia.
    + exists shown. rewrite addNew_not_fresh in * by done.
      split; [done|]. split; [|split; [|split; [|split]]]; try done.
      intros k'. rewrite elem_of_cons, Hin.
      split; [tauto|]. intros [[->|Hk'] Hfr]; [contradiction|done].
Qed.

(** *** The loop *)

Lemma addNew_maxWinX m k : maxWinX (addNew m k) = maxWinX m.
Proof. by destruct (addNew_frame m k) as (_ & -> & _). Qed.

(** With [maxWinX > 0] the loop of [checkVisibleWindows] ends after one or
    two passes, having gone through [windowsGoneThrough]. *)
Lemma checkVisibleWindows_run fuel m :
  0 < maxWinX m -> (3 <= fuel)%nat ->
  checkVisibleWindows newResourceFromPool fuel m
  = Some (foldl addNew m (windowsGoneThrough m)).
Proof.
  intros Hw Hfuel.
  destruct fuel as [|[|[|fuel]]]; try lia.
  unfold checkVisibleWindows, windowsGoneThrough.
  destruct (remTruthy (viewportY (view m)) (viewportH (view m)));
    destruct (remTruthy (viewportX (view m)) (viewportW (view m)));
    simpl; rewrite ?addNew_maxWinX;
    repeat match goal with
           | |- context [?a <=? ?b] =>
               destruct (Z.leb_spec a b); try lia; simpl; rewrite ?addNew_maxWinX
           end; reflexivity.
Qed.

(** With [maxWinX = 0] the loop variable never advances: the call does
    not return, whatever the fuel. *)
Lemma windowsLoop_stuck fuel max mod_ i m :
  maxWinX m = 0 -> i <= max ->
  windowsLoop newResourceFromPool fuel max mod_ i m = None.
Proof.
  revert m. induction fuel as [|fuel IH]; intros m Hw Hi; simpl; [done|].
  destruct (Z.leb_spec i max); [|lia].
  assert (Hw2 : maxWinX (if mod_ then addNew (addNew m i) (i + 1) else addNew m i) = 0).
  { destruct mod_; by rewrite ?addNew_maxWinX. }
  rewrite Hw2, Z.add_0_r. by apply IH.
Qed.

Lemma checkVisibleWindows_stuck fuel m :
  maxWinX m = 0 -> checkVisibleWindows newResourceFromPool fuel m = None.
Proof.
  intros Hw. unfold checkVisibleWindows. apply windowsLoop_stuck; [done|].
  rewrite Hw. destruct (remTruthy _ _); lia.
Qed.

Lemma windowsGoneThrough_same m m' :
  view m' = view m -> maxWinX m' = maxWinX m -> windowsGoneThrough m' = windowsGoneThrough m.
Proof. intros Hv Hx. unfold windowsGoneThrough, startIndex. by rewrite Hv, Hx. Qed.

Lemma checkVisibleWindowsTimes_fixed fuel n m :
  checkVisibleWindows newResourceFromPool fuel m = Some m ->
  checkVisibleWindowsTimes newResourceFromPool fuel n m = Some m.
Proof. intros H. induction n as [|n IH]; simpl; [done|]. by rewrite H. Qed.

Lemma reset_windows m k :
  notYetDisplayed (reset m) k <-> is_Some (windows m !! k).
Proof.
  unfold notYetDisplayed, reset. simpl. rewrite lookup_fmap.
  destruct (windows m !! k) as [w|]; simpl.
  - split; [by eexists|]. intros _. by eexists.
  - split; [by intros (w & [=] & _)|by intros [w [=]]].
Qed.

(** *** The first window gone through *)

(** At the top of the map the loop starts at window 0, whatever the other
    numbers are. *)
Lemma startIndex_top m : viewportY (view m) = 0 -> startIndex m = 0.
Proof.
  intros Hy. unfold startIndex, fmul, fdiv. rewrite Hy.
  change (toDouble (Z.abs 0)) with (S754_zero false).
  destruct (toDouble (viewportH (view m))) as [s|s| |s mh e];
    destruct (toDouble (maxWinX m)) as [s'|s'| |s' mw e']; reflexivity.
Qed.

(** With the viewport on a row of windows, [viewportY] a multiple of
    [viewportH], the quotient and the product are computed exactly: the
    loop starts at the first window of that row. *)
Lemma startIndex_row m r :
  0 < viewportH (view m) -> 0 <= r ->
  Z.abs (viewportY (view m)) = r * viewportH (view m) ->
  0 < maxWinX m ->
  r * viewportH (view m) < 2 ^ 53 -> r * maxWinX m < 2 ^ 31 ->
  startIndex m = r * maxWinX m.
Proof.
  intros Hvh Hr Hvy Hw Hb1 Hb2.
  destruct r as [|r|r]; [|clear Hr|lia].
  - apply startIndex_top. lia.
  - unfold startIndex, fmul, fdiv. rewrite Hvy.
    destruct (viewportH (view m)) as [|v|v]; try lia.
    destruct (maxWinX m) as [|w|w]; try lia.
    change (Z.pos r * Z.pos v) with (Z.pos (r * v)).
    rewrite !toDouble_exact by nia.
    rewrite SFdiv_exact, SFmul_exact by nia.
    rewrite truncDouble_exact by nia.
    rewrite toInt32_small by nia. lia.
Qed.

Lemma windowsGoneThrough_row m r :
  0 < viewportH (view m) -> 0 <= r ->
  viewportY (view m) = - (r * viewportH (view m)) ->
  0 < maxWinX m ->
  r * viewportH (view m) < 2 ^ 53 -> r * maxWinX m < 2 ^ 31 ->
  windowsGoneThrough m
  = r * maxWinX m
    :: (if remTruthy (viewportX (view m)) (viewportW (view m))
        then [r * maxWinX m + 1] else []).
Proof.
  intros Hvh Hr Hvy Hw Hb1 Hb2. unfold windowsGoneThrough.
  rewrite (startIndex_row m r) by (try done; nia).
  assert (Hrow : remTruthy (viewportY (view m)) (viewportH (view m)) = false).
  { unfold remTruthy. rewrite Hvy, Z.rem_opp_l, Z.rem_mul by lia.
    by rewrite andb_false_r. }
  by rewrite Hrow, app_nil_r.
Qed.

(** C8 (what the code does).  Take the viewport on a row of windows:
    [viewportY = - r * viewportH].  When [maxWinX] is positive,
    [checkVisibleWindows] returns, and calling it any number of times (at
    least once) gives the state reached by the first call.  The windows it
    goes through are the first window of the row, [r * maxWinX], and the
    next one when [viewportX] is not a multiple of [viewportW], whatever
    [viewportX] is: the resource manager is asked exactly once for each
    item of those of them that were not displayed yet ([shown]), one object
    is added per request, they are marked displayed, and every other window
    is left as it is.  The window that holds the corner of the viewport is
    the first of the row while the viewport is in the first column of
    windows; two columns further or more it is not gone through, so that
    it stays as it was, displayed or not.  After [reset()] every window is
    again not displayed. *)
Theorem windows_populated_from_row_start (fuel : nat) (m : Map) (r : Z) :
  0 < maxWinX m -> (3 <= fuel)%nat ->
  0 < viewportW (view m) -> 0 < viewportH (view m) ->
  0 <= r -> viewportY (view m) = - (r * viewportH (view m)) ->
  r * viewportH (view m) < 2 ^ 53 -> r * maxWinX m < 2 ^ 31 ->
  let first := r * maxWinX m in
  let gone := first :: (if remTruthy (viewportX (view m)) (viewportW (view m))
                        then [first + 1] else []) in
  let corner := windowAt m (- viewportX (view m)) (- viewportY (view m)) in
  exists m1 shown,
    checkVisibleWindows newResourceFromPool fuel m = Some m1 /\
    (forall n, (1 <= n)%nat ->
               checkVisibleWindowsTimes newResourceFromPool fuel n m = Some m1) /\
    NoDup shown /\
    (forall k, k ∈ shown <-> k ∈ gone /\ notYetDisplayed m k) /\
    rmCalls m1 = rmCalls m ++ (shown ≫= windowRequests m) /\
    length (objects m1) = (length (objects m) + length (shown ≫= windowRequests m))%nat /\
    (forall k, k ∈ gone -> ~ notYetDisplayed m1 k) /\
    (forall k, k ∉ gone -> windows m1 !! k = windows m !! k) /\
    (- viewportW (view m) < viewportX (view m) <= 0 -> corner = first) /\
    (viewportX (view m) <= - (2 * viewportW (view m)) ->
     (corner ∉ gone) /\ windows m1 !! corner = windows m !! corner) /\
    (forall k, notYetDisplayed (reset m1) k <-> is_Some (windows m !! k)).
Proof.
  intros Hw Hfuel Hvw Hvh Hr Hvy Hb1 Hb2 first gone corner.
  assert (Hgone : windowsGoneThrough m = gone) by (by apply windowsGoneThrough_row).
  destruct (windowsRun_requests gone m)
    as (shown & Hnd & Hin & Hrm & Hobj & Hdone & Hdom).
  destruct (windowsRun_frame gone m) as (Hv & Hx & _).
  set (m1 := foldl addNew m gone) in *.
  assert (Hfirst : checkVisibleWindows newResourceFromPool fuel m = Some m1)
    by (rewrite checkVisibleWindows_run by done; by rewrite Hgone).
  assert (Hagain : checkVisibleWindows newResourceFromPool fuel m1 = Some m1).
  { rewrite checkVisibleWindows_run by (rewrite ?Hx; done).
    rewrite (windowsGoneThrough_same m m1), Hgone by done.
    f_equal. by apply windowsRun_nothing_fresh. }
  assert (Hother : forall k, k ∉ gone -> windows m1 !! k = windows m !! k)
    by (intros k Hk; by apply windowsRun_windows_other).
  assert (Hcorner : corner = first + (- viewportX (view m)) / viewportW (view m)).
  { unfold corner, windowAt, first. rewrite Hvy, Z.opp_involutive, Z.div_mul by lia. done. }
  exists m1, shown. split; [done|]. split.
  { intros [|n] Hn; [lia|]. simpl. rewrite Hfirst.
    by apply checkVisibleWindowsTimes_fixed. }
  do 6 (split; [done|]).
  split.
  { intros Hx0. rewrite Hcorner, Z.div_small by lia. lia. }
  split.
  { intros Hx2.
    assert (2 <= (- viewportX (view m)) / viewportW (view m))
      by (apply Z.div_le_lower_bound; lia).
    assert (Hout : corner ∉ gone).
    { unfold gone. destruct (remTruthy _ _);
        rewrite ?elem_of_cons, elem_of_nil; lia. }
    split; [done|by apply Hother]. }
  intros k. rewrite reset_windows. apply Hdom.
Qed.

End Windows.

Lemma windows_populated_from_row_start_witness :
  let m := windowRowsDemo (-200) (-100) in
  let first := 1 * maxWinX m in
  let gone := first :: (if remTruthy (viewportX (view m)) (viewportW (view m))
                        then [first + 1] else []) in
  let corner := windowAt m (- viewportX (view m)) (- viewportY (view m)) in
  exists m1 shown,
    checkVisibleWindows countingPool 3 m = Some m1 /\
    (forall n, (1 <= n)%nat -> checkVisibleWindowsTimes countingPool 3 n m = Some m1) /\
    NoDup shown /\
    (forall k, k ∈ shown <-> k ∈ gone /\ notYetDisplayed m k) /\
    rmCalls m1 = rmCalls m ++ (shown ≫= windowRequests m) /\
    length (objects m1) = (length (objects m) + length (shown ≫= windowRequests m))%nat /\
    (forall k, k ∈ gone -> ~ notYetDisplayed m1 k) /\
    (forall k, k ∉ gone -> windows m1 !! k = windows m !! k) /\
    (- viewportW (view m) < viewportX (view m) <= 0 -> corner = first) /\
    (viewportX (view m) <= - (2 * viewportW (view m)) ->
     (corner ∉ gone) /\ windows m1 !! corner = windows m !! corner) /\
    (forall k, notYetDisplayed (reset m1) k <-> is_Some (windows m !! k)).
Proof.
  apply (windows_populated_from_row_start countingPool 3 (windowRowsDemo (-200) (-100)) 1).
  - by vm_compute.
  - lia.
  - simpl. lia.
  - simpl. lia.
  - lia.
  - reflexivity.
  - simpl. lia.
  - by vm_compute.
Defined.

(** On the demo map with the viewport over window 5 (third column, second
    row), any number of calls asks for the item of window 3 only: window
    5, which fills the viewport, is still not displayed. *)
Example window_in_view_not_populated :
  let m := windowRowsDemo (-200) (-100) in
  windowAt m 200 100 = 5 /\
  windowsGoneThrough m = [3] /\
  (rmCalls <$> checkVisibleWindowsTimes countingPool 3 4 m) = Some [("door", [])] /\
  ((fun m' => displayed <$> windows m' !! 5) <$> checkVisibleWindowsTimes countingPool 3 4 m)
  = Some (Some false).
Proof. by vm_compute. Qed.

(** Between two rows the index is not that of a row's first window: 232
    pixels down with 200-pixel windows, 25 to a row, the double
    [232 / 200 * 25] is just below 29 and the loop goes through windows 28
    and 53, where the viewport lies over windows 25 and 50. *)
Example windows_between_rows :
  startIndex windowBandDemo = 28 /\
  windowsGoneThrough windowBandDemo = [28; 53] /\
  windowAt windowBandDemo 0 232 = 25 /\ windowAt windowBandDemo 0 431 = 50.
Proof. by vm_compute. Qed.

(** On the demo map, half a window to the right: windows 0 and 1 are gone
    through, three objects are asked for on the first call and none on the
    second. *)
Example windows_twice_spawn_once :
  windowsGoneThrough (windowDemo (-50)) = [0; 1] /\
  (rmCalls <$> checkVisibleWindowsTimes countingPool 3 1 (windowDemo (-50)))
  = Some [("player", []); ("enemy", []); ("bonus", [])] /\
  (rmCalls <$> checkVisibleWindowsTimes countingPool 3 2 (windowDemo (-50)))
  = Some [("player", []); ("enemy", []); ("bonus", [])] /\
  (objects <$> checkVisibleWindowsTimes countingPool 3 2 (windowDemo (-50)))
  = Some [0%nat; 1%nat; 2%nat].
Proof. by vm_compute. Qed.

(** * More properties *)

(** ** Tiles and pixels *)

(** X1.  Every pixel of a tile is mapped back to that tile, its corner
    ([getTilePixelPos]) included. *)
Theorem pixel_of_tile_round_trip (g : TileGrid) (col row dx dy : Z) :
  0 < tileWidth g -> 0 < tileHeight g ->
  0 <= col -> 0 <= row ->
  0 <= dx < tileWidth g -> 0 <= dy < tileHeight g ->
  col * tileWidth g + dx < 2 ^ 31 -> row * tileHeight g + dy < 2 ^ 31 ->
  getTileIndexFromPixel g (px (getTilePixelPos g col row) + dx)
                          (py (getTilePixelPos g col row) + dy)
  = mkPos col row.
Proof.
  intros Htw Hth Hc Hr Hdx Hdy Bx By.
  unfold getTileIndexFromPixel, getTilePixelPos. simpl.
  rewrite !idiv_nonneg by nia.
  f_equal.
  - symmetry. apply (Z.div_unique _ _ col dx); lia.
  - symmetry. apply (Z.div_unique _ _ row dy); lia.
Qed.

Lemma pixel_of_tile_round_trip_witness :
  getTileIndexFromPixel (grid4 (replicate 16 0))
    (px (getTilePixelPos (grid4 (replicate 16 0)) 2 1) + 9)
    (py (getTilePixelPos (grid4 (replicate 16 0)) 2 1) + 0)
  = mkPos 2 1.
Proof.
  apply (pixel_of_tile_round_trip (grid4 (replicate 16 0)) 2 1 9 0); simpl; lia.
Defined.

(** X2.  [fallTest] is the hit test of the rectangle reduced to the pixel, for
    the wall code: the two agree on every pixel, inside the map or not. *)
Theorem fallTest_is_point_hitObjectTest (TYPE_WALL : Z) (g : TileGrid) (x y : Z) :
  fallTest TYPE_WALL g x y
  = bool_decide (is_Some (hitObjectTest g x y x y TYPE_WALL)).
Proof.
  unfold fallTest, hitObjectTest, span.
  set (pos := getTileIndexFromPixel g x y).
  replace (Z.to_nat (px pos - px pos + 1)) with 1%nat by lia.
  replace (Z.to_nat (py pos - py pos + 1)) with 1%nat by lia.
  replace (px pos + py pos * numCols g) with (py pos * numCols g + px pos) by lia.
  cbn [hitCols hitRows].
  destruct (strictEq _ _).
  - symmetry. apply bool_decide_eq_true_2. eexists. reflexivity.
  - symmetry. apply bool_decide_eq_false_2. intros [p Hp]. discriminate Hp.
Qed.

(** ** Triggers *)

Lemma tile_in_range b n a a2 i :
  0 < b -> 0 <= a -> a2 < n * b ->
  i * b <= a2 /\ a < (i + 1) * b -> 0 <= i < n.
Proof.
  intros Hb Ha Ha2 [H1 H2].
  apply tile_le_pixel in H1; [|done]. apply pixel_lt_tile in H2; [|done].
  pose proof (Z.div_pos a b Ha Hb).
  assert (a2 / b < n) by (apply Z.div_lt_upper_bound; lia).
  lia.
Qed.

(** X3.  For a box of non-negative pixels inside the map, [getTriggersForBox]
    collects exactly the triggers that exist, have not fired and sit on a
    tile the box meets, each of them once. *)
Theorem getTriggersForBox_collects_covered (m : Map) (x y x2 y2 : Z) :
  let g := grid m in
  0 < tileWidth g -> 0 < tileHeight g ->
  0 <= x <= x2 -> 0 <= y <= y2 ->
  x2 < numCols g * tileWidth g -> y2 < numRows g * tileHeight g ->
  x2 < 2 ^ 31 -> y2 < 2 ^ 31 ->
  NoDup (getTriggersForBox m x y x2 y2) /\
  forall k, k ∈ getTriggersForBox m x y x2 y2 <->
            exists p trigger,
              cellMeets g x y x2 y2 p /\ k = py p * numCols g + px p /\
              triggers m !! k = Some trigger /\ triggered trigger = false.
Proof.
  intros g Htw Hth Hx Hy Hx2 Hy2 Bx By.
  unfold getTriggersForBox, getTileIndexFromPixel. fold g. simpl.
  rewrite !idiv_nonneg by lia.
  assert (Hcol : forall i, x / tileWidth g <= i < x / tileWidth g
                                               + (x2 / tileWidth g - x / tileWidth g + 1) <->
                           i * tileWidth g <= x2 /\ x < (i + 1) * tileWidth g).
  { intros i. rewrite <- tile_le_pixel, <- pixel_lt_tile by lia. lia. }
  assert (Hrow : forall j, y / tileHeight g <= j < y / tileHeight g
                                                + (y2 / tileHeight g - y / tileHeight g + 1) <->
                           j * tileHeight g <= y2 /\ y < (j + 1) * tileHeight g).
  { intros j. rewrite <- tile_le_pixel, <- pixel_lt_tile by lia. lia. }
  assert (Hin : forall i, i * tileWidth g <= x2 /\ x < (i + 1) * tileWidth g ->
                          0 <= i < numCols g)
    by (intros i; apply tile_in_range; lia).
  assert (Hinr : forall j, j * tileHeight g <= y2 /\ y < (j + 1) * tileHeight g ->
                           0 <= j < numRows g)
    by (intros j; apply tile_in_range; lia).
  set (cell := fun i j : Z =>
         match triggers m !! (j * numCols g + i) with
         | Some trigger => if negb (triggered trigger) then [j * numCols g + i] else []
         | None => []
         end).
  assert (Hcell : forall i j k, k ∈ cell i j ->
            k = j * numCols g + i /\
            exists trigger, triggers m !! k = Some trigger /\ triggered trigger = false).
  { intros i j k. unfold cell.
    destruct (triggers m !! (j * numCols g + i)) as [trigger|] eqn:E;
      [|by intros ?%elem_of_nil].
    destruct (triggered trigger) eqn:Ht; simpl; [by intros ?%elem_of_nil|].
    intros ->%list_elem_of_singleton. eauto. }
  split.
  - apply NoDup_bind; [| |apply NoDup_seqZ].
    + intros i i' k Hi%elem_of_seqZ Hi'%elem_of_seqZ
             (j & Hk & Hj%elem_of_seqZ)%list_elem_of_bind
             (j' & Hk' & Hj'%elem_of_seqZ)%list_elem_of_bind.
      apply Hcell in Hk as [-> _]. apply Hcell in Hk' as [Hk' _].
      apply Hcol, Hin in Hi. apply Hcol, Hin in Hi'.
      by destruct (cell_index_inj (numCols g) i j i' j' Hi Hi' Hk').
    + intros i Hi%elem_of_seqZ. apply Hcol, Hin in Hi.
      apply NoDup_bind; [| |apply NoDup_seqZ].
      * intros j j' k _ _ Hk Hk'.
        apply Hcell in Hk as [-> _]. apply Hcell in Hk' as [Hk' _].
        by destruct (cell_index_inj (numCols g) i j i j' Hi Hi Hk').
      * intros j _. unfold cell. destruct (triggers m !! _) as [trigger|];
          [destruct (negb _)|]; try constructor; [by intros ?%elem_of_nil|constructor].
  - intros k. split.
    + intros (i & (j & Hk & Hj%elem_of_seqZ)%list_elem_of_bind & Hi%elem_of_seqZ)%list_elem_of_bind.
      apply Hcell in Hk as (-> & trigger & Ht & Hf).
      apply Hcol in Hi. apply Hrow in Hj.
      exists (mkPos i j), trigger. unfold cellMeets. simpl.
      specialize (Hin i Hi). specialize (Hinr j Hj). tauto.
    + intros (p & trigger & (_ & Hpx & Hpy) & -> & Ht & Hf).
      apply list_elem_of_bind. exists (px p). split; [|by apply elem_of_seqZ, Hcol].
      apply list_elem_of_bind. exists (py p). split; [|by apply elem_of_seqZ, Hrow].
      rewrite Ht, Hf. simpl. apply list_elem_of_here.
Qed.

Lemma getTriggersForBox_collects_covered_witness :
  let g := grid triggerDemo in
  NoDup (getTriggersForBox triggerDemo 10 10 15 15) /\
  forall k, k ∈ getTriggersForBox triggerDemo 10 10 15 15 <->
            exists p trigger,
              cellMeets g 10 10 15 15 p /\ k = py p * numCols g + px p /\
              triggers triggerDemo !! k = Some trigger /\ triggered trigger = false.
Proof.
  apply (getTriggersForBox_collects_covered triggerDemo 10 10 15 15); simpl; lia.
Defined.

(** X4.  A trigger that has fired is collected for no box, is left as it is by
    [checkForTriggers] whatever the handler answers, and is made ready
    again by [reset()]. *)
Theorem fired_trigger_stays_fired
    (handleEvent : list MapEventCall -> Trigger -> bool)
    (m : Map) (k : Z) (trigger : Trigger) :
  triggers m !! k = Some trigger ->
  triggered trigger = true ->
  (forall x y x2 y2, k ∉ getTriggersForBox m x y x2 y2) /\
  triggers (checkForTriggers handleEvent m) !! k = Some trigger /\
  triggers (reset m) !! k = Some (mkTrigger false (trigData trigger)).
Proof.
  intros Hk Hfired.
  assert (Hnot : forall x y x2 y2, k ∉ getTriggersForBox m x y x2 y2).
  { intros x y x2 y2 (t' & Ht' & Hf)%getTriggersForBox_collected. congruence. }
  split; [done|]. split.
  - unfold checkForTriggers. destruct (_ ≫= _) as [mo|]; [|done].
    rewrite dispatchTriggers_other; [done|]. apply Hnot.
  - unfold reset. simpl. by rewrite lookup_fmap, Hk.
Qed.

Lemma fired_trigger_stays_fired_witness :
  let m := checkForTriggers (constHandler false) triggerDemo in
  (forall x y x2 y2, 5 ∉ getTriggersForBox m x y x2 y2) /\
  triggers (checkForTriggers (constHandler true) m) !! 5 = Some (mkTrigger true "door") /\
  triggers (reset m) !! 5 = Some (mkTrigger false (trigData (mkTrigger true "door"))).
Proof.
  apply (fired_trigger_stays_fired (constHandler true)
           (checkForTriggers (constHandler false) triggerDemo) 5 (mkTrigger true "door")).
  - by vm_compute.
  - reflexivity.
Defined.

(** ** The scroll controller, continued *)

(** X5.  A request repeated right away changes nothing, whatever the clock
    says: once a scroll has started every further request is dropped, and
    a request that was dropped is dropped again.  (The second, identical
    call to [moveTo] in [checkMasterPosition] has no effect.) *)
Theorem moveTo_repeated (now now' x y : Z) (m : Map) :
  moveTo now' (moveTo now m x y) x y = moveTo now m x y /\
  (moving (scroll (moveTo now m x y)) = true ->
   forall x' y', moveTo now' (moveTo now m x y) x' y' = moveTo now m x y).
Proof.
  split.
  - destruct (moving (scroll (moveTo now m x y))) eqn:Hm.
    + by apply moveTo_while_moving.
    + unfold moveTo in *.
      destruct (negb (moving (scroll m)) && _) eqn:Hc; [discriminate Hm|].
      by rewrite Hc.
  - intros Hm x' y'. by apply moveTo_while_moving.
Qed.

(** ** The planes *)

Lemma readU8_of_nat (a : list Z) (i : nat) : readU8 a (Z.of_nat i) = a !! i.
Proof.
  unfold readU8. destruct (Z.leb_spec 0 (Z.of_nat i)); [|lia]. by rewrite Nat2Z.id.
Qed.

Lemma readU8_writeU8_same a i v :
  readU8 (writeU8 a i v) i
  = if decide (0 <= i < Z.of_nat (length a)) then Some (v mod 256) else None.
Proof.
  destruct (decide _) as [Hi|Hi].
  - by apply readU8_writeU8_eq.
  - apply readU8_outside. by rewrite length_writeU8.
Qed.

(** Reading after a series of writes of the same value. *)
Lemma foldl_writeU8_length (h : Z -> Z) v js a :
  length (foldl (fun a j => writeU8 a (h j) v) a js) = length a.
Proof.
  revert a. induction js as [|j js IH]; intros a; simpl; [done|].
  by rewrite IH, length_writeU8.
Qed.

Lemma foldl_writeU8_read (h : Z -> Z) v js a k :
  readU8 (foldl (fun a j => writeU8 a (h j) v) a js) k
  = if decide (k ∈ h <$> js)
    then (if decide (0 <= k < Z.of_nat (length a)) then Some (v mod 256) else None)
    else readU8 a k.
Proof.
  revert a. induction js as [|j js IH]; intros a; simpl.
  - done.
  - rewrite IH, length_writeU8.
    destruct (decide (k ∈ h <$> js)) as [Hin|Hout];
      destruct (decide (k ∈ h j :: _)) as [Hin'|Hout']; try done.
    + exfalso. apply Hout'. by apply list_elem_of_further.
    + apply elem_of_cons in Hin' as [->|?]; [|done].
      apply readU8_writeU8_same.
    + apply readU8_writeU8_ne. intros <-. apply Hout'. apply list_elem_of_here.
Qed.

Lemma clear_rows t b i js g :
  let g' := foldl (clearCell t b i) g js in
  map g' = foldl (fun a j => writeU8 a (j * numCols g + i) t) (map g) js /\
  tileBehaviors g'
  = foldl (fun a j => writeU8 a (j * numCols g + i) b) (tileBehaviors g) js /\
  numCols g' = numCols g /\ numRows g' = numRows g /\
  tileWidth g' = tileWidth g /\ tileHeight g' = tileHeight g.
Proof.
  revert g. induction js as [|j js IH]; intros g; simpl; [done|].
  destruct (IH (clearCell t b i g j)) as (-> & -> & -> & -> & -> & ->). done.
Qed.

(** After the columns [cols]: a byte is either as before or replaced by the
    new value, in both planes, and it is replaced at every row of the grid
    in these columns. *)
Lemma clear_columns t b cols g :
  0 <= numRows g ->
  let g' := foldl (fun g i => foldl (clearCell t b i) g (seqZ 0 (numRows g))) g cols in
  numCols g' = numCols g /\ numRows g' = numRows g /\
  tileWidth g' = tileWidth g /\ tileHeight g' = tileHeight g /\
  length (map g') = length (map g) /\
  length (tileBehaviors g') = length (tileBehaviors g) /\
  forall k, 0 <= k < Z.of_nat (length (map g)) ->
            0 <= k < Z.of_nat (length (tileBehaviors g)) ->
            let new := readU8 (map g') k = Some (t mod 256) /\
                       readU8 (tileBehaviors g') k = Some (b mod 256) in
            (new \/ (readU8 (map g') k = readU8 (map g) k /\
                     readU8 (tileBehaviors g') k = readU8 (tileBehaviors g) k)) /\
            ((exists i j, i ∈ cols /\ 0 <= j < numRows g /\ k = j * numCols g + i) -> new).
Proof.
  intros Hnr. revert g Hnr.
  induction cols as [|i cols IH]; intros g Hnr; simpl.
  - do 6 (split; [done|]). intros k Hk1 Hk2. split; [by right|].
    by intros (i & j & Hi%elem_of_nil & _).
  - destruct (clear_rows t b i (seqZ 0 (numRows g)) g) as (Hm & Hb & Hc & Hr & Hw & Hh).
    set (g1 := foldl (clearCell t b i) g (seqZ 0 (numRows g))) in *.
    destruct (IH g1 ltac:(lia)) as (-> & -> & -> & -> & -> & -> & Hread).
    rewrite Hc, Hr, Hw, Hh, Hm, Hb, !foldl_writeU8_length.
    do 6 (split; [done|]).
    intros k Hk1 Hk2.
    specialize (Hread k).
    rewrite Hm, Hb, !foldl_writeU8_length, Hc, Hr in Hread.
    destruct (Hread Hk1 Hk2) as [Hcases Hwritten]. clear Hread.
    rewrite !foldl_writeU8_read in Hcases.
    destruct (decide (0 <= k < Z.of_nat (length (map g)))); [|lia].
    destruct (decide (0 <= k < Z.of_nat (length (tileBehaviors g)))); [|lia].
    destruct (decide (k ∈ (fun j0 => j0 * numCols g + i) <$> seqZ 0 (numRows g)))
      as [Hcol|Hcol].
    + assert (Hnew : readU8 (map (foldl (fun g0 i0 =>
                         foldl (clearCell t b i0) g0 (seqZ 0 (numRows g0))) g1 cols)) k
                     = Some (t mod 256) /\
                     readU8 (tileBehaviors (foldl (fun g0 i0 =>
                         foldl (clearCell t b i0) g0 (seqZ 0 (numRows g0))) g1 cols)) k
                     = Some (b mod 256)) by (destruct Hcases as [?|[? ?]]; done).
      split; [by left|done].
    + split; [done|].
      intros (i' & j & Hi' & Hj & Hkeq).
      destruct (decide (i' ∈ cols)) as [Hin|Hout]; [apply Hwritten; eauto|].
      apply elem_of_cons in Hi' as [->|Hi']; [|done].
      exfalso. apply Hcol.
      apply list_elem_of_fmap. exists j. split; [done|]. apply elem_of_seqZ. lia.
Qed.

(** X6.  On a grid whose planes have [numCols * numRows] cells,
    [clear(tileNum, behavior)] leaves every cell of the visual plane at
    [tileNum] and every cell of the behavior plane at [behavior] (as
    bytes); the dimensions are kept and the map is not marked dirty. *)
Theorem clear_fills_planes (m : Map) (tileNum behavior : Z) :
  let g := grid m in
  let g' := grid (clear m tileNum behavior) in
  0 <= numCols g -> 0 <= numRows g ->
  Z.of_nat (length (map g)) = numCols g * numRows g ->
  Z.of_nat (length (tileBehaviors g)) = numCols g * numRows g ->
  map g' = replicate (length (map g)) (tileNum mod 256) /\
  tileBehaviors g' = replicate (length (tileBehaviors g)) (behavior mod 256) /\
  numCols g' = numCols g /\ numRows g' = numRows g /\
  isDirty (clear m tileNum behavior) = isDirty m.
Proof.
  intros g g' Hnc Hnr Hlm Hlb.
  destruct (clear_columns tileNum behavior (seqZ 0 (numCols g)) g Hnr)
    as (Hc & Hr & _ & _ & Hlen1 & Hlen2 & Hread).
  assert (Hcell : forall idx : nat, (idx < length (map g))%nat ->
            map g' !! idx = Some (tileNum mod 256) /\
            tileBehaviors g' !! idx = Some (behavior mod 256)).
  { intros idx Hidx. rewrite <- !readU8_of_nat.
    apply (Hread (Z.of_nat idx)); [lia|lia|].
    assert (0 < numCols g) by nia.
    exists (Z.of_nat idx mod numCols g), (Z.of_nat idx / numCols g).
    pose proof (Z.mod_pos_bound (Z.of_nat idx) (numCols g) ltac:(lia)).
    split; [apply elem_of_seqZ; lia|]. split.
    - split; [apply Z.div_pos; lia|]. apply Z.div_lt_upper_bound; lia.
    - pose proof (Z.div_mod (Z.of_nat idx) (numCols g) ltac:(lia)). lia. }
  split; [|split; [|done]].
  - apply list_eq. intros idx.
    destruct (decide (idx < length (map g))%nat) as [Hlt|Hge].
    + rewrite lookup_replicate_2 by done. by apply Hcell.
    + rewrite (proj1 (lookup_replicate_None _ _ _)) by lia.
      apply lookup_ge_None. unfold g', clear. simpl. fold g. lia.
  - apply list_eq. intros idx.
    destruct (decide (idx < length (tileBehaviors g))%nat) as [Hlt|Hge].
    + rewrite lookup_replicate_2 by done. apply Hcell. lia.
    + rewrite (proj1 (lookup_replicate_None _ _ _)) by lia.
      apply lookup_ge_None. unfold g', clear. simpl. fold g. lia.
Qed.

Lemma clear_fills_planes_witness :
  let g := grid scrollDemo in
  let g' := grid (clear scrollDemo 7 300) in
  map g' = replicate (length (map g)) (7 mod 256) /\
  tileBehaviors g' = replicate (length (tileBehaviors g)) (300 mod 256) /\
  numCols g' = numCols g /\ numRows g' = numRows g /\
  isDirty (clear scrollDemo 7 300) = isDirty scrollDemo.
Proof.
  apply (clear_fills_planes scrollDemo 7 300); simpl; lia.
Defined.

(** X7.  The constructor accepts any buffer that holds at least one plane: the
    visual plane is its first [numCols * numRows] bytes and the behavior
    plane all the bytes that follow, so the two planes have the same
    length only for a buffer of twice that size.  It throws exactly when
    the buffer is shorter than one plane (or the plane size is negative). *)
Theorem construct_splits_buffer (o : Options) :
  match construct o with
  | Some m =>
      let g := grid m in
      map g ++ tileBehaviors g = o_buffer o /\
      Z.of_nat (length (map g)) = numCols g * numRows g /\
      Z.of_nat (length (tileBehaviors g))
      = Z.of_nat (length (o_buffer o)) - numCols g * numRows g /\
      numCols g = idiv (width m) (tileWidth g) /\
      numRows g = idiv (height m) (tileHeight g)
  | None =>
      let size := idiv (orElse (o_width o) 1024) (orElse (o_tileWidth o) 64)
                  * idiv (orElse (o_height o) 1024) (orElse (o_tileHeight o) 32) in
      size < 0 \/ Z.of_nat (length (o_buffer o)) < size
  end.
Proof.
  unfold construct, setBuffer.
  set (size := idiv _ _ * idiv _ _).
  destruct (Z.leb_spec 0 size); destruct (Z.leb_spec size (Z.of_nat (length (o_buffer o))));
    simpl; try lia.
  rewrite take_drop, length_take, length_drop. repeat split; lia.
Qed.

(** ** [setData] *)

Lemma arraySet_Some target offset src :
  (offset + length src <= length target)%nat ->
  arraySet target offset src
  = Some (take offset target ++ src ++ drop (offset + length src) target).
Proof.
  intros H. unfold arraySet. by destruct (Nat.leb_spec (offset + length src) (length target)); [|lia].
Qed.

Lemma arraySet_None target offset src :
  (length target < offset + length src)%nat -> arraySet target offset src = None.
Proof.
  intros H. unfold arraySet. by destruct (Nat.leb_spec (offset + length src) (length target)); [lia|].
Qed.

Lemma toBytes_bytes src : Forall (fun v => 0 <= v < 256) src -> toBytes src = src.
Proof.
  unfold toBytes. induction 1 as [|v src Hv _ IH]; [done|]. csimpl.
  by rewrite IH, Z.mod_small.
Qed.

(** X8.  [setData(map, behaviors)] then reading the planes: each plane is its
    source, as bytes, followed by zeros up to [numCols * numRows] cells;
    for sources of exactly that many bytes the planes are the sources.
    A [behaviors] source longer than a plane is refused. *)
Theorem setData_round_trip (m : Map) (mapSrc behSrc : list Z) :
  let g := grid m in
  let n := Z.to_nat (numCols g * numRows g) in
  0 <= numCols g * numRows g ->
  (length mapSrc <= n)%nat ->
  ((length behSrc <= n)%nat ->
   exists m',
     setData m mapSrc behSrc = Some m' /\
     map (grid m') = toBytes mapSrc ++ replicate (n - length mapSrc) 0 /\
     tileBehaviors (grid m') = toBytes behSrc ++ replicate (n - length behSrc) 0 /\
     numCols (grid m') = numCols g /\ numRows (grid m') = numRows g /\
     (length mapSrc = n -> length behSrc = n ->
      Forall (fun v => 0 <= v < 256) mapSrc -> Forall (fun v => 0 <= v < 256) behSrc ->
      map (grid m') = mapSrc /\ tileBehaviors (grid m') = behSrc)) /\
  ((n < length behSrc)%nat -> setData m mapSrc behSrc = None).
Proof.
  intros g n Hsize Hlm.
  assert (Hlb1 : length (toBytes mapSrc) = length mapSrc) by apply length_fmap.
  assert (Hlb2 : length (toBytes behSrc) = length behSrc) by apply length_fmap.
  unfold setData. fold g. destruct (Z.ltb_spec (numCols g * numRows g) 0); [lia|]. fold n.
  rewrite arraySet_Some by (rewrite length_replicate; lia). simpl.
  rewrite Hlb1, drop_replicate.
  match goal with |- context [arraySet ?a n _] => set (a1 := a) end.
  assert (Ha1 : a1 = toBytes mapSrc ++ replicate (2 * n - length mapSrc) 0).
  { unfold a1. by replace (n + (n + 0))%nat with (2 * n)%nat by lia. }
  assert (Hla1 : length a1 = (2 * n)%nat).
  { rewrite Ha1, length_app, length_replicate. lia. }
  split.
  - intros Hlb.
    rewrite arraySet_Some by lia. simpl.
    assert (Htake : take n a1 = toBytes mapSrc ++ replicate (n - length mapSrc) 0).
    { rewrite Ha1, take_app, take_ge by lia.
      rewrite take_replicate, Hlb1. do 2 f_equal. lia. }
    assert (Hdrop : drop (n + length (toBytes behSrc)) a1 = replicate (n - length behSrc) 0).
    { rewrite Ha1, drop_app, drop_ge by lia.
      rewrite drop_replicate, Hlb1, Hlb2. simpl. f_equal. lia. }
    rewrite Hdrop, Htake.
    set (front := toBytes mapSrc ++ replicate (n - length mapSrc) 0).
    assert (Hlf : length front = n).
    { unfold front. rewrite length_app, length_replicate. lia. }
    eexists. split; [reflexivity|]. simpl.
    assert (H1 : take n (front ++ toBytes behSrc ++ replicate (n - length behSrc) 0) = front)
      by (by apply take_app_length').
    assert (H2 : take n (drop n (front ++ toBytes behSrc ++ replicate (n - length behSrc) 0))
                 = toBytes behSrc ++ replicate (n - length behSrc) 0).
    { rewrite drop_app_length' by done. apply take_ge.
      rewrite length_app, length_replicate. lia. }
    rewrite H1, H2.
    split; [done|]. split; [done|]. split; [done|]. split; [done|].
    intros Hn1 Hn2 Hb1 Hb2. unfold front.
    rewrite Hn1, Hn2, Nat.sub_diag, !toBytes_bytes by done. simpl.
    by rewrite !app_nil_r.
  - intros Hlong. by rewrite arraySet_None by lia.
Qed.

Lemma setData_round_trip_witness :
  let g := grid scrollDemo in
  let n := Z.to_nat (numCols g * numRows g) in
  ((length (replicate 16 2) <= n)%nat ->
   exists m',
     setData scrollDemo (replicate 16 1) (replicate 16 2) = Some m' /\
     map (grid m') = toBytes (replicate 16 1) ++ replicate (n - length (replicate 16 1)) 0 /\
     tileBehaviors (grid m')
     = toBytes (replicate 16 2) ++ replicate (n - length (replicate 16 2)) 0 /\
     numCols (grid m') = numCols g /\ numRows (grid m') = numRows g /\
     (length (replicate 16 1) = n -> length (replicate 16 2) = n ->
      Forall (fun v => 0 <= v < 256) (replicate 16 1) ->
      Forall (fun v => 0 <= v < 256) (replicate 16 2) ->
      map (grid m') = replicate 16 1 /\ tileBehaviors (grid m') = replicate 16 2)) /\
  ((n < length (replicate 16 2))%nat ->
   setData scrollDemo (replicate 16 1) (replicate 16 2) = None).
Proof.
  apply (setData_round_trip scrollDemo (replicate 16 1) (replicate 16 2)).
  - simpl. lia.
  - simpl. lia.
Defined.

(** ** [shift] *)

Lemma arraySet_lookup target offset src r (i : nat) :
  arraySet target offset src = Some r ->
  r !! i = if decide (offset <= i < offset + length src)%nat
           then src !! (i - offset)%nat else target !! i.
Proof.
  unfold arraySet.
  destruct (Nat.leb_spec (offset + length src) (length target)) as [Hfit|]; [|done].
  intros [= <-].
  destruct (decide (i < offset)%nat) as [Hlt|Hge].
  - rewrite lookup_app_l by (rewrite length_take; lia).
    rewrite lookup_take_lt by done.
    by rewrite decide_False by lia.
  - rewrite lookup_app_r by (rewrite length_take; lia).
    rewrite length_take, Nat.min_l by lia.
    destruct (decide (i < offset + length src)%nat) as [Hin|Hout].
    + rewrite lookup_app_l by lia. by rewrite decide_True by lia.
    + rewrite lookup_app_r by lia. rewrite lookup_drop.
      rewrite decide_False by lia. f_equal. lia.
Qed.

Lemma arraySet_length target offset src r :
  arraySet target offset src = Some r -> length r = length target.
Proof.
  unfold arraySet.
  destruct (Nat.leb_spec (offset + length src) (length target)) as [Hfit|]; [|done].
  intros [= <-]. rewrite !length_app, length_take, length_drop. lia.
Qed.

(** X9.  On a grid whose planes have [numCols * numRows] cells, [shift] with
    [startLine + height] rows at most [numRows] copies the first
    [startLine] rows of both planes [height] rows further down and marks
    the map dirty: a cell of the rows [height .. height + startLine - 1]
    takes the value of the cell [height] rows above it, every other cell
    keeps its value (the rows above [height] are not filled, the argument
    [tile] plays no part).  With more rows than the grid has, [shift]
    throws. *)
Theorem shift_copies_rows (m : Map) (startLine height tile : Z) :
  let g := grid m in
  0 < numCols g ->
  0 <= startLine -> 0 <= height ->
  Z.of_nat (length (map g)) = numCols g * numRows g ->
  Z.of_nat (length (tileBehaviors g)) = numCols g * numRows g ->
  (startLine + height <= numRows g ->
   exists m',
     shift m startLine height tile = Some m' /\
     isDirty m' = true /\
     forall c r, 0 <= c < numCols g -> 0 <= r < numRows g ->
       let from := if decide (height <= r < height + startLine) then r - height else r in
       readU8 (map (grid m')) (numCols g * r + c) = readU8 (map g) (numCols g * from + c) /\
       getTileBehaviorAtIndex (grid m') c r = getTileBehaviorAtIndex g c from) /\
  (numRows g < startLine + height ->
   shift m startLine height tile = None).
Proof.
  intros g Hnc Hsl Hh Hlm Hlb.
  assert (Hnr : 0 <= numRows g) by nia.
  unfold shift. fold g.
  set (n := startLine * numCols g). set (offset := height * numCols g).
  assert (Hn : 0 <= n) by (unfold n; nia).
  assert (Hoff : 0 <= offset) by (unfold offset; nia).
  rewrite length_app.
  destruct (Z.ltb_spec n 0); [lia|]. simpl.
  split.
  - intros Hfit.
    assert (Hnle : n + offset <= numCols g * numRows g) by (unfold n, offset; nia).
    destruct (Z.ltb_spec (Z.of_nat (length (map g) + length (tileBehaviors g))) n); [lia|].
    destruct (Z.ltb_spec (numCols g * numRows g) 0); [lia|].
    destruct (Z.ltb_spec (Z.of_nat (length (map g) + length (tileBehaviors g)))
                         (numCols g * numRows g + n)); [lia|].
    destruct (Z.ltb_spec offset 0); [lia|]. simpl.
    rewrite take_app_le by lia.
    assert (Hlt : length (take (Z.to_nat n) (map g)) = Z.to_nat n)
      by (rewrite length_take; lia).
    destruct (arraySet (map g) (Z.to_nat offset) (take (Z.to_nat n) (map g)))
      as [map'|] eqn:Emap; [|rewrite arraySet_Some in Emap by lia; done].
    simpl.
    pose proof (arraySet_length _ _ _ _ Emap) as Hlm'.
    rewrite drop_app_length' by lia.
    assert (Hlt2 : length (take (Z.to_nat n) (tileBehaviors g)) = Z.to_nat n)
      by (rewrite length_take; lia).
    destruct (arraySet (tileBehaviors g) (Z.to_nat offset) (take (Z.to_nat n) (tileBehaviors g)))
      as [beh'|] eqn:Ebeh; [|rewrite arraySet_Some in Ebeh by lia; done].
    simpl. eexists. split; [reflexivity|]. split; [done|].
    intros c r Hc Hr. simpl.
    unfold getTileBehaviorAtIndex. simpl.
    assert (Hidx : forall a a' : list Z,
              Z.of_nat (length a) = numCols g * numRows g ->
              arraySet a (Z.to_nat offset) (take (Z.to_nat n) a) = Some a' ->
              readU8 a' (numCols g * r + c)
              = readU8 a (numCols g * (if decide (height <= r < height + startLine)
                                       then r - height else r) + c)).
    { intros a a' Hla Ha.
      assert (0 <= numCols g * r + c < numCols g * numRows g) by nia.
      replace (numCols g * r + c) with (Z.of_nat (Z.to_nat (numCols g * r + c))) by lia.
      rewrite readU8_of_nat, (arraySet_lookup _ _ _ _ _ Ha), length_take, Nat.min_l by lia.
      destruct (decide (height <= r < height + startLine)) as [Hin|Hout].
      - rewrite decide_True by (unfold offset, n; nia).
        rewrite lookup_take_lt by (unfold offset, n; nia).
        rewrite <- readU8_of_nat. f_equal. unfold offset. nia.
      - rewrite decide_False by (unfold offset, n; nia).
        rewrite <- readU8_of_nat. f_equal. lia. }
    split; by apply Hidx.
  - intros Hover.
    destruct (Z.ltb_spec (Z.of_nat (length (map g) + length (tileBehaviors g))) n); [done|].
    destruct (Z.ltb_spec (numCols g * numRows g) 0); [lia|].
    destruct (Z.ltb_spec (Z.of_nat (length (map g) + length (tileBehaviors g)))
                         (numCols g * numRows g + n)); [done|].
    destruct (Z.ltb_spec offset 0); [lia|]. simpl.
    rewrite arraySet_None; [done|].
    rewrite length_take, length_app.
    assert (numCols g * numRows g < n + offset) by (unfold n, offset; nia).
    lia.
Qed.

Lemma shift_copies_rows_witness :
  let m := plainMap (grid4 (wallAt21 1 2)) (viewportAt 0 0 20 20 40 40) ∅ ∅ in
  let g := grid m in
  (2 + 1 <= numRows g ->
   exists m',
     shift m 2 1 9 = Some m' /\
     isDirty m' = true /\
     forall c r, 0 <= c < numCols g -> 0 <= r < numRows g ->
       let from := if decide (1 <= r < 1 + 2) then r - 1 else r in
       readU8 (map (grid m')) (numCols g * r + c) = readU8 (map g) (numCols g * from + c) /\
       getTileBehaviorAtIndex (grid m') c r = getTileBehaviorAtIndex g c from) /\
  (numRows g < 2 + 1 -> shift m 2 1 9 = None).
Proof.
  apply (shift_copies_rows
           (plainMap (grid4 (wallAt21 1 2)) (viewportAt 0 0 20 20 40 40) ∅ ∅) 2 1 9);
    simpl; lia.
Defined.

(** The behavior plane of the demo grid, wall at (col 2, row 1), after
    [shift(2, 1, 9)]: rows 0 and 1 land on rows 1 and 2, row 0 keeps its
    content and row 3 is untouched. *)
Example shift_demo :
  (tileBehaviors ∘ grid <$>
   shift (plainMap (grid4 (wallAt21 1 2)) (viewportAt 0 0 20 20 40 40) ∅ ∅) 2 1 9)
  = Some [1;1;1;1;  1;1;1;1;  1;1;2;1;  1;1;1;1].
Proof. by vm_compute. Qed.

(** ** [getTileAt] after [updateTile] *)

(** X10.  After [updateTile(col, row, tileNum, _)] with a byte [tileNum],
    [getTileAt] gives the tile [tiles[tileNum]] for every pixel of the
    cell (col, row). *)
Theorem updateTile_then_getTileAt {T : Type} (tiles : list T) (m : Map)
    (col row tileNum behavior x y : Z) :
  let g := grid m in
  0 < tileWidth g -> 0 < tileHeight g ->
  0 <= col < numCols g -> 0 <= row < numRows g ->
  Z.of_nat (length (map g)) = numCols g * numRows g ->
  -1 < tileNum < 256 ->
  col * tileWidth g <= x < (col + 1) * tileWidth g ->
  row * tileHeight g <= y < (row + 1) * tileHeight g ->
  x < 2 ^ 31 -> y < 2 ^ 31 ->
  getTileAt tiles (grid (updateTile m col row tileNum behavior)) x y
  = tiles !! Z.to_nat tileNum.
Proof.
  intros g Htw Hth Hc Hr Hlen Ht Hx Hy Bx By.
  unfold getTileAt, updateTile. fold g. simpl.
  rewrite !idiv_nonneg by nia.
  replace (x / tileWidth g) with col
    by (apply (Z.div_unique x (tileWidth g) col (x - col * tileWidth g)); lia).
  replace (y / tileHeight g) with row
    by (apply (Z.div_unique y (tileHeight g) row (y - row * tileHeight g)); lia).
  destruct (Z.gtb_spec tileNum (-1)); [|lia].
  replace (numCols g * row + col) with (row * numCols g + col) by lia.
  rewrite readU8_writeU8_eq by nia. simpl.
  by rewrite Z.mod_small by lia.
Qed.

Lemma updateTile_then_getTileAt_witness :
  getTileAt ["grass"; "rock"; "water"] (grid (updateTile scrollDemo 2 1 2 (-1))) 25 17
  = ["grass"; "rock"; "water"] !! Z.to_nat 2.
Proof.
  apply (updateTile_then_getTileAt ["grass"; "rock"; "water"] scrollDemo 2 1 2 (-1) 25 17);
    simpl; lia.
Defined.

(** ** The registry: [addObject] then [removeObject] *)

Lemma addObject_master m obj d layerIndex :
  drawables m !! obj = Some d ->
  let m' := addObject m obj layerIndex in
  masterObject m' = (if master d then Some obj else masterObject m) /\
  drawables m' !! obj
  = Some (if master d then set_obj_xy (set_layer d layerIndex) (startX m) (startY m)
          else set_layer d layerIndex) /\
  forall r, r <> obj -> drawables m' !! r = drawables m !! r.
Proof.
  intros Hd. simpl.
  assert (H1 : alter (fun d => set_layer d layerIndex) obj (drawables m) !! obj
               = Some (set_layer d layerIndex)) by (by rewrite lookup_alter_eq, Hd).
  unfold addObject. rewrite H1. simpl.
  assert (Hgoal :
    forall ds, ds = (if master d
                     then alter (fun d0 => set_obj_xy d0 (startX m) (startY m)) obj
                            (alter (fun d0 => set_layer d0 layerIndex) obj (drawables m))
                     else alter (fun d0 => set_layer d0 layerIndex) obj (drawables m)) ->
      ds !! obj = Some (if master d
                        then set_obj_xy (set_layer d layerIndex) (startX m) (startY m)
                        else set_layer d layerIndex) /\
      forall r, r <> obj -> ds !! r = drawables m !! r).
  { intros ds ->. destruct (master d).
    - split; [by rewrite lookup_alter_eq, H1|].
      intros r Hr. by rewrite !lookup_alter_ne.
    - split; [done|]. intros r Hr. by rewrite lookup_alter_ne. }
  destruct (decide (_ = Some 1)); [by split; [|apply Hgoal]|].
  destruct (decide (_ = Some 2)); [by split; [|apply Hgoal]|].
  destruct (decide (_ = Some 3)); by split; [|apply Hgoal].
Qed.

Lemma removeObject_frame m r :
  masterObject (removeObject m r) = masterObject m /\
  drawables (removeObject m r) = drawables m /\
  objects (removeObject m r) = removeFirst r (objects m).
Proof.
  unfold removeObject.
  destruct (contains r (enemies m)); [done|].
  by destruct (contains r (friendBullets m)).
Qed.

(** X11.  [removeObject] after [addObject], for a drawable that was on none of
    the lists: the list of objects and the two collision lists that
    [removeObject] searches are as before the two calls, and so is the
    platform list unless the drawable is a platform.  What [addObject] did
    to the drawable and to the map's master object stays: the layer is
    set, and a drawable with [master === true] is still the master object
    after its removal, placed at (startX, startY). *)
Theorem addObject_then_removeObject (m : Map) (obj : ObjRef) (d : Drawable) (layerIndex : Z) :
  drawables m !! obj = Some d ->
  obj ∉ objects m -> obj ∉ enemies m -> obj ∉ friendBullets m ->
  let m' := removeObject (addObject m obj layerIndex) obj in
  objects m' = objects m /\
  enemies m' = enemies m /\
  friendBullets m' = friendBullets m /\
  (collideGroup d <> Some 3 -> platforms m' = platforms m) /\
  masterObject m' = (if master d then Some obj else masterObject m) /\
  drawables m' !! obj
  = Some (if master d then set_obj_xy (set_layer d layerIndex) (startX m) (startY m)
          else set_layer d layerIndex).
Proof.
  intros Hd Hob Hen Hfb. simpl.
  destruct (addObject_lists m obj d layerIndex Hd) as (Ho & He & Hf & Hp).
  destruct (addObject_master m obj d layerIndex Hd) as (Hm & Hdr & _).
  destruct (removeObject_frame (addObject m obj layerIndex) obj) as (Hm' & Hdr' & Ho').
  rewrite Hm', Hdr', Ho', Ho, removeFirst_app_last, removeObject_platforms by done.
  split; [done|].
  assert (Hlists : enemies (removeObject (addObject m obj layerIndex) obj) = enemies m /\
                   friendBullets (removeObject (addObject m obj layerIndex) obj)
                   = friendBullets m).
  { unfold removeObject, contains. rewrite He, Hf.
    destruct (decide (collideGroup d = Some 1)) as [H1|H1].
    - rewrite bool_decide_eq_true_2 by (apply elem_of_app; right; apply list_elem_of_here).
      simpl. rewrite removeFirst_app_last by done.
      destruct (decide (collideGroup d = Some 2)); [congruence|done].
    - rewrite bool_decide_eq_false_2 by done.
      destruct (decide (collideGroup d = Some 2)) as [H2|H2].
      + rewrite bool_decide_eq_true_2 by (apply elem_of_app; right; apply list_elem_of_here).
        simpl. by rewrite removeFirst_app_last.
      + by rewrite bool_decide_eq_false_2. }
  destruct Hlists as [-> ->]. do 2 (split; [done|]).
  split; [|done].
  intros Hg. rewrite Hp. by destruct (decide (collideGroup d = Some 3)).
Qed.

Lemma addObject_then_removeObject_witness :
  let m := registryDemo 1 in
  let d := mkDrawable 0 0 0 0 (mkBox 0 0 9 9) (Some 1) false 0 in
  let m' := removeObject (addObject m 7%nat 4) 7%nat in
  objects m' = objects m /\
  enemies m' = enemies m /\
  friendBullets m' = friendBullets m /\
  (collideGroup d <> Some 3 -> platforms m' = platforms m) /\
  masterObject m' = (if master d then Some 7%nat else masterObject m) /\
  drawables m' !! 7%nat
  = Some (if master d then set_obj_xy (set_layer d 4) (startX m) (startY m)
          else set_layer d 4).
Proof.
  apply (addObject_then_removeObject (registryDemo 1) 7%nat
           (mkDrawable 0 0 0 0 (mkBox 0 0 9 9) (Some 1) false 0) 4).
  - by vm_compute.
  - simpl. apply not_elem_of_nil.
  - simpl. apply not_elem_of_nil.
  - simpl. apply not_elem_of_nil.
Defined.

(** ** Checkpoints: [setStartXYFromMaster] and [respawn] *)

(** X12.  A checkpoint taken with [setStartXYFromMaster()] is where [respawn()]
    puts the master object back: whatever position the master has at the
    time of the respawn and whatever its own [reset()] does, it comes back
    at the coordinates it had when the checkpoint was taken; the map is
    marked dirty and no other drawable is touched.  Both calls throw when
    the map has no master object, as after [reset()]. *)
Theorem respawn_returns_to_checkpoint
    (resetSprite : Drawable -> Drawable) (m : Map) (r : ObjRef) (mo : Drawable) :
  masterObject m = Some r ->
  drawables m !! r = Some mo ->
  (exists m1,
     setStartXYFromMaster m = Some m1 /\
     startX m1 = obj_x mo /\ startY m1 = obj_y mo /\
     forall m2 mo2,
       masterObject m2 = Some r -> drawables m2 !! r = Some mo2 ->
       startX m2 = startX m1 -> startY m2 = startY m1 ->
       exists m3 d3,
         respawn resetSprite m2 = Some m3 /\
         drawables m3 !! r = Some d3 /\
         obj_x d3 = obj_x mo /\ obj_y d3 = obj_y mo /\
         isDirty m3 = true /\
         forall r', r' <> r -> drawables m3 !! r' = drawables m2 !! r') /\
  setStartXYFromMaster (reset m) = None /\
  respawn resetSprite (reset m) = None.
Proof.
  intros Hm Hd. split; [|done].
  unfold setStartXYFromMaster. rewrite Hm. simpl. rewrite Hd.
  eexists. split; [reflexivity|]. do 2 (split; [done|]).
  intros m2 mo2 Hm2 Hd2 Hx Hy. simpl in Hx, Hy.
  unfold respawn. rewrite Hm2, Hd2.
  eexists _, _. split; [reflexivity|]. simpl.
  rewrite lookup_insert_eq. split; [reflexivity|]. simpl.
  do 3 (split; [done|]).
  intros r' Hr'. by rewrite lookup_insert_ne.
Qed.

Lemma respawn_returns_to_checkpoint_witness :
  let m := masterDemo in
  let mo := mkDrawable 30 12 0 0 (mkBox 0 0 9 9) None true 2 in
  let resetSprite := fun d => set_obj_xy d 0 0 in
  (exists m1,
     setStartXYFromMaster m = Some m1 /\
     startX m1 = obj_x mo /\ startY m1 = obj_y mo /\
     forall m2 mo2,
       masterObject m2 = Some 1%nat -> drawables m2 !! 1%nat = Some mo2 ->
       startX m2 = startX m1 -> startY m2 = startY m1 ->
       exists m3 d3,
         respawn resetSprite m2 = Some m3 /\
         drawables m3 !! 1%nat = Some d3 /\
         obj_x d3 = obj_x mo /\ obj_y d3 = obj_y mo /\
         isDirty m3 = true /\
         forall r', r' <> 1%nat -> drawables m3 !! r' = drawables m2 !! r') /\
  setStartXYFromMaster (reset m) = None /\
  respawn resetSprite (reset m) = None.
Proof.
  apply (respawn_returns_to_checkpoint (fun d => set_obj_xy d 0 0) masterDemo 1%nat
           (mkDrawable 30 12 0 0 (mkBox 0 0 9 9) None true 2)).
  - reflexivity.
  - by vm_compute.
Defined.

(** ** The tiles [draw] goes through *)

Lemma remTruthy_mod a b :
  0 < b -> remTruthy a b = negb ((- a) mod b =? 0).
Proof.
  intros Hb. unfold remTruthy.
  destruct (Z.eqb_spec b 0); [lia|]. simpl. f_equal.
  destruct (Z.eqb_spec (Z.rem a b) 0) as [Hr|Hr];
    destruct (Z.eqb_spec ((- a) mod b) 0) as [Hm|Hm]; try done; exfalso.
  - apply Hm. apply Z.mod_divide; [lia|].
    apply Z.divide_opp_r. apply Z.rem_divide; [lia|done].
  - apply Hr. apply Z.rem_divide; [lia|].
    apply Z.mod_divide in Hm; [|lia]. apply Z.divide_opp_r in Hm.
    by rewrite Z.opp_involutive in Hm.
Qed.

(** One axis of [_getBoundariesTiles]: the tiles from [first] up to, not
    including, [last] cover [vsize] pixels from the viewport's position
    and go less than two tiles beyond them, [vsize] being the size the
    number of tiles was computed for. *)
Lemma axis_cover vp vsize tw :
  0 < tw ->
  let first := (- vp) / tw in
  let last := first + ceilQuot vsize tw + (if remTruthy vp tw then 1 else 0) in
  first * tw <= - vp < (first + 1) * tw /\
  - vp + vsize <= last * tw < - vp + vsize + 2 * tw.
Proof.
  intros Htw first last. unfold last, first, ceilQuot. rewrite remTruthy_mod by done.
  pose proof (Z.div_mod (- vp) tw ltac:(lia)) as H1.
  pose proof (Z.mod_pos_bound (- vp) tw Htw) as B1.
  pose proof (Z.div_mod (- vsize) tw ltac:(lia)) as H2.
  pose proof (Z.mod_pos_bound (- vsize) tw Htw) as B2.
  set (q1 := (- vp) / tw) in *. set (r1 := (- vp) mod tw) in *.
  set (q2 := (- vsize) / tw) in *. set (r2 := (- vsize) mod tw) in *.
  destruct (Z.eqb_spec r1 0); simpl; nia.
Qed.

(** X13.  The numbers of tiles per viewport are computed once, by the
    constructor, for the size the viewport has then.  In any later state
    of the map (same grid, same stored numbers), with tiles of positive
    size, the columns [firstCol .. lastCol - 1] and the rows
    [firstRow .. lastRow - 1] that [_getBoundariesTiles()] gives to the
    loops of [draw] start at the tile of the viewport's corner and cover a
    rectangle of the constructor's viewport size from there, with less
    than two tiles more.  So they cover the viewport as long as it is no
    larger than it was at construction, wherever it is; a viewport made
    two tiles wider (higher) or more by [setViewPort] is not covered. *)
Theorem boundaries_cover_viewport (o : Options) (m0 m : Map) :
  construct o = Some m0 ->
  grid m = grid m0 ->
  numViewportCols m = numViewportCols m0 ->
  numViewportRows m = numViewportRows m0 ->
  let g := grid m in
  let v := view m in
  let W0 := viewportW (view m0) in
  let H0 := viewportH (view m0) in
  0 < tileWidth g -> 0 < tileHeight g ->
  exists b,
    _getBoundariesTiles false m = Some b /\
    firstCol b * tileWidth g <= - viewportX v < (firstCol b + 1) * tileWidth g /\
    - viewportX v + W0 <= lastCol b * tileWidth g < - viewportX v + W0 + 2 * tileWidth g /\
    firstRow b * tileHeight g <= - viewportY v < (firstRow b + 1) * tileHeight g /\
    - viewportY v + H0 <= lastRow b * tileHeight g < - viewportY v + H0 + 2 * tileHeight g /\
    (viewportW v <= W0 -> - viewportX v + viewportW v <= lastCol b * tileWidth g) /\
    (viewportH v <= H0 -> - viewportY v + viewportH v <= lastRow b * tileHeight g) /\
    (W0 + 2 * tileWidth g <= viewportW v ->
     lastCol b * tileWidth g < - viewportX v + viewportW v) /\
    (H0 + 2 * tileHeight g <= viewportH v ->
     lastRow b * tileHeight g < - viewportY v + viewportH v).
Proof.
  intros Hc Hg Hcols Hrows g v W0 H0 Htw Hth.
  assert (Hcounts : numViewportCols m0 = ceilQuot W0 (tileWidth g) /\
                    numViewportRows m0 = ceilQuot H0 (tileHeight g)).
  { unfold W0, H0, g. rewrite Hg. revert Hc. unfold construct.
    destruct (setBuffer _ _ _ _ _) as [g0|] eqn:Eb; [|done].
    intros [= <-]. simpl. unfold setBuffer in Eb.
    destruct (_ && _); [|done]. by injection Eb as <-. }
  destruct Hcounts as [Hc0 Hr0].
  unfold _getBoundariesTiles, floorDiv. fold g v.
  destruct (Z.eqb_spec (tileWidth g) 0); [lia|].
  destruct (Z.eqb_spec (tileHeight g) 0); [lia|]. simpl.
  eexists. split; [reflexivity|]. simpl.
  rewrite Hcols, Hrows, Hc0, Hr0.
  destruct (axis_cover (viewportX v) W0 (tileWidth g) Htw) as (? & ?).
  destruct (axis_cover (viewportY v) H0 (tileHeight g) Hth) as (? & ?).
  repeat split; lia.
Qed.

Lemma boundaries_cover_viewport_witness :
  exists m0,
    construct offsetOptions = Some m0 /\
    let m := setViewPort m0 (-13) (-4) 2000 500 in
    let g := grid m in
    let v := view m in
    let W0 := viewportW (view m0) in
    let H0 := viewportH (view m0) in
    exists b,
      _getBoundariesTiles false m = Some b /\
      firstCol b * tileWidth g <= - viewportX v < (firstCol b + 1) * tileWidth g /\
      - viewportX v + W0 <= lastCol b * tileWidth g < - viewportX v + W0 + 2 * tileWidth g /\
      firstRow b * tileHeight g <= - viewportY v < (firstRow b + 1) * tileHeight g /\
      - viewportY v + H0 <= lastRow b * tileHeight g < - viewportY v + H0 + 2 * tileHeight g /\
      (viewportW v <= W0 -> - viewportX v + viewportW v <= lastCol b * tileWidth g) /\
      (viewportH v <= H0 -> - viewportY v + viewportH v <= lastRow b * tileHeight g) /\
      (W0 + 2 * tileWidth g <= viewportW v ->
       lastCol b * tileWidth g < - viewportX v + viewportW v) /\
      (H0 + 2 * tileHeight g <= viewportH v ->
       lastRow b * tileHeight g < - viewportY v + viewportH v).
Proof.
  destruct (construct offsetOptions) as [m0|] eqn:E; [|by vm_compute in E].
  exists m0. split; [done|].
  assert (Hm : tileWidth (grid m0) = 64 /\ tileHeight (grid m0) = 32).
  { pose proof E as E'. vm_compute in E'. by injection E' as <-. }
  apply (boundaries_cover_viewport offsetOptions m0 (setViewPort m0 (-13) (-4) 2000 500) E);
    try reflexivity; simpl; lia.
Defined.

(** On the demo map, built for a viewport of 20 by 20 pixels (2 by 2
    tiles): after [setViewPort(0, 0, 40, 40)] the columns stop at pixel
    20, half-way through the viewport. *)
Example boundaries_after_setViewPort :
  (lastCol <$> _getBoundariesTiles false (setViewPort scrollDemo 0 0 40 40)) = Some 2.
Proof. by vm_compute. Qed.

Lemma tileOffset_mod vp tw :
  0 < tw -> vp <= 0 -> tileOffset vp tw = Some ((- vp) mod tw).
Proof.
  intros Htw Hvp. unfold tileOffset.
  replace (Z.abs vp) with (- vp) by lia.
  destruct (Z.ltb_spec (- vp) tw).
  - by rewrite Z.mod_small by lia.
  - destruct (Z.eqb_spec tw 0); [lia|].
    by rewrite Z.rem_mod_nonneg by lia.
Qed.

(** X14.  For a viewport position that is not positive, the offsets of
    [_getTileOffset()] are those of the viewport's corner inside the tile
    (firstCol, firstRow) of [_getBoundariesTiles()]: [-viewportX] is
    [firstCol * tileWidth + tileOffsetX] with [0 <= tileOffsetX <
    tileWidth], and [scrollTileWidth], the width [draw] gives the first
    column, is what of that tile lies right of the viewport's left edge;
    the same holds vertically. *)
Theorem tileOffset_is_inside_first_tile (m : Map) :
  let g := grid m in
  let v := view m in
  0 < tileWidth g -> 0 < tileHeight g ->
  viewportX v <= 0 -> viewportY v <= 0 ->
  exists b ox oy sw sh,
    _getBoundariesTiles false m = Some b /\
    _getTileOffset m = Some (ox, oy, sw, sh) /\
    - viewportX v = firstCol b * tileWidth g + ox /\ 0 <= ox < tileWidth g /\
    - viewportY v = firstRow b * tileHeight g + oy /\ 0 <= oy < tileHeight g /\
    sw = (firstCol b + 1) * tileWidth g + viewportX v /\
    sh = (firstRow b + 1) * tileHeight g + viewportY v.
Proof.
  intros g v Htw Hth Hx Hy.
  unfold _getBoundariesTiles, _getTileOffset, floorDiv. fold g v.
  rewrite !tileOffset_mod by done.
  destruct (Z.eqb_spec (tileWidth g) 0); [lia|].
  destruct (Z.eqb_spec (tileHeight g) 0); [lia|]. simpl.
  eexists _, _, _, _, _. split; [reflexivity|]. split; [reflexivity|]. simpl.
  pose proof (Z.div_mod (- viewportX v) (tileWidth g) ltac:(lia)).
  pose proof (Z.mod_pos_bound (- viewportX v) (tileWidth g) Htw).
  pose proof (Z.div_mod (- viewportY v) (tileHeight g) ltac:(lia)).
  pose proof (Z.mod_pos_bound (- viewportY v) (tileHeight g) Hth).
  repeat split; lia.
Qed.

Lemma tileOffset_is_inside_first_tile_witness :
  let m := setViewPort scrollDemo (-13) (-4) 20 20 in
  let g := grid m in
  let v := view m in
  exists b ox oy sw sh,
    _getBoundariesTiles false m = Some b /\
    _getTileOffset m = Some (ox, oy, sw, sh) /\
    - viewportX v = firstCol b * tileWidth g + ox /\ 0 <= ox < tileWidth g /\
    - viewportY v = firstRow b * tileHeight g + oy /\ 0 <= oy < tileHeight g /\
    sw = (firstCol b + 1) * tileWidth g + viewportX v /\
    sh = (firstRow b + 1) * tileHeight g + viewportY v.
Proof.
  apply (tileOffset_is_inside_first_tile (setViewPort scrollDemo (-13) (-4) 20 20));
    simpl; lia.
Defined.

(** A viewport pushed to a positive position by [setViewPort] breaks that
    agreement: at [viewportX = 3] with tiles 10 wide, [firstCol] is -1, so
    the viewport's left edge is 7 pixels inside that column, and
    [tileOffsetX] is 3. *)
Example tileOffset_at_positive_viewport :
  let m := setViewPort scrollDemo 3 0 20 20 in
  (firstCol <$> _getBoundariesTiles false m) = Some (-1) /\
  _getTileOffset m = Some (3, 0, 7, 10).
Proof. by vm_compute. Qed.

(** ** Which windows [checkVisibleWindows] looks at *)

(** X15.  The windows [checkVisibleWindows] can populate are chosen from the
    vertical position alone: with [maxWinX] positive, every window other
    than [startIndex], [startIndex + 1] and the two below them
    ([+ maxWinX]) is left as it is, and [startIndex] is computed from
    [viewportY], [viewportH] and [maxWinX].  [viewportX] only decides
    whether the second window of a pair is looked at: with the viewport at
    the top ([viewportY = 0]), however far it is scrolled horizontally, no
    window other than 0 and 1 is ever marked displayed. *)
Theorem checkVisibleWindows_other_windows
    (newResourceFromPool : list Request -> Request -> ObjRef * Drawable)
    (fuel : nat) (m : Map) :
  0 < maxWinX m -> (3 <= fuel)%nat ->
  exists m1,
    checkVisibleWindows newResourceFromPool fuel m = Some m1 /\
    (forall k,
       k ∉ [startIndex m; startIndex m + 1;
            startIndex m + maxWinX m; startIndex m + maxWinX m + 1] ->
       windows m1 !! k = windows m !! k) /\
    (viewportY (view m) = 0 ->
     forall k, k <> 0 -> k <> 1 -> windows m1 !! k = windows m !! k).
Proof.
  intros Hw Hfuel.
  rewrite (checkVisibleWindows_run newResourceFromPool fuel m Hw Hfuel).
  eexists. split; [reflexivity|].
  split.
  - intros k Hk. apply windowsRun_windows_other.
    intros Hin. apply Hk. unfold windowsGoneThrough in Hin.
    destruct (remTruthy (viewportY _) _), (remTruthy (viewportX _) _);
      simpl in Hin; rewrite ?elem_of_cons, elem_of_nil in Hin;
      rewrite !elem_of_cons; tauto.
  - intros Hy k H0 H1. apply windowsRun_windows_other.
    unfold windowsGoneThrough. rewrite (startIndex_top m Hy).
    unfold remTruthy. rewrite Hy.
    change (Z.rem 0 (viewportH (view m))) with 0. rewrite andb_false_r.
    destruct (negb _ && _); simpl; rewrite ?elem_of_cons, elem_of_nil; tauto.
Qed.

Lemma checkVisibleWindows_other_windows_witness :
  let m := windowDemo (-250) in
  exists m1,
    checkVisibleWindows countingPool 3 m = Some m1 /\
    (forall k,
       k ∉ [startIndex m; startIndex m + 1;
            startIndex m + maxWinX m; startIndex m + maxWinX m + 1] ->
       windows m1 !! k = windows m !! k) /\
    (viewportY (view m) = 0 ->
     forall k, k <> 0 -> k <> 1 -> windows m1 !! k = windows m !! k).
Proof.
  apply (checkVisibleWindows_other_windows countingPool 3 (windowDemo (-250))).
  - by vm_compute.
  - lia.
Defined.

(** ** [reset] after the constructor *)

Lemma orElse_nonzero o d : d <> 0 -> orElse o d <> 0.
Proof.
  intros Hd. unfold orElse. destruct o as [v|]; [|done].
  by destruct (Z.eqb_spec v 0).
Qed.

(** X16.  On a map made by the constructor, [reset()] after any [setViewPort]
    brings back the viewport position and the start position of the
    constructor.  The viewport size comes back only when it was given in
    the options: a size the constructor took from the size of the map
    (no [viewportW] or [viewportH] option, or 0) is 0 after [reset()],
    where the constructor had put the width (height) of the map, which is
    not 0. *)
Theorem reset_after_construct (o : Options) (m : Map) (x y w h : Z) :
  construct o = Some m ->
  let m' := reset (setViewPort m x y w h) in
  viewportX (view m') = viewportX (view m) /\
  viewportY (view m') = viewportY (view m) /\
  startX m' = startX m /\ startY m' = startY m /\
  (orElse (o_viewportW o) 0 <> 0 -> viewportW (view m') = viewportW (view m)) /\
  (orElse (o_viewportH o) 0 <> 0 -> viewportH (view m') = viewportH (view m)) /\
  (orElse (o_viewportW o) 0 = 0 ->
   viewportW (view m') = 0 /\ viewportW (view m) = width m /\ width m <> 0) /\
  (orElse (o_viewportH o) 0 = 0 ->
   viewportH (view m') = 0 /\ viewportH (view m) = height m /\ height m <> 0).
Proof.
  unfold construct.
  destruct (setBuffer _ _ _ _ _) as [g|]; [|done].
  intros [= <-]. simpl.
  do 4 (split; [done|]).
  assert (Hsize : forall ov d,
            (orElse ov 0 <> 0 -> orElse ov 0 = orElse ov d) /\
            (orElse ov 0 = 0 -> orElse ov d = d)).
  { intros ov d. unfold orElse. destruct ov as [v|]; [|done].
    by destruct (Z.eqb_spec v 0). }
  split; [apply Hsize|]. split; [apply Hsize|].
  split; intros H0; (split; [done|]); (split; [by apply Hsize|]);
    by apply orElse_nonzero.
Qed.

Lemma reset_after_construct_witness :
  exists m,
    construct offsetOptions = Some m /\
    let m' := reset (setViewPort m (-7) 0 20 20) in
    viewportX (view m') = viewportX (view m) /\
    viewportY (view m') = viewportY (view m) /\
    startX m' = startX m /\ startY m' = startY m /\
    (orElse (o_viewportW offsetOptions) 0 <> 0 -> viewportW (view m') = viewportW (view m)) /\
    (orElse (o_viewportH offsetOptions) 0 <> 0 -> viewportH (view m') = viewportH (view m)) /\
    (orElse (o_viewportW offsetOptions) 0 = 0 ->
     viewportW (view m') = 0 /\ viewportW (view m) = width m /\ width m <> 0) /\
    (orElse (o_viewportH offsetOptions) 0 = 0 ->
     viewportH (view m') = 0 /\ viewportH (view m) = height m /\ height m <> 0).
Proof.
  destruct (construct offsetOptions) as [m|] eqn:E; [|by vm_compute in E].
  exists m. split; [done|].
  apply (reset_after_construct offsetOptions m (-7) 0 20 20 E).
Defined.

(** ** [getMaxDistanceToTile] *)

Lemma scanRows_hit g tx startY endY behavior :
  scanRows g tx startY endY behavior = true ->
  exists j, getTileBehaviorAtIndex g tx j = Some behavior.
Proof.
  unfold scanRows. intros (j & _ & Hj)%existsb_exists.
  exists j. unfold strictEq in Hj.
  destruct (getTileBehaviorAtIndex g tx j) as [v|]; [|done].
  apply Z.eqb_eq in Hj. by subst.
Qed.

Lemma distanceLoop_bounds g box distance behavior (isLeft : bool) rows :
  let s := if isLeft then -1 else 1 in
  0 < tileWidth g -> rows <> EndlessRows ->
  distance = s * Z.abs distance ->
  forall fuel a tx,
    1 <= a -> a = 1 \/ 1 + tileWidth g <= a ->
    (Z.to_nat (Z.abs distance - a) < fuel)%nat ->
    exists b,
      distanceLoop fuel g box distance behavior isLeft (s * tileWidth g) rows (s * a) tx
      = Some (s * b) /\
      0 <= b <= Z.abs distance /\
      ((forall col row, getTileBehaviorAtIndex g col row <> Some behavior) ->
       s * b = distance).
Proof.
  intros s Htw Hrows Hd.
  assert (Hs : s = 1 \/ s = -1) by (unfold s; destruct isLeft; lia).
  induction fuel as [|fuel IH]; intros a tx Ha Hashape Hfuel; [lia|].
  simpl.
  replace (Z.abs (s * a)) with a by (destruct Hs as [-> | ->]; lia).
  destruct (Z.ltb_spec a (Z.abs distance)) as [Hlt|Hge].
  - assert (Hnext : forall tx',
              exists b,
                distanceLoop fuel g box distance behavior isLeft (s * tileWidth g) rows
                             (s * a + s * tileWidth g) tx' = Some (s * b) /\
                0 <= b <= Z.abs distance /\
                ((forall col row, getTileBehaviorAtIndex g col row <> Some behavior) ->
                 s * b = distance)).
    { intros tx'.
      replace (s * a + s * tileWidth g) with (s * (a + tileWidth g)) by lia.
      apply IH; lia. }
    destruct rows as [startY endY| |]; [|apply Hnext|done].
    destruct (scanRows g tx startY endY behavior) eqn:Hhit; [|apply Hnext].
    apply scanRows_hit in Hhit as (j & Hj).
    destruct (Z.gtb_spec a 1).
    + exists (a - tileWidth g).
      split; [f_equal; lia|]. split; [lia|].
      intros Hno. by destruct (Hno tx j).
    + exists 0. split; [f_equal; lia|]. split; [lia|].
      intros Hno. by destruct (Hno tx j).
  - exists (Z.abs distance). split; [by rewrite <- Hd|]. split; [lia|]. done.
Qed.

(** X17.  With tiles of positive width and a tile height that is not 0,
    [getMaxDistanceToTile] returns, after at most [|distance|] passes of
    its loop, a distance that goes the way of [distance] and no further:
    between 0 and [distance].  It is [distance] itself when no tile of the
    map has the behavior, and for a [distance] of -1, 0 or 1. *)
Theorem getMaxDistanceToTile_within_distance
    (fuel : nat) (g : TileGrid) (box : HitBox) (distance behavior : Z) :
  0 < tileWidth g -> tileHeight g <> 0 ->
  (Z.to_nat (Z.abs distance) <= fuel)%nat -> (1 <= fuel)%nat ->
  exists r,
    getMaxDistanceToTile fuel g box distance behavior = Some r /\
    (0 <= distance -> 0 <= r <= distance) /\
    (distance < 0 -> distance <= r <= 0) /\
    ((forall col row, getTileBehaviorAtIndex g col row <> Some behavior) -> r = distance) /\
    (-1 <= distance <= 1 -> r = distance).
Proof.
  intros Htw Hth Hfuel Hfuel1.
  unfold getMaxDistanceToTile.
  set (isLeft := distance <? 0).
  set (s := if isLeft then -1 else 1).
  assert (Hd : distance = s * Z.abs distance)
    by (unfold s, isLeft; destruct (Z.ltb_spec distance 0); lia).
  assert (Hs : s = 1 \/ s = -1) by (unfold s; destruct isLeft; lia).
  replace (if isLeft then - tileWidth g else tileWidth g) with (s * tileWidth g)
    by (unfold s; destruct isLeft; lia).
  match goal with
  | |- context [distanceLoop _ _ _ _ _ _ _ ?rows _ ?tx] =>
      assert (Hrows : rows <> EndlessRows)
        by (unfold boxRows; by destruct (Z.eqb_spec (tileHeight g) 0));
      destruct (distanceLoop_bounds g box distance behavior isLeft rows Htw Hrows Hd
                  fuel 1 tx) as (b & Hrun & Hb & Hno); [lia|by left|lia|]
  end.
  rewrite Z.mul_1_r in Hrun. fold s in Hrun, Hno.
  exists (s * b). split; [exact Hrun|].
  split; [intros Hpos; unfold s, isLeft in *; destruct (Z.ltb_spec distance 0); lia|].
  split; [intros Hneg; unfold s, isLeft in *; destruct (Z.ltb_spec distance 0); lia|].
  split; [exact Hno|].
  intros Hsmall.
  destruct fuel as [|fuel']; [lia|]. simpl in Hrun.
  replace (Z.abs s) with 1 in Hrun by (destruct Hs as [-> | ->]; lia).
  destruct (Z.ltb_spec 1 (Z.abs distance)); [lia|]. congruence.
Qed.

Lemma getMaxDistanceToTile_within_distance_witness :
  exists r,
    getMaxDistanceToTile 25 (grid4 (wallAt21 1 2)) (mkBox 0 10 9 19) 25 2 = Some r /\
    (0 <= 25 -> 0 <= r <= 25) /\
    (25 < 0 -> 25 <= r <= 0) /\
    ((forall col row, getTileBehaviorAtIndex (grid4 (wallAt21 1 2)) col row <> Some 2) ->
     r = 25) /\
    (-1 <= 25 <= 1 -> r = 25).
Proof.
  apply (getMaxDistanceToTile_within_distance 25 (grid4 (wallAt21 1 2))
           (mkBox 0 10 9 19) 25 2); simpl; lia.
Defined.

(** On the demo grid, wall at (col 2, row 1): a box 10 wide at (0, 10)
    asked for 25 pixels to the right gets 1, the offset of the probe that
    came before the one that met the wall; 10 pixels separate the box
    from the wall. *)
Example getMaxDistanceToTile_demo :
  getMaxDistanceToTile 25 (grid4 (wallAt21 1 2)) (mkBox 0 10 9 19) 25 2 = Some 1.
Proof. by vm_compute. Qed.

(** ** [setNextX] to the left *)

Section SweepLeft.

Variable g : TileGrid.
Variables (tileTypes vx spriteYMax startY firstX : Z).

Hypothesis wide_tiles : 1 < tileWidth g.
Hypothesis not_to_the_right : vx <= 0.
Hypothesis reaches_the_edge :
  vx <= 1 - tileWidth g \/ (firstX < tileWidth g /\ vx <= - firstX).
Hypothesis firstX_bound : firstX < 2 ^ 31.
Hypothesis no_tile_on_the_left :
  forall col row, 0 <= col <= idiv firstX (tileWidth g) ->
    readU8 (tileBehaviors g) (row * numCols g + col) <> Some tileTypes.

Lemma idiv_left_edge a :
  -1 <= a < 2 ^ 31 -> idiv a (tileWidth g) = if a =? -1 then 0 else a / tileWidth g.
Proof.
  intros Ha. destruct (Z.eqb_spec a (-1)) as [->|Hne].
  - unfold idiv. rewrite (Z.quot_opp_l 1) by lia.
    by rewrite Z.quot_small by lia.
  - apply idiv_nonneg; lia.
Qed.

Lemma scanColumn_no_match fuel tx i ty :
  (forall row, readU8 (tileBehaviors g) (row * numCols g + tx) <> Some tileTypes) ->
  scanColumn g fuel tileTypes spriteYMax tx i ty = None \/
  scanColumn g fuel tileTypes spriteYMax tx i ty = Some false.
Proof.
  intros Hno. revert i ty. induction fuel as [|fuel IH]; intros i ty; simpl; [by left|].
  destruct (i <? spriteYMax); [|by right].
  destruct (readU8 (tileBehaviors g) (ty * numCols g + tx)) as [v|] eqn:E; simpl; [|apply IH].
  destruct (Z.eqb_spec v tileTypes) as [->|]; [|apply IH].
  by destruct (Hno ty).
Qed.

(** What the loop keeps true while it sweeps to the left: nothing found,
    the probe between pixel -1 and its first position, and a [minX] that
    [vx] does not exceed. *)
Lemma sweepLoop_left_stuck fuel st :
  w_found st = false /\
  -1 <= w_startX st <= firstX /\
  w_tilePos st = getTileIndexFromPixel g (w_startX st) startY /\
  vx <= w_minX st ->
  sweepLoop g fuel true tileTypes vx spriteYMax startY st = None.
Proof.
  revert st. induction fuel as [|fuel IH]; intros st (Hf & Hx & Hpos & Hmin); simpl; [done|].
  unfold sweepGuard. rewrite Hf. simpl.
  destruct (Z.geb_spec (w_minX st) vx); [|lia]. simpl.
  unfold sweepBody. rewrite Hpos. simpl.
  rewrite idiv_left_edge by lia.
  set (tx := if w_startX st =? -1 then 0 else w_startX st / tileWidth g).
  assert (Htx : 0 <= tx /\ -1 <= tx * tileWidth g - 1 <= w_startX st /\
                vx <= tx * tileWidth g - w_startX st).
  { unfold tx. destruct (Z.eqb_spec (w_startX st) (-1)) as [->|Hne]; [lia|].
    pose proof (Z.div_mod (w_startX st) (tileWidth g) ltac:(lia)).
    pose proof (Z.mod_pos_bound (w_startX st) (tileWidth g) ltac:(lia)).
    pose proof (Z.div_pos (w_startX st) (tileWidth g) ltac:(lia) ltac:(lia)).
    destruct reaches_the_edge as [Hfast|[Hcol0 Hnear]]; [nia|].
    rewrite Z.div_small by lia. lia. }
  assert (Hcol : tx <= idiv firstX (tileWidth g)).
  { rewrite (idiv_left_edge firstX) by lia. unfold tx.
    destruct (Z.eqb_spec (w_startX st) (-1)) as [E|Hne];
      destruct (Z.eqb_spec firstX (-1)); try lia.
    - apply Z.div_pos; lia.
    - apply Z.div_le_mono; lia. }
  destruct (scanColumn_no_match fuel tx (idiv startY (tileHeight g) * tileHeight g)
              (idiv startY (tileHeight g))) as [-> | ->]; [|done|].
  { intros row. apply no_tile_on_the_left. lia. }
  apply IH. repeat split; simpl; lia.
Qed.

End SweepLeft.

(** X18.  [setNextX] for a sprite that does not move right ([vx <= 0]) never
    returns once its sweep reaches the left edge of the map without
    meeting a tile of the type it looks for: the probe pixel [-1]
    truncates to column 0 again and the loop condition stays true, so no
    amount of fuel gets a result.  The sweep gets there when the sprite
    moves left by a tile's width less one, or more, and also when the left
    edge of its box, [x + hitBox.x], is in the first [tileWidth] pixels
    and the move would bring it to pixel 1 or less: a sprite standing
    still with its box at pixel 1 is enough.  The columns from the
    sprite's to column 0 are taken to hold no tile of the type. *)
Theorem setNextX_left_never_returns
    (g : TileGrid) (sprite : Drawable) (tileTypes : Z) (fuel : nat) :
  let left_edge := obj_x sprite + hx (getHitBox sprite) in
  1 < tileWidth g ->
  obj_vx sprite <= 0 ->
  0 <= left_edge <= 2 ^ 31 ->
  obj_vx sprite <= 1 - tileWidth g \/
  (1 <= left_edge <= tileWidth g /\ left_edge + obj_vx sprite <= 1) ->
  (forall col row,
     0 <= col <= idiv (left_edge - 1) (tileWidth g) ->
     readU8 (tileBehaviors g) (row * numCols g + col) <> Some tileTypes) ->
  setNextX g fuel sprite tileTypes = None.
Proof.
  intros left_edge Htw Hvx Hx Hreach Hno. unfold setNextX.
  destruct (Z.gtb_spec (obj_vx sprite) 0); [lia|]. simpl. fold left_edge.
  rewrite (sweepLoop_left_stuck g tileTypes (obj_vx sprite) _ _ (left_edge - 1));
    [done|lia|lia|lia|lia|done|].
  repeat split; simpl; lia.
Qed.

Lemma setNextX_left_never_returns_witness :
  setNextX (grid4 (replicate 16 0)) 1000
           (mkDrawable 1 10 0 0 (mkBox 0 0 9 9) None false 0) 1 = None.
Proof.
  apply (setNextX_left_never_returns (grid4 (replicate 16 0))
           (mkDrawable 1 10 0 0 (mkBox 0 0 9 9) None false 0) 1 1000).
  - simpl. lia.
  - simpl. lia.
  - simpl. lia.
  - simpl. lia.
  - intros col row _ Hr. unfold readU8 in Hr.
    destruct (0 <=? _); [|done].
    apply lookup_replicate in Hr as [Hv _]. done.
Defined.

(** ** Collision queries after a tile edit *)

(** X19.  A behavior written by [updateTile] is what the collision queries see:
    after [updateTile(col, row, _, behavior)] with a byte [behavior],
    [fallTest] on any pixel of the cell (col, row) tells whether
    [behavior] is the wall code. *)
Theorem updateTile_then_fallTest (TYPE_WALL : Z) (m : Map)
    (col row tileNum behavior x y : Z) :
  let g := grid m in
  0 < tileWidth g -> 0 < tileHeight g ->
  0 <= col < numCols g -> 0 <= row < numRows g ->
  Z.of_nat (length (tileBehaviors g)) = numCols g * numRows g ->
  -1 < behavior < 256 ->
  col * tileWidth g <= x < (col + 1) * tileWidth g ->
  row * tileHeight g <= y < (row + 1) * tileHeight g ->
  x < 2 ^ 31 -> y < 2 ^ 31 ->
  fallTest TYPE_WALL (grid (updateTile m col row tileNum behavior)) x y
  = (behavior =? TYPE_WALL).
Proof.
  intros g Htw Hth Hc Hr Hlen Hb Hx Hy Bx By.
  unfold fallTest, getTileIndexFromPixel, updateTile. fold g. simpl.
  rewrite !idiv_nonneg by nia.
  replace (x / tileWidth g) with col
    by (apply (Z.div_unique x (tileWidth g) col (x - col * tileWidth g)); lia).
  replace (y / tileHeight g) with row
    by (apply (Z.div_unique y (tileHeight g) row (y - row * tileHeight g)); lia).
  destruct (Z.gtb_spec behavior (-1)); [|lia].
  replace (col + row * numCols g) with (row * numCols g + col) by lia.
  rewrite readU8_writeU8_eq by nia. simpl.
  by rewrite Z.mod_small by lia.
Qed.

Lemma updateTile_then_fallTest_witness :
  fallTest 2 (grid (updateTile scrollDemo 2 1 (-1) 2)) 25 17 = (2 =? 2).
Proof.
  apply (updateTile_then_fallTest 2 scrollDemo 2 1 (-1) 2 25 17); simpl; lia.
Defined.

Lemma moveTo_repeated_witness :
  moveTo 7 (moveTo 0 scrollDemo (-10) 0) (-10) 0 = moveTo 0 scrollDemo (-10) 0 /\
  (moving (scroll (moveTo 0 scrollDemo (-10) 0)) = true ->
   forall x' y', moveTo 7 (moveTo 0 scrollDemo (-10) 0) x' y' = moveTo 0 scrollDemo (-10) 0).
Proof.
  apply (moveTo_repeated 0 7 (-10) 0 scrollDemo).
Defined.

(** ** Items registered with the map's events *)

Section Registration.

Variable newResourceFromPool : list Request -> Request -> ObjRef * Drawable.

Lemma spawnItem_events m item :
  exists obj,
    objects (spawnItem newResourceFromPool m item) = objects m ++ [obj] /\
    mapEvent (spawnItem newResourceFromPool m item)
    = mapEvent m ++ itemEvents [(item, obj)].
Proof.
  unfold spawnItem, itemEvents, truthyId.
  destruct (newResourceFromPool _ _) as [obj d]. exists obj.
  match goal with |- context [addObject ?m0 obj 0] =>
    destruct (addObject_frame m0 obj 0) as (_ & _ & Hev & Hobj)
  end.
  simpl in Hev, Hobj. simpl.
  destruct (itemId item) as [id|]; simpl.
  - destruct (bool_decide (id <> "")); simpl.
    + by rewrite Hobj, Hev.
    + by rewrite Hobj, Hev, app_nil_r.
  - by rewrite Hobj, Hev, app_nil_r.
Qed.

Lemma spawnItems_events its m :
  exists objs,
    length objs = length its /\
    objects (foldl (spawnItem newResourceFromPool) m its) = objects m ++ objs /\
    mapEvent (foldl (spawnItem newResourceFromPool) m its)
    = mapEvent m ++ itemEvents (zip its objs).
Proof.
  revert m. induction its as [|it its IH]; intros m; simpl.
  - exists []. by rewrite !app_nil_r.
  - destruct (spawnItem_events m it) as (obj & Hobj & Hev).
    destruct (IH (spawnItem newResourceFromPool m it)) as (objs & Hlen & Hobjs & Hevs).
    exists (obj :: objs). split; [simpl; lia|].
    rewrite Hobjs, Hevs, Hobj, Hev, <- !app_assoc. split; [done|].
    f_equal. unfold itemEvents. simpl.
    by destruct (truthyId it).
Qed.

End Registration.

(** X20.  When [addNewObjectsFromWindow] populates a window, one object per
    item is pushed on the map's list of objects, in the order of the
    items, and [mapEvent.addItem] is called for the items whose [itemId]
    is set and not empty, each with the object made for that very item;
    an item without id, or with the empty string as id, is added to the
    map but not registered. *)
Theorem window_items_registered
    (newResourceFromPool : list Request -> Request -> ObjRef * Drawable)
    (m : Map) (k : Z) (w : Window) :
  windows m !! k = Some w -> displayed w = false ->
  let m' := addNewObjectsFromWindow newResourceFromPool m k in
  exists objs,
    length objs = length (items w) /\
    objects m' = objects m ++ objs /\
    mapEvent m' = mapEvent m ++ itemEvents (zip (items w) objs).
Proof.
  intros Hw Hd. simpl. unfold addNewObjectsFromWindow. rewrite Hw, Hd. simpl.
  match goal with |- context [foldl _ ?m0 (items w)] =>
    destruct (spawnItems_events newResourceFromPool (items w) m0) as (objs & Hlen & Hobj & Hev)
  end.
  exists objs. by rewrite Hobj, Hev.
Qed.

Lemma window_items_registered_witness :
  let m := windowDemo 0 in
  let w := mkWindow false [mkItem "enemy" [] None; mkItem "bonus" [] None] in
  let m' := addNewObjectsFromWindow countingPool m 1 in
  exists objs,
    length objs = length (items w) /\
    objects m' = objects m ++ objs /\
    mapEvent m' = mapEvent m ++ itemEvents (zip (items w) objs).
Proof.
  apply (window_items_registered countingPool (windowDemo 0) 1
           (mkWindow false [mkItem "enemy" [] None; mkItem "bonus" [] None])).
  - by vm_compute.
  - reflexivity.
Defined.

(** ** [setNextX] to the right, slower than a tile per call *)

Section SweepRight.

Variable g : TileGrid.
Variables (tileTypes vx spriteYMax startY : Z).

Hypothesis tile_width : 0 < tileWidth g.
Hypothesis tile_height : 0 < tileHeight g.
Hypothesis slow_right : 0 < vx < tileWidth g.
Hypothesis startY_range : 0 <= startY < 2 ^ 31.

Lemma scanColumn_returns fuel tx i ty :
  (Z.to_nat (spriteYMax - i) < fuel)%nat ->
  exists b,
    scanColumn g fuel tileTypes spriteYMax tx i ty = Some b /\
    (b = true -> exists k, readU8 (tileBehaviors g) k = Some tileTypes).
Proof.
  revert i ty. induction fuel as [|fuel IH]; intros i ty Hfuel; [lia|]. simpl.
  destruct (Z.ltb_spec i spriteYMax); [|by exists false].
  destruct (readU8 (tileBehaviors g) (ty * numCols g + tx)) as [v|] eqn:E; simpl;
    [|apply IH; lia].
  destruct (Z.eqb_spec v tileTypes) as [->|]; [|apply IH; lia].
  exists true. split; [done|]. intros _. by eexists.
Qed.

(** One pass of the loop from a probe at pixel [s]: the tile is found in
    the probe's column, or the probe moves to the start of the next
    column. *)
Lemma sweepBody_right fuel s minX :
  0 <= s < 2 ^ 31 ->
  (Z.to_nat (spriteYMax - startY + tileHeight g) < fuel)%nat ->
  let tx := s / tileWidth g in
  (sweepBody g fuel false tileTypes spriteYMax startY
     (mkSweep s (getTileIndexFromPixel g s startY) false minX)
   = Some (mkSweep (tx * tileWidth g)
                   (getTileIndexFromPixel g (tx * tileWidth g) startY) true minX) /\
   exists k, readU8 (tileBehaviors g) k = Some tileTypes) \/
  sweepBody g fuel false tileTypes spriteYMax startY
    (mkSweep s (getTileIndexFromPixel g s startY) false minX)
  = Some (mkSweep ((tx + 1) * tileWidth g)
                  (getTileIndexFromPixel g ((tx + 1) * tileWidth g) startY) false
                  ((tx + 1) * tileWidth g - s)).
Proof.
  intros Hs Hfuel tx. unfold sweepBody. simpl.
  rewrite (idiv_nonneg s), (idiv_nonneg startY) by lia. fold tx.
  pose proof (Z.div_mod startY (tileHeight g) ltac:(lia)).
  pose proof (Z.mod_pos_bound startY (tileHeight g) tile_height).
  destruct (scanColumn_returns fuel tx (startY / tileHeight g * tileHeight g)
              (startY / tileHeight g)) as (b & -> & Hb); [lia|].
  destruct b; [left|right]; [split; [done|by apply Hb]|done].
Qed.

Lemma sweepLoop_unfold fuel (left : bool) st :
  sweepLoop g (S fuel) left tileTypes vx spriteYMax startY st
  = if sweepGuard left vx st then
      match sweepBody g fuel left tileTypes spriteYMax startY st with
      | None => None
      | Some st' => sweepLoop g fuel left tileTypes vx spriteYMax startY st'
      end
    else Some st.
Proof. reflexivity. Qed.

Lemma sweepGuard_right st :
  sweepGuard false vx st = negb (w_found st) && (w_minX st <=? vx).
Proof. reflexivity. Qed.

(** The loop ends within two passes: with the tile found after a move of
    at most [vx], or with nothing found and [minX] beyond [vx]. *)
Lemma sweepLoop_right fuel s :
  0 <= s -> s + tileWidth g < 2 ^ 31 ->
  (Z.to_nat (spriteYMax - startY + tileHeight g) <= fuel)%nat ->
  exists st,
    sweepLoop g (S (S (S fuel))) false tileTypes vx spriteYMax startY
      (mkSweep s (getTileIndexFromPixel g s startY) false 0) = Some st /\
    ((w_found st = true /\ 0 <= w_minX st <= vx /\
      exists k, readU8 (tileBehaviors g) k = Some tileTypes) \/
     (w_found st = false /\ vx < w_minX st)).
Proof.
  intros Hs Hs2 Hfuel.
  pose proof (Z.div_mod s (tileWidth g) ltac:(lia)) as Hdm.
  pose proof (Z.mod_pos_bound s (tileWidth g) tile_width) as Hmod.
  pose proof (Z.div_pos s (tileWidth g) Hs tile_width) as Hq.
  set (tx := s / tileWidth g) in *.
  rewrite sweepLoop_unfold, sweepGuard_right. cbn [w_found w_minX negb andb].
  destruct (Z.leb_spec 0 vx); [|lia].
  destruct (sweepBody_right (S (S fuel)) s 0) as [[-> Hk] | ->]; [lia|lia| |].
  { rewrite sweepLoop_unfold, sweepGuard_right. cbn [w_found w_minX negb andb].
    eexists. split; [reflexivity|]. left. cbn [w_found w_minX].
    split; [done|]. split; [lia|done]. }
  fold tx. rewrite sweepLoop_unfold, sweepGuard_right. cbn [w_found w_minX negb andb].
  destruct (Z.leb_spec ((tx + 1) * tileWidth g - s) vx) as [Hle|Hgt].
  - destruct (sweepBody_right (S fuel) ((tx + 1) * tileWidth g)
                ((tx + 1) * tileWidth g - s)) as [[-> Hk] | ->]; [nia|lia| |].
    + rewrite sweepLoop_unfold, sweepGuard_right. cbn [w_found w_minX negb andb].
      eexists. split; [reflexivity|]. left. cbn [w_found w_minX].
      split; [done|]. split; [nia|done].
    + rewrite Z.div_mul by lia.
      rewrite sweepLoop_unfold, sweepGuard_right. cbn [w_found w_minX negb andb].
      destruct (Z.leb_spec ((tx + 1 + 1) * tileWidth g - (tx + 1) * tileWidth g) vx);
        [nia|].
      eexists. split; [reflexivity|]. right. cbn [w_found w_minX]. split; [done|nia].
  - eexists. split; [reflexivity|]. right. cbn [w_found w_minX]. split; [done|lia].
Qed.

End SweepRight.

(** X21.  Moving right by less than a tile's width, from non-negative pixels,
    [setNextX] returns, after at most two passes of its loop, and leaves
    the sprite between its position and the position asked for:
    [x <= x' <= x + vx].  When it answers [false] the sprite has moved by
    the whole of [vx]; it answers [true] only if some tile of the map has
    the type looked for. *)
Theorem setNextX_slow_right_returns
    (g : TileGrid) (sprite : Drawable) (tileTypes : Z) (fuel : nat) :
  let box := getHitBox sprite in
  0 < tileWidth g -> 0 < tileHeight g ->
  0 < obj_vx sprite < tileWidth g ->
  0 <= obj_x sprite + hx2 box + 1 ->
  obj_x sprite + hx2 box + 1 + tileWidth g < 2 ^ 31 ->
  0 <= obj_y sprite + hy box < 2 ^ 31 ->
  (Z.to_nat (hy2 box - hy box + tileHeight g) + 3 <= fuel)%nat ->
  exists b x',
    setNextX g fuel sprite tileTypes = Some (b, set_obj_x sprite x') /\
    obj_x sprite <= x' <= obj_x sprite + obj_vx sprite /\
    (b = false -> x' = obj_x sprite + obj_vx sprite) /\
    (b = true -> exists k, readU8 (tileBehaviors g) k = Some tileTypes).
Proof.
  intros box Htw Hth Hvx Hx Hx2 Hy Hfuel.
  destruct fuel as [|[|[|fuel]]]; try lia.
  unfold setNextX. cbv zeta. fold box.
  destruct (Z.gtb_spec (obj_vx sprite) 0); [|lia]. cbn [negb andb orb].
  destruct (sweepLoop_right g tileTypes (obj_vx sprite) (obj_y sprite + hy2 box)
              (obj_y sprite + hy box) Htw Hth Hvx Hy fuel (obj_x sprite + hx2 box + 1))
    as (st & -> & Hst); [lia|lia| |].
  { replace (obj_y sprite + hy2 box - (obj_y sprite + hy box) + tileHeight g)
      with (hy2 box - hy box + tileHeight g) by lia. lia. }
  destruct Hst as [(Hf & Hmin & Hk) | (Hf & Hmin)].
  - destruct (Z.ltb_spec (obj_vx sprite) (w_minX st)); [lia|].
    exists true, (obj_x sprite + w_minX st).
    split; [done|]. split; [lia|]. split; [done|]. by intros _.
  - destruct (Z.ltb_spec (obj_vx sprite) (w_minX st)); [|lia].
    exists false, (obj_x sprite + obj_vx sprite).
    split; [done|]. split; [lia|]. split; [done|]. done.
Qed.

Lemma setNextX_slow_right_returns_witness :
  let sprite := mkDrawable 5 10 8 0 (mkBox 0 0 9 9) None false 0 in
  let g := grid4 (wallAt21 1 2) in
  exists b x',
    setNextX g 22 sprite 2 = Some (b, set_obj_x sprite x') /\
    obj_x sprite <= x' <= obj_x sprite + obj_vx sprite /\
    (b = false -> x' = obj_x sprite + obj_vx sprite) /\
    (b = true -> exists k, readU8 (tileBehaviors g) k = Some 2).
Proof.
  apply (setNextX_slow_right_returns (grid4 (wallAt21 1 2))
           (mkDrawable 5 10 8 0 (mkBox 0 0 9 9) None false 0) 2 22); simpl; lia.
Defined.

(** ** A viewport wider than the map *)

(** X22.  A map constructed with a viewport wider than the map has
    [maxWinX = 0], the integer part of [width / viewportW], and on such a
    map [checkVisibleWindows] never returns: its loop steps by [maxWinX]. *)
Theorem wide_viewport_windows_never_checked
    (newResourceFromPool : list Request -> Request -> ObjRef * Drawable)
    (o : Options) (m : Map) (fuel : nat) :
  construct o = Some m ->
  0 <= width m < viewportW (view m) ->
  maxWinX m = 0 /\ checkVisibleWindows newResourceFromPool fuel m = None.
Proof.
  unfold construct.
  destruct (setBuffer _ _ _ _ _) as [g|]; [|done].
  intros [= <-]. simpl. intros Hw.
  assert (H0 : idiv (orElse (o_width o) 1024)
                    (orElse (o_viewportW o) (orElse (o_width o) 1024)) = 0).
  { unfold idiv. by rewrite Z.quot_small by lia. }
  split; [done|].
  by apply checkVisibleWindows_stuck.
Qed.

Lemma wide_viewport_windows_never_checked_witness :
  exists m,
    construct wideOptions = Some m /\
    maxWinX m = 0 /\ checkVisibleWindows countingPool 1000 m = None.
Proof.
  destruct (construct wideOptions) as [m|] eqn:E; [|by vm_compute in E].
  exists m. split; [done|].
  apply (wide_viewport_windows_never_checked countingPool wideOptions m 1000 E).
  assert (Hm : width m = 1024 /\ viewportW (view m) = 2000).
  { pose proof E as E'. vm_compute in E'. by injection E' as <-. }
  lia.
Defined.

(** ** [setNextX] to the left, against a tile *)

Lemma sweepGuard_left vx st :
  sweepGuard true vx st = negb (w_found st) && ((w_minX st >=? vx) || false).
Proof. reflexivity. Qed.

(** X23.  When the pixel left of the sprite's box is in a tile of the type
    looked for, [setNextX] for a sprite that does not move right answers
    [true] and moves the sprite right by that pixel's coordinate,
    [x + hitBox.x - 1]: for the leftward sweep [minX] starts at the probe
    pixel, not at 0, and a hit in the first pass leaves it there. *)
Theorem setNextX_left_hit_at_once
    (g : TileGrid) (sprite : Drawable) (tileTypes : Z) (fuel : nat) :
  let box := getHitBox sprite in
  let probe := obj_x sprite + hx box - 1 in
  let pos := getTileIndexFromPixel g probe (obj_y sprite + hy box) in
  obj_vx sprite <= 0 -> obj_vx sprite < probe ->
  py pos * tileHeight g < obj_y sprite + hy2 box ->
  getTileBehaviorAtIndex g (px pos) (py pos) = Some tileTypes ->
  (2 <= fuel)%nat ->
  setNextX g fuel sprite tileTypes = Some (true, set_obj_x sprite (obj_x sprite + probe)).
Proof.
  intros box probe pos Hvx Hprobe Hrow Htile Hfuel.
  destruct fuel as [|[|fuel]]; try lia.
  unfold setNextX. cbv zeta. fold box probe.
  destruct (Z.gtb_spec (obj_vx sprite) 0); [lia|]. cbn [negb andb orb]. fold pos.
  rewrite sweepLoop_unfold, sweepGuard_left. cbn [w_found w_minX negb andb].
  destruct (Z.geb_spec probe (obj_vx sprite)); [|lia]. cbn [orb].
  unfold sweepBody. cbn [w_tilePos w_startX w_found w_minX scanColumn].
  destruct (Z.ltb_spec (py pos * tileHeight g) (obj_y sprite + hy2 box)); [|lia].
  unfold getTileBehaviorAtIndex in Htile.
  replace (py pos * numCols g + px pos) with (numCols g * py pos + px pos) by lia.
  rewrite Htile. cbn [strictEq]. rewrite Z.eqb_refl.
  rewrite sweepLoop_unfold, sweepGuard_left. cbn [w_found w_minX negb andb].
  destruct (Z.geb_spec (obj_vx sprite) probe); [lia|]. done.
Qed.

Lemma setNextX_left_hit_at_once_witness :
  setNextX (grid4 (wallAt21 1 2)) 2 (mkDrawable 30 10 0 0 (mkBox 0 0 9 9) None false 0) 2
  = Some (true, set_obj_x (mkDrawable 30 10 0 0 (mkBox 0 0 9 9) None false 0) (30 + (30 + 0 - 1))).
Proof.
  apply (setNextX_left_hit_at_once (grid4 (wallAt21 1 2))
           (mkDrawable 30 10 0 0 (mkBox 0 0 9 9) None false 0) 2 2).
  - simpl. lia.
  - simpl. lia.
  - vm_compute. reflexivity.
  - reflexivity.
  - lia.
Defined.

(** ** [setNextX] to the left, slower than a tile per call *)

Section SweepLeftSlow.

Variable g : TileGrid.
Variables (tileTypes vx spriteYMax startY : Z).

Hypothesis tile_width : 0 < tileWidth g.
Hypothesis tile_height : 0 < tileHeight g.
Hypothesis slow_left : 1 - tileWidth g < vx <= 0.
Hypothesis startY_range : 0 <= startY < 2 ^ 31.

(** One pass of the loop from a probe at pixel [s]: the tile is found in
    the probe's column, or the probe moves to the last pixel of the column
    on the left. *)
Lemma sweepBody_left fuel s minX :
  0 <= s < 2 ^ 31 ->
  (Z.to_nat (spriteYMax - startY + tileHeight g) < fuel)%nat ->
  let tx := s / tileWidth g in
  (sweepBody g fuel true tileTypes spriteYMax startY
     (mkSweep s (getTileIndexFromPixel g s startY) false minX)
   = Some (mkSweep (tx * tileWidth g - 1)
                   (getTileIndexFromPixel g (tx * tileWidth g - 1) startY) true minX) /\
   exists k, readU8 (tileBehaviors g) k = Some tileTypes) \/
  sweepBody g fuel true tileTypes spriteYMax startY
    (mkSweep s (getTileIndexFromPixel g s startY) false minX)
  = Some (mkSweep (tx * tileWidth g - 1)
                  (getTileIndexFromPixel g (tx * tileWidth g - 1) startY) false
                  (tx * tileWidth g - s)).
Proof.
  intros Hs Hfuel tx. unfold sweepBody. simpl.
  rewrite (idiv_nonneg s), (idiv_nonneg startY) by lia. fold tx.
  pose proof (Z.div_mod startY (tileHeight g) ltac:(lia)).
  pose proof (Z.mod_pos_bound startY (tileHeight g) tile_height).
  destruct (scanColumn_returns g tileTypes spriteYMax tile_height fuel tx
              (startY / tileHeight g * tileHeight g) (startY / tileHeight g))
    as (b & -> & Hb); [lia|].
  destruct b; [left|right]; [split; [done|by apply Hb]|done].
Qed.

(** The loop ends within two passes: with the tile found in the first
    pass, [minX] still at the probe pixel; with the tile found in the
    second, after a move of at most [|vx|]; or with nothing found and
    [minX] beyond [vx]. *)
Lemma sweepLoop_left_slow fuel s :
  tileWidth g <= s < 2 ^ 31 ->
  (Z.to_nat (spriteYMax - startY + tileHeight g) <= fuel)%nat ->
  exists st,
    sweepLoop g (S (S (S fuel))) true tileTypes vx spriteYMax startY
      (mkSweep s (getTileIndexFromPixel g s startY) false s) = Some st /\
    ((w_found st = true /\ (w_minX st = s \/ vx <= w_minX st <= 0) /\
      exists k, readU8 (tileBehaviors g) k = Some tileTypes) \/
     (w_found st = false /\ w_minX st < vx)).
Proof.
  intros Hs Hfuel.
  pose proof (Z.div_mod s (tileWidth g) ltac:(lia)) as Hdm.
  pose proof (Z.mod_pos_bound s (tileWidth g) tile_width) as Hmod.
  assert (Hq : 1 <= s / tileWidth g)
    by (apply Z.div_le_lower_bound; lia).
  set (tx := s / tileWidth g) in *.
  rewrite sweepLoop_unfold, sweepGuard_left. cbn [w_found w_minX negb andb].
  destruct (Z.geb_spec s vx); [|lia]. cbn [orb].
  destruct (sweepBody_left (S (S fuel)) s s) as [[-> Hk] | ->]; [lia|lia| |].
  { rewrite sweepLoop_unfold, sweepGuard_left. cbn [w_found w_minX negb andb].
    eexists. split; [reflexivity|]. left. cbn [w_found w_minX].
    split; [done|]. split; [by left|done]. }
  fold tx. rewrite sweepLoop_unfold, sweepGuard_left. cbn [w_found w_minX negb andb].
  destruct (Z.geb_spec (tx * tileWidth g - s) vx) as [Hge|Hlt]; cbn [orb].
  - destruct (sweepBody_left (S fuel) (tx * tileWidth g - 1) (tx * tileWidth g - s))
      as [[-> Hk] | ->]; [nia|lia| |].
    + rewrite sweepLoop_unfold, sweepGuard_left. cbn [w_found w_minX negb andb].
      eexists. split; [reflexivity|]. left. cbn [w_found w_minX].
      split; [done|]. split; [right; nia|done].
    + assert (Hprev : (tx * tileWidth g - 1) / tileWidth g = tx - 1).
      { symmetry. apply (Z.div_unique _ _ (tx - 1) (tileWidth g - 1)); lia. }
      rewrite Hprev.
      rewrite sweepLoop_unfold, sweepGuard_left. cbn [w_found w_minX negb andb].
      destruct (Z.geb_spec ((tx - 1) * tileWidth g - (tx * tileWidth g - 1)) vx);
        [nia|]. cbn [orb].
      eexists. split; [reflexivity|]. right. cbn [w_found w_minX]. split; [done|nia].
  - eexists. split; [reflexivity|]. right. cbn [w_found w_minX]. split; [done|lia].
Qed.

End SweepLeftSlow.

(** X24.  Moving left by less than a tile's width less one, with the pixel
    left of its box, the probe, at [tileWidth] or beyond, [setNextX]
    returns after at most two passes of its loop.  When it answers [false]
    the sprite has moved by the whole of [vx].  When it answers [true]
    some tile of the map has the type looked for, and the sprite is
    between the position asked for and its own, [x + vx <= x' <= x],
    unless the tile was met in the first pass: the sprite is then moved
    right by the probe's coordinate. *)
Theorem setNextX_slow_left_returns
    (g : TileGrid) (sprite : Drawable) (tileTypes : Z) (fuel : nat) :
  let box := getHitBox sprite in
  let probe := obj_x sprite + hx box - 1 in
  0 < tileWidth g -> 0 < tileHeight g ->
  1 - tileWidth g < obj_vx sprite <= 0 ->
  tileWidth g <= probe < 2 ^ 31 ->
  0 <= obj_y sprite + hy box < 2 ^ 31 ->
  (Z.to_nat (hy2 box - hy box + tileHeight g) + 3 <= fuel)%nat ->
  exists b x',
    setNextX g fuel sprite tileTypes = Some (b, set_obj_x sprite x') /\
    (b = false -> x' = obj_x sprite + obj_vx sprite) /\
    (b = true ->
     (obj_x sprite + obj_vx sprite <= x' <= obj_x sprite \/ x' = obj_x sprite + probe) /\
     exists k, readU8 (tileBehaviors g) k = Some tileTypes).
Proof.
  intros box probe Htw Hth Hvx Hx Hy Hfuel.
  destruct fuel as [|[|[|fuel]]]; try lia.
  unfold setNextX. cbv zeta. fold box probe.
  destruct (Z.gtb_spec (obj_vx sprite) 0); [lia|]. cbn [negb andb orb].
  destruct (sweepLoop_left_slow g tileTypes (obj_vx sprite) (obj_y sprite + hy2 box)
              (obj_y sprite + hy box) Htw Hth Hvx Hy fuel probe)
    as (st & -> & Hst); [lia| |].
  { replace (obj_y sprite + hy2 box - (obj_y sprite + hy box) + tileHeight g)
      with (hy2 box - hy box + tileHeight g) by lia. lia. }
  destruct Hst as [(Hf & Hmin & Hk) | (Hf & Hmin)].
  - destruct (Z.geb_spec (obj_vx sprite) (w_minX st)) as [Hge|Hlt]; cbn [orb].
    + exists false, (obj_x sprite + obj_vx sprite). split; [done|]. split; done.
    + exists true, (obj_x sprite + w_minX st). split; [done|]. split; [done|].
      intros _. split; [|done].
      destruct Hmin as [-> | Hmin]; [by right|left; lia].
  - destruct (Z.geb_spec (obj_vx sprite) (w_minX st)); [|lia]. cbn [orb].
    exists false, (obj_x sprite + obj_vx sprite). split; [done|]. split; done.
Qed.

Lemma setNextX_slow_left_returns_witness :
  let sprite := mkDrawable 35 10 (-8) 0 (mkBox 0 0 9 9) None false 0 in
  let g := grid4 (wallAt21 1 2) in
  exists b x',
    setNextX g 22 sprite 2 = Some (b, set_obj_x sprite x') /\
    (b = false -> x' = obj_x sprite + obj_vx sprite) /\
    (b = true ->
     (obj_x sprite + obj_vx sprite <= x' <= obj_x sprite \/
      x' = obj_x sprite + (obj_x sprite + hx (getHitBox sprite) - 1)) /\
     exists k, readU8 (tileBehaviors g) k = Some 2).
Proof.
  apply (setNextX_slow_left_returns (grid4 (wallAt21 1 2))
           (mkDrawable 35 10 (-8) 0 (mkBox 0 0 9 9) None false 0) 2 22); simpl; lia.
Defined.
